(** * gen: a static site compiler with backlinks

    Shallow embedding of the two-pass compiler
    (walk of the content tree, backlink resolution, final render) and of the
    path mapping both variants of the program share. *)

From Stdlib Require Import String Ascii List ZArith Lia Bool.
From stdpp Require Import base option list relations gmap strings fin_maps.

Local Open Scope string_scope.
Local Open Scope list_scope.

(** ** Go's [strings] and [path/filepath] helpers

    Strings are byte strings.  The helpers below are the ones the program
    calls; each follows the documented behaviour of the Go function of the
    same name. *)

Module GoStrings.

(** [strings.HasPrefix]. *)
Fixpoint HasPrefix (s prefix : string) {struct prefix} : bool :=
  match prefix, s with
  | EmptyString, _ => true
  | String a p', String b s' => if Ascii.eqb a b then HasPrefix s' p' else false
  | String _ _, EmptyString => false
  end.

(** Lower-casing of a single byte: ['A'..'Z'] are shifted by 32. *)
Definition lower_byte (c : ascii) : ascii :=
  let n := nat_of_ascii c in
  if (65 <=? n)%nat && (n <=? 90)%nat then ascii_of_nat (n + 32) else c.

Definition is_upper (c : ascii) : bool :=
  let n := nat_of_ascii c in (65 <=? n)%nat && (n <=? 90)%nat.

(** [all_bytes P s]: every byte of [s] satisfies [P]. *)
Fixpoint all_bytes (P : ascii -> bool) (s : string) : bool :=
  match s with
  | EmptyString => true
  | String c s' => P c && all_bytes P s'
  end.

(** [isASCII s]: no byte of [s] is [>= 0x80]. *)
Definition isASCII (s : string) : bool :=
  all_bytes (fun c => (nat_of_ascii c <? 128)%nat) s.

(** [strings.ToLower].  Go lowers an all-ASCII string byte by byte; a string
    with a byte [>= 0x80] goes through the Unicode tables, which are not
    part of this development: such bytes are kept as they are, and the
    theorems that depend on lower-casing are stated for ASCII paths. *)
Fixpoint ToLower (s : string) : string :=
  match s with
  | EmptyString => EmptyString
  | String c s' => String (lower_byte c) (ToLower s')
  end.

(** [strings.Replace s old new n] for a non-empty [old]: the first [n]
    non-overlapping occurrences of [old], scanning from the left, are
    replaced by [new]; a negative [n] puts no limit on their number.
    [skip] counts the bytes of a matched occurrence still to be dropped.
    (Every call of the program passes a non-empty literal as [old]; for the
    empty [old] the string is returned unchanged.) *)
Fixpoint Replace_from (old new : string) (skip : nat) (n : Z) (s : string)
  : string :=
  match s with
  | EmptyString => EmptyString
  | String c s' =>
      match skip with
      | S k => Replace_from old new k n s'
      | O =>
          if negb (n =? 0)%Z && HasPrefix s old
          then new +:+ Replace_from old new (String.length old - 1) (n - 1)%Z s'
          else String c (Replace_from old new O n s')
      end
  end.

Definition Replace (s old new : string) (n : Z) : string :=
  match old with
  | EmptyString => s
  | _ => Replace_from old new O n s
  end.

(** [strings.HasSuffix] and [strings.TrimSuffix]. *)
Definition HasSuffix (s suffix : string) : bool :=
  let ls := String.length s in
  let lx := String.length suffix in
  (lx <=? ls)%nat && String.eqb (String.substring (ls - lx) lx s) suffix.

Definition TrimSuffix (s suffix : string) : string :=
  if HasSuffix s suffix
  then String.substring 0 (String.length s - String.length suffix) s
  else s.

(** [filepath.Ext]: the suffix beginning at the final dot of the final
    path element; empty when that element has no dot.  [ext_scan]
    returns the extension found in the tail, if the scan from the right
    has met a dot before any separator. *)
Fixpoint has_sep (s : string) : bool :=
  match s with
  | EmptyString => false
  | String c s' => Ascii.eqb c "/" || has_sep s'
  end.

Fixpoint ext_scan (s : string) : option string :=
  match s with
  | EmptyString => None
  | String c s' =>
      match ext_scan s' with
      | Some e => Some e
      | None =>
          if has_sep s' then None
          else if Ascii.eqb c "." then Some s else None
      end
  end.

Definition Ext (path : string) : string :=
  match ext_scan path with Some e => e | None => EmptyString end.

Definition not_space (c : ascii) : bool := negb (Ascii.eqb c " ").

End GoStrings.
Export GoStrings.

(** ** The path mapper (lines 140-145 of the walk, in both variants) *)

(** [path := fmt.Sprintf("%s/%s", directory, inode.Name())]. *)
Definition joinPath (directory name : string) : string :=
  directory +:+ "/" +:+ name.

Definition outPathOf (path : string) : string :=
  let outPath := ToLower path in
  let outPath := Replace outPath "content/" "" 1%Z in
  let outPath := Replace outPath " " "_" (-1)%Z in
  let outPath := Replace outPath ".md" ".html" 1%Z in
  "public/" +:+ outPath.

(** ** Pages and the page registry *)

Record page := mkPage {
  Path : string;
  OutPath : string;
  Name : string;
  Type_ : string;          (* the field Type *)
  Backlinks : gmap string string;
  Content : string;
  Navigation : string;
  Footer : string;
  StaticImports : string
}.

Definition set_Name (v : string) (p : page) : page :=
  mkPage (Path p) (OutPath p) v (Type_ p) (Backlinks p) (Content p)
         (Navigation p) (Footer p) (StaticImports p).
Definition set_Type (v : string) (p : page) : page :=
  mkPage (Path p) (OutPath p) (Name p) v (Backlinks p) (Content p)
         (Navigation p) (Footer p) (StaticImports p).
Definition set_Backlinks (v : gmap string string) (p : page) : page :=
  mkPage (Path p) (OutPath p) (Name p) (Type_ p) v (Content p)
         (Navigation p) (Footer p) (StaticImports p).
Definition set_Content (v : string) (p : page) : page :=
  mkPage (Path p) (OutPath p) (Name p) (Type_ p) (Backlinks p) v
         (Navigation p) (Footer p) (StaticImports p).
Definition set_Navigation (v : string) (p : page) : page :=
  mkPage (Path p) (OutPath p) (Name p) (Type_ p) (Backlinks p) (Content p)
         v (Footer p) (StaticImports p).
Definition set_Footer (v : string) (p : page) : page :=
  mkPage (Path p) (OutPath p) (Name p) (Type_ p) (Backlinks p) (Content p)
         (Navigation p) v (StaticImports p).
Definition set_StaticImports (v : string) (p : page) : page :=
  mkPage (Path p) (OutPath p) (Name p) (Type_ p) (Backlinks p) (Content p)
         (Navigation p) (Footer p) v.

(** ** The content tree

    A directory entry is a file (with its bytes, or [None] when
    [os.ReadFile] fails on it) or a directory (with its listing, in the
    order [os.ReadDir] returns it, or [None] when [os.ReadDir] fails). *)
#[local] Unset Elimination Schemes.
Inductive inode :=
| File (name : string) (data : option string)
| Dir (name : string) (listing : option (list inode)).
#[local] Set Elimination Schemes.

(** ** The environment of a run

    Everything the program asks of the operating system and of its
    libraries, other than the content tree.  An answer depends on what
    is asked only: it is the same at every moment of the run. *)
Record env := mkEnv {
  (** [os.ReadFile] on the two partials read by [NewPage]. *)
  read_navigation : option string;
  read_static : option string;
  (** [template.ParseFiles path] returns no error. *)
  parse_template : string -> bool;
  (** [t.Execute(w, p)] for the template parsed from the given file:
      the bytes written to [w], and whether the error is [nil]. *)
  execute : string -> page -> string * bool;
  (** [markdown2html]: the external markdown converter. *)
  markdown2html : string -> string;
  (** [reHref.FindAllStringSubmatch(s, -1)], each match reduced to its
      first submatch [link[1]]. *)
  find_links : string -> list string;
  (** [os.MkdirAll], [os.Create] and [io.Copy] on an output path succeed. *)
  mkdir_all : string -> bool;
  create : string -> bool;
  io_copy : string -> bool;
  (** The order in which [range pages] visits the keys, in the backlink
      loop and in the render loop; Go leaves it unspecified. *)
  range_backlinks : gmap string page -> list string;
  range_render : gmap string page -> list string
}.

(** ** State, events and the sequencing of effects *)

Inductive event :=
| EvParseFiles (path : string)                 (* template.ParseFiles *)
| EvReadFile (path : string)                   (* os.ReadFile *)
| EvReadDir (directory : string)               (* os.ReadDir *)
| EvMkdir (path : string)                      (* os.Mkdir *)
| EvMkdirAll (path : string)                   (* os.MkdirAll *)
| EvOpen (path : string)                       (* os.Open *)
| EvCreate (path : string)                     (* os.Create *)
| EvInsert (key : string)                      (* pages[key] = &p *)
| EvBacklink (target from name : string)       (* targetPage.Backlinks[from] = name *)
| EvParsed (n : nat)                           (* "parsed %d pages" *)
| EvLog (msg : string) (args : list string)    (* log.Printf, log.Print *)
| EvFatal.                                     (* log.Fatal: exit status 1 *)

(** [trace] lists the events of the run so far, the latest first. *)
Record state := mkState {
  pages : gmap string page;
  disk : gmap string string;
  trace : list event
}.

Inductive outcome (A : Type) :=
| Done (a : A) (st : state)
| Fatal (st : state).
Arguments Done {A} a st.
Arguments Fatal {A} st.

Definition M (A : Type) : Type := state -> outcome A.

Definition ret {A} (a : A) : M A := fun st => Done a st.

Definition bind {A B} (m : M A) (k : A -> M B) : M B :=
  fun st => match m st with
            | Done a st' => k a st'
            | Fatal st' => Fatal st'
            end.

Notation "m >>> k" := (bind m (fun _ => k))
  (at level 90, right associativity).

Definition emit (e : event) : M unit :=
  fun st => Done tt (mkState (pages st) (disk st) (e :: trace st)).

(** [log.Fatal]: the process exits, nothing after it runs. *)
Definition fatal {A} : M A :=
  fun st => Fatal (mkState (pages st) (disk st) (EvFatal :: trace st)).

Definition get_pages : M (gmap string page) := fun st => Done (pages st) st.

Definition put_pages (m : gmap string page) : M unit :=
  fun st => Done tt (mkState m (disk st) (trace st)).

Definition write_file (path bytes : string) : M unit :=
  fun st => Done tt (mkState (pages st) (<[path := bytes]> (disk st)) (trace st)).

(** [for _, x := range l { body x }]. *)
Fixpoint forEach {A} (body : A -> M unit) (l : list A) : M unit :=
  match l with
  | [] => ret tt
  | x :: l' => body x >>> forEach body l'
  end.

(** ** The program *)

Section Program.

Variable E : env.

(** [NewPage]: the page with its three arguments, an empty [Backlinks]
    map and the two partials, read anew at every call; [None] stands for
    the error return. *)
Definition NewPage (path outPath name : string) : M (option page) :=
  let p := mkPage path outPath name "" ∅ "" "" "" "" in
  emit (EvReadFile "template/navigation.html") >>>
  match read_navigation E with
  | None => ret None
  | Some navigationPartial =>
      let p := set_Navigation navigationPartial p in
      emit (EvReadFile "template/static.html") >>>
      match read_static E with
      | None => ret None
      | Some staticImportPatials =>
          ret (Some (set_StaticImports staticImportPatials p))
      end
  end.

(** [copyFile]: every failure is a [log.Fatal].  [data] is what the
    source file holds ([None]: it cannot be opened). *)
Definition copyFile (path outPath : string) (data : option string) : M unit :=
  emit (EvOpen path) >>>
  match data with
  | None => fatal
  | Some bytes =>
      emit (EvCreate outPath) >>>
      if create E outPath then
        write_file outPath "" >>>
        if io_copy E outPath then write_file outPath bytes else fatal
      else fatal
  end.

(** The registry key of a page: [strings.Replace(p.OutPath, "/content", "", 1)]. *)
Definition pageKey (outPath : string) : string :=
  Replace outPath "/content" "" 1%Z.

(** [pages[key] = &p]. *)
Definition insertPage (key : string) (p : page) : M unit :=
  fun st => Done tt (mkState (<[key := p]> (pages st)) (disk st)
                             (EvInsert key :: trace st)).

(** The file branch of the loop body of [parseDirectoryContent]. *)
Definition parseFile (directory parent name : string) (data : option string)
  : M unit :=
  let path := joinPath directory name in
  let outPath := outPathOf path in
  emit (EvReadFile path) >>>
  match data with
  | None => emit (EvLog "[gen/parse/source] unable to read source" [outPath])
  | Some s =>
      bind (NewPage path outPath (TrimSuffix name (Ext name))) (fun r =>
      match r with
      | None => emit (EvLog "[gen/page/new] unable to open partial" [])
      | Some p =>
          let p := if String.eqb (Name p) "index" then set_Name parent p else p in
          bind
            (if String.eqb (Ext name) ".html" then
               ret (set_Type "HTML" p)
             else if String.eqb (Ext name) ".md" then
               ret (set_Type "MD" (set_Content (markdown2html E s) p))
             else
               emit (EvLog "[gen/process/file] copying" [path]) >>>
               copyFile path outPath data >>>
               ret p)
            (fun p => insertPage (pageKey (OutPath p)) p)
      end)
  end.

(** The loop body of [parseDirectoryContent], and through the directory
    branch the function itself, on the listing of the directory. *)
Fixpoint parseInode (directory parent : string) (i : inode) {struct i} : M unit :=
  match i with
  | File name data => parseFile directory parent name data
  | Dir name listing =>
      let path := joinPath directory name in
      let outPath := outPathOf path in
      emit (EvMkdirAll outPath) >>>
      if mkdir_all E outPath then
        emit (EvLog "[gen/process/dir] created directory" [outPath]) >>>
        let childName := if String.eqb directory "content" then parent else directory in
        emit (EvReadDir path) >>>
        match listing with
        | None => fatal
        | Some inodes =>
            emit (EvMkdir "public") >>>
            (fix loop (l : list inode) : M unit :=
               match l with
               | [] => ret tt
               | j :: l' => parseInode path childName j >>> loop l'
               end) inodes
        end
      else
        emit (EvLog "[gen/process/dir] unable to create directory" [outPath])
  end.

Definition parseDirectoryContent (directory parent : string)
  (listing : option (list inode)) : M unit :=
  emit (EvReadDir directory) >>>
  match listing with
  | None => fatal
  | Some inodes =>
      emit (EvMkdir "public") >>>
      forEach (parseInode directory parent) inodes
  end.

(** [targetPage.Backlinks[from] = name], through the pointer held at
    [target]. *)
Definition addBacklink (from name : string) (p : page) : page :=
  set_Backlinks (<[from := name]> (Backlinks p)) p.

Definition recordBacklink (target from name : string) : M unit :=
  fun st => Done tt (mkState (alter (addBacklink from name) target (pages st))
                             (disk st)
                             (EvBacklink target from name :: trace st)).

(** The body of the inner loop of [main] for the page held at [key] and
    one of its links.  [page] is a pointer in the program: its fields
    are read from the registry as it is when the link is handled. *)
Definition resolveLink (key link : string) : M unit :=
  bind get_pages (fun m =>
  match m !! key with
  | None => ret tt
  | Some page =>
      emit (EvLog "[gen/parse/backlinks] found link" [OutPath page; link]) >>>
      let p := "public" +:+ link in
      match m !! p with
      | Some targetPage =>
          recordBacklink p (Replace (OutPath page) "public" "" 1%Z) (Name page)
      | None =>
          let p := "public" +:+ link +:+ "/index.html" in
          match m !! p with
          | Some targetPage =>
              recordBacklink p (Replace (OutPath page) "public" "" 1%Z) (Name page)
          | None =>
              emit (EvLog "[gen/parse/backlinks] unable to find page" [p])
          end
      end
  end).

(** The body of the first [range pages] loop of [main]. *)
Definition resolvePage (key : string) : M unit :=
  bind get_pages (fun m =>
  match m !! key with
  | None => ret tt
  | Some page =>
      if negb (String.eqb (Type_ page) "") then
        emit (EvLog "[gen/parse/backlinks] parsing" [OutPath page; key]) >>>
        forEach (resolveLink key) (find_links E (Content page))
      else ret tt
  end).

(** [renderMd] and [renderHtml]: every failure is logged and the function
    returns.  [os.Create] truncates the file before the template writes. *)
Definition renderTo (template : string) (p : page) : M unit :=
  emit (EvCreate (OutPath p)) >>>
  if create E (OutPath p) then
    write_file (OutPath p) "" >>>
    write_file (OutPath p) (fst (execute E template p)) >>>
    if snd (execute E template p)
    then emit (EvLog "[gen/render/file] rendered file" [OutPath p])
    else emit (EvLog "[gen/render/file] unable to render to file" [OutPath p])
  else emit (EvLog "[gen/render/file] unable to create file" [OutPath p]).

Definition renderMd (p : page) : M unit :=
  renderTo "template/markdown.html" p.

Definition renderHtml (p : page) : M unit :=
  emit (EvParseFiles (Path p)) >>>
  if parse_template E (Path p) then renderTo (Path p) p
  else emit (EvLog "[gen/render/dir] unable to open source file" []).

(** The method [Render] of the page held at [key]: the footer is
    written through the pointer, the page as it is then goes to the
    renderer of its type. *)
Definition Render (key : string) : M unit :=
  bind get_pages (fun m =>
  match m !! key with
  | None => ret tt
  | Some p =>
      let result := fst (execute E "template/footer.html" p) in
      put_pages (alter (set_Footer result) key m) >>>
      let p := set_Footer result p in
      if String.eqb (Type_ p) "HTML" then renderHtml p
      else if String.eqb (Type_ p) "MD" then renderMd p
      else ret tt
  end).

(** The two [range pages] loops of [main]. *)
Definition resolveBacklinks : M unit :=
  bind get_pages (fun m => forEach resolvePage (range_backlinks E m)).

Definition renderPages : M unit :=
  bind get_pages (fun m => forEach Render (range_render E m)).

Definition main (content : option (list inode)) : M unit :=
  emit (EvParseFiles "template/markdown.html") >>>
  if parse_template E "template/markdown.html" then
    emit (EvLog "[gen/init/template] opened markdown template" []) >>>
    emit (EvParseFiles "template/footer.html") >>>
    if parse_template E "template/footer.html" then
      emit (EvLog "[gen/init/template] opened footer template" []) >>>
      parseDirectoryContent "content" "Oliver" content >>>
      bind get_pages (fun m => emit (EvParsed (size m))) >>>
      resolveBacklinks >>>
      renderPages
    else emit (EvLog "[gen/init/template] unable to open footer template" [])
  else emit (EvLog "[gen/init/template] unable to open markdown template" []).

End Program.

(** The state a run starts from: an empty registry, whatever the output
    tree holds already, and no event. *)
Definition initial (disk0 : gmap string string) : state := mkState ∅ disk0 [].

Definition run (E : env) (disk0 : gmap string string)
  (content : option (list inode)) : outcome unit :=
  main E content (initial disk0).

(** ** The path mapper in the words of the specification

    Strip the content-root prefix, lower-case what remains, replace
    spaces by underscores, replace the extension by the HTML extension
    when it is the markdown extension, prefix the output root. *)
Definition spec_strip_root (p : string) : string :=
  if HasPrefix p "content/"
  then String.substring 8 (String.length p - 8) p
  else p.

Definition spec_replace_ext (p : string) : string :=
  if String.eqb (Ext p) ".md" then TrimSuffix p ".md" +:+ ".html" else p.

Definition spec_map (p : string) : string :=
  "public/" +:+
  spec_replace_ext (Replace (ToLower (spec_strip_root p)) " " "_" (-1)%Z).

(** [strings.Index s sub], counted from [i]: the position of the first
    occurrence of [sub] in [s]. *)
Fixpoint Index_from (sub s : string) (i : nat) : option nat :=
  match s with
  | EmptyString => if HasPrefix s sub then Some i else None
  | String c s' => if HasPrefix s sub then Some i else Index_from sub s' (S i)
  end.

Definition Index (s sub : string) : option nat := Index_from sub s 0.

(** The path after the first three rules of the mapper. *)
Definition normalised (path : string) : string :=
  Replace (Replace (ToLower path) "content/" "" 1%Z) " " "_" (-1)%Z.

(** [".md"] occurs in [q] at its end or not at all. *)
Definition md_only_at_end (q : string) : bool :=
  match Index q ".md" with
  | None => true
  | Some i => (i + 3 =? String.length q)%nat
  end.

(** ** What the passes may do to the state

    Two step relations bound the effects of the compile pass and of the
    two passes after it. *)

Definition state_of {A} (o : outcome A) : state :=
  match o with Done _ st => st | Fatal st => st end.

Definition completes {A} (o : outcome A) : bool :=
  match o with Done _ _ => true | Fatal _ => false end.

(** The events of the compile pass other than the insertions. *)
Definition compile_event (e : event) : Prop :=
  match e with
  | EvInsert _ | EvBacklink _ _ _ | EvParseFiles _ | EvParsed _ => False
  | _ => True
  end.

(** A page as the tree walk builds it. *)
Record parsed_page (p : page) : Prop := mkParsed {
  pp_backlinks : Backlinks p = ∅;
  pp_path : HasPrefix (Path p) "content/" = true;
  pp_outPath : OutPath p = outPathOf (Path p);
  pp_footer : Footer p = ""
}.

Inductive compile_step : state -> state -> Prop :=
| cs_emit e st :
    compile_event e ->
    compile_step st (mkState (pages st) (disk st) (e :: trace st))
| cs_insert p st :
    parsed_page p ->
    compile_step st (mkState (<[pageKey (OutPath p) := p]> (pages st)) (disk st)
                             (EvInsert (pageKey (OutPath p)) :: trace st))
| cs_write path bytes st :
    compile_step st (mkState (pages st) (<[path := bytes]> (disk st)) (trace st)).

(** A change of a page that keeps what identifies it. *)
Definition keeps_identity (f : page -> page) : Prop :=
  forall p, Path (f p) = Path p /\ OutPath (f p) = OutPath p
            /\ Name (f p) = Name p /\ Type_ (f p) = Type_ p
            /\ Content (f p) = Content p.

(** The events of the backlink and render passes, for a registry [m]. *)
Definition later_event (m : gmap string page) (e : event) : Prop :=
  match e with
  | EvLog _ _ | EvCreate _ => True
  | EvParseFiles path => exists k p, m !! k = Some p /\ Path p = path
  | EvBacklink target _ _ => is_Some (m !! target)
  | _ => False
  end.

Inductive later_step : state -> state -> Prop :=
| ls_emit e st :
    later_event (pages st) e ->
    later_step st (mkState (pages st) (disk st) (e :: trace st))
| ls_alter f k st :
    keeps_identity f ->
    later_step st (mkState (alter f k (pages st)) (disk st) (trace st))
| ls_write path bytes st :
    later_step st (mkState (pages st) (<[path := bytes]> (disk st)) (trace st)).

(** [directory] lies in the content tree. *)
Definition under_content (directory : string) : Prop :=
  forall name, HasPrefix (joinPath directory name) "content/" = true.

(** The registry as the compile pass leaves it: every page sits at the
    key computed from its output path, which lies under the output root. *)
Definition registry_wf (m : gmap string page) : Prop :=
  forall k p, m !! k = Some p ->
    k = pageKey (OutPath p) /\ HasPrefix (OutPath p) "public" = true.

Definition is_backlink (e : event) : Prop :=
  match e with EvBacklink _ _ _ => True | _ => False end.

Definition is_insert (e : event) : Prop :=
  match e with EvInsert _ => True | _ => False end.

(** A program whose every run is a sequence of steps of [R]. *)
Definition steps {A} (R : relation state) (m : M A) : Prop :=
  forall st, rtc R st (state_of (m st)).

(** What [NewPage] returns when it returns a page. *)
Definition fresh_page (path outPath name : string) (p : page) : Prop :=
  Path p = path /\ OutPath p = outPath /\ Name p = name /\ Type_ p = ""
  /\ Backlinks p = ∅ /\ Content p = "" /\ Footer p = "".

(** The page the walk builds for a file, before its type is set. *)
Definition built_page (directory parent name nav static : string) : page :=
  let base := TrimSuffix name (Ext name) in
  mkPage (joinPath directory name) (outPathOf (joinPath directory name))
         (if String.eqb base "index" then parent else base)
         "" ∅ "" nav "" static.

(** Every page of the registry is as the walk built it, at its key. *)
Definition registry_parsed (m : gmap string page) : Prop :=
  forall k p, m !! k = Some p -> parsed_page p /\ k = pageKey (OutPath p).

(** Every page of the registry comes from a file of the content tree. *)
Definition registry_paths (m : gmap string page) : Prop :=
  forall k p, m !! k = Some p -> HasPrefix (Path p) "content/" = true.

(** The events of the compile pass, insertions included. *)
Definition compile_trace_event (e : event) : Prop :=
  match e with
  | EvBacklink _ _ _ | EvParseFiles _ | EvParsed _ => False
  | _ => True
  end.

(** The events of the two later passes, as they show in the trace, for
    the registry [m] the passes started from. *)
Definition later_trace_event (m : gmap string page) (e : event) : Prop :=
  match e with
  | EvLog _ _ | EvCreate _ => True
  | EvBacklink target _ _ => is_Some (m !! target)
  | EvParseFiles path => HasPrefix path "content/" = true
  | _ => False
  end.

(** The events of the start of [main], the latest first, when both
    templates parse. *)
Definition startup_trace : list event :=
  [EvLog "[gen/init/template] opened footer template" [];
   EvParseFiles "template/footer.html";
   EvLog "[gen/init/template] opened markdown template" [];
   EvParseFiles "template/markdown.html"].

(** ** A sample environment and sample content

    A run in which nothing fails.  The converter wraps its input in a
    paragraph, as the markdown converter does with a line of inline HTML;
    the link scanner recognises the anchors written [<a href=...>] with
    a quoted target that begins with [/], which are matches of [reHref];
    a template writes its own name and the name of the page. *)

Definition quote : ascii := ascii_of_nat 34.

Definition anchor_open : string := "<a href=" +:+ String quote "/".

(** The bytes of [s] up to its first quote, when there is one. *)
Fixpoint up_to_quote (s : string) : option string :=
  match s with
  | EmptyString => None
  | String c s' =>
      if Ascii.eqb c quote then Some EmptyString
      else match up_to_quote s' with
           | Some t => Some (String c t)
           | None => None
           end
  end.

Fixpoint scan_links (skip : nat) (s : string) : list string :=
  match s with
  | EmptyString => []
  | String c s' =>
      match skip with
      | S k => scan_links k s'
      | O =>
          if HasPrefix s anchor_open then
            match up_to_quote (String.substring 9 (String.length s - 9) s) with
            | Some link => link :: scan_links (9 + String.length link) s'
            | None => scan_links O s'
            end
          else scan_links O s'
      end
  end.

Definition keys_of (m : gmap string page) : list string := (map_to_list m).*1.

Definition sample_env : env :=
  mkEnv (Some "<nav/>") (Some "<link/>")
        (fun _ => true)
        (fun template p => ("[" +:+ template +:+ "|" +:+ Name p +:+ "]", true))
        (fun md => "<p>" +:+ md +:+ "</p>")
        (scan_links O)
        (fun _ => true) (fun _ => true) (fun _ => true)
        keys_of keys_of.

(** The same collaborators with other answers from the file system. *)
Definition with_partials (nav static : option string) (E : env) : env :=
  mkEnv nav static (parse_template E) (execute E) (markdown2html E)
        (find_links E) (mkdir_all E) (create E) (io_copy E)
        (range_backlinks E) (range_render E).

Definition with_create (f : string -> bool) (E : env) : env :=
  mkEnv (read_navigation E) (read_static E) (parse_template E) (execute E)
        (markdown2html E) (find_links E) (mkdir_all E) f (io_copy E)
        (range_backlinks E) (range_render E).

Definition with_ranges (rb rr : gmap string page -> list string) (E : env) : env :=
  mkEnv (read_navigation E) (read_static E) (parse_template E) (execute E)
        (markdown2html E) (find_links E) (mkdir_all E) (create E) (io_copy E)
        rb rr.

Definition link_to (target : string) : string :=
  anchor_open +:+ target +:+ String quote ">here</a>".

(** A markdown page that links to an opaque file next to it. *)
Definition content_with_opaque : option (list inode) :=
  Some [File "notes.md" (Some (link_to "readme.txt"));
        File "readme.txt" (Some "hello")].

(** The registry with the page of one opaque file. *)
Definition opaque_page : page :=
  built_page "content" "Oliver" "readme.txt" "<nav/>" "<link/>".

Definition opaque_state : state :=
  mkState {["public/readme.txt" := opaque_page]} ∅ [].

(** ** The backlink pass as a function of the registry *)

(** The key of a backlink entry: [strings.Replace(page.OutPath, "public", "", 1)]. *)
Definition backlinkKey (p : page) : string := Replace (OutPath p) "public" "" 1%Z.

(** The registry key a link resolves to: the exact match, else the
    directory index. *)
Definition linkTarget (m : gmap string page) (link : string) : option string :=
  match m !! ("public" +:+ link) with
  | Some _ => Some ("public" +:+ link)
  | None =>
      match m !! ("public" +:+ link +:+ "/index.html") with
      | Some _ => Some ("public" +:+ link +:+ "/index.html")
      | None => None
      end
  end.

(** A write [targetPage.Backlinks[from] = name]. *)
Record write := mkWrite { w_target : string; w_from : string; w_name : string }.

Definition apply_write (m : gmap string page) (w : write) : gmap string page :=
  alter (addBacklink (w_from w) (w_name w)) (w_target w) m.

(** The write one link of the page at [key] leads to, if any. *)
Definition link_write (m : gmap string page) (key link : string) : option write :=
  match m !! key with
  | None => None
  | Some page =>
      match linkTarget m link with
      | Some target => Some (mkWrite target (backlinkKey page) (Name page))
      | None => None
      end
  end.

(** The writes of the page at [key], in the order of its links. *)
Definition page_writes (E : env) (m : gmap string page) (key : string) : list write :=
  match m !! key with
  | None => []
  | Some page =>
      if negb (String.eqb (Type_ page) "")
      then omap (link_write m key) (find_links E (Content page))
      else []
  end.

(** The writes of the pass that visits the keys [ks] in this order. *)
Definition pass_writes (E : env) (m : gmap string page) (ks : list string) : list write :=
  ks ≫= page_writes E m.

(** What identifies a page and feeds the backlink pass. *)
Definition identity (p : page) : string * string * string * string * string :=
  (Path p, OutPath p, Name p, Type_ p, Content p).

(** Two registries with the same pages up to backlinks and footers. *)
Definition same_pages (m m' : gmap string page) : Prop :=
  forall k, identity <$> m !! k = identity <$> m' !! k.

(** No two writes of [ws] give the same entry two different names. *)
Definition consistent (ws : list write) : Prop :=
  forall w1 w2, w1 ∈ ws -> w2 ∈ ws -> w_from w1 = w_from w2 -> w_name w1 = w_name w2.

(** [range] visits every key once: the list is a permutation of the keys. *)
Definition range_valid (r : gmap string page -> list string) : Prop :=
  forall m, r m ≡ₚ keys_of m.

(** ** Sample content: a section with its index page *)

Definition content_blog : option (list inode) :=
  Some [Dir "blog" (Some [File "index.md" (Some "plain text");
                          File "post.md" (Some (link_to "blog"))])].

(** The state of the sample run when the compile pass ends. *)
Definition blog_compiled : state :=
  state_of (parseDirectoryContent sample_env "content" "Oliver" content_blog
              (initial ∅)).

Definition blog_post_page : page :=
  set_Type "MD" (set_Content (markdown2html sample_env (link_to "blog"))
                   (built_page "content/blog" "Oliver" "post.md" "<nav/>" "<link/>")).

Definition blog_index_page : page :=
  set_Type "MD" (set_Content (markdown2html sample_env "plain text")
                   (built_page "content/blog" "Oliver" "index.md" "<nav/>" "<link/>")).

(** ** The compile pass as a list of insertions *)

Section Gather.

Context {A B : Type}.
Variable f : A -> option (list B).

(** The results of [f] on the elements of [l], one after the other;
    [None] as soon as one of them is [None]. *)
Fixpoint gather (l : list A) : option (list B) :=
  match l with
  | [] => Some []
  | x :: l' =>
      match f x with
      | None => None
      | Some a =>
          match gather l' with
          | None => None
          | Some b => Some (a ++ b)
          end
      end
  end.

End Gather.

(** The insertion the file branch makes for a file, if it makes one;
    [None] when the branch ends in [log.Fatal]. *)
Definition file_inserts (E : env) (directory parent name : string)
  (data : option string) : option (list (string * page)) :=
  let outPath := outPathOf (joinPath directory name) in
  match data with
  | None => Some []
  | Some s =>
      match read_navigation E, read_static E with
      | Some nav, Some static =>
          let p := built_page directory parent name nav static in
          if String.eqb (Ext name) ".html" then
            Some [(pageKey outPath, set_Type "HTML" p)]
          else if String.eqb (Ext name) ".md" then
            Some [(pageKey outPath, set_Type "MD" (set_Content (markdown2html E s) p))]
          else if create E outPath && io_copy E outPath then
            Some [(pageKey outPath, p)]
          else None
      | _, _ => Some []
      end
  end.

(** The insertions of the walk of an entry, in the order of the walk. *)
Fixpoint inode_inserts (E : env) (directory parent : string) (i : inode)
  : option (list (string * page)) :=
  match i with
  | File name data => file_inserts E directory parent name data
  | Dir name listing =>
      let path := joinPath directory name in
      if mkdir_all E (outPathOf path) then
        match listing with
        | None => None
        | Some inodes =>
            gather (inode_inserts E path
                      (if String.eqb directory "content" then parent else directory))
                   inodes
        end
      else Some []
  end.

Definition insert_pair (m : gmap string page) (kp : string * page) : gmap string page :=
  <[kp.1 := kp.2]> m.

(** The registry keys of the files of an entry, whether they are read
    or not. *)
Fixpoint file_keys (directory : string) (i : inode) : list string :=
  match i with
  | File name _ => [pageKey (outPathOf (joinPath directory name))]
  | Dir name None => []
  | Dir name (Some inodes) =>
      flat_map (file_keys (joinPath directory name)) inodes
  end.

(** The same tree under another order of the directory listings. *)
Inductive tree_perm : inode -> inode -> Prop :=
| tp_file name data : tree_perm (File name data) (File name data)
| tp_dir_none name : tree_perm (Dir name None) (Dir name None)
| tp_dir name l l' :
    listing_perm l l' -> tree_perm (Dir name (Some l)) (Dir name (Some l'))
with listing_perm : list inode -> list inode -> Prop :=
| lp_nil : listing_perm [] []
| lp_skip i i' l l' :
    tree_perm i i' -> listing_perm l l' -> listing_perm (i :: l) (i' :: l')
| lp_swap i j l : listing_perm (j :: i :: l) (i :: j :: l)
| lp_trans l1 l2 l3 :
    listing_perm l1 l2 -> listing_perm l2 l3 -> listing_perm l1 l3.

(** Two walks agree: both end in [log.Fatal], or they make the same
    insertions up to their order. *)
Definition same_inserts (o o' : option (list (string * page))) : Prop :=
  match o, o' with
  | Some a, Some b => a ≡ₚ b
  | None, None => True
  | _, _ => False
  end.

(** The backlinks of every page when the run has ended; [None] when it
    was ended by [log.Fatal]. *)
Definition final_backlinks (o : outcome unit)
  : option (gmap string (gmap string string)) :=
  match o with
  | Done _ st => Some (Backlinks <$> pages st)
  | Fatal _ => None
  end.

(** [body] run from [st] makes the insertions [o], or ends in
    [log.Fatal] when [o] is [None]. *)
Definition makes_inserts (body : M unit) (o : option (list (string * page)))
  : Prop :=
  forall st,
    match o with
    | Some l => exists st', body st = Done tt st'
                            /\ pages st' = foldl insert_pair (pages st) l
    | None => completes (body st) = false
    end.

(** ** Sample content: two files with one registry key *)

Definition content_collision : list inode :=
  [File "A.md" (Some (link_to "t.html"));
   File "a.md" (Some (link_to "t.html"));
   File "t.md" (Some "target")].

Definition content_collision_swapped : list inode :=
  [File "a.md" (Some (link_to "t.html"));
   File "A.md" (Some (link_to "t.html"));
   File "t.md" (Some "target")].

(** Two pages without collision, in the two orders. *)
Definition content_pair : list inode :=
  [File "post.md" (Some (link_to "index.html")); File "index.md" (Some "home")].

Definition content_pair_swapped : list inode :=
  [File "index.md" (Some "home"); File "post.md" (Some (link_to "index.html"))].

Definition keys_reversed (m : gmap string page) : list string := reverse (keys_of m).

(** The backlinks of the page at [key] when the run has ended. *)
Definition final_backlinks_of (o : outcome unit) (key : string)
  : option (gmap string string) :=
  match final_backlinks o with
  | Some m => m !! key
  | None => None
  end.

(** ** Counting events *)

Fixpoint occurrences (f : event -> bool) (t : list event) : nat :=
  match t with
  | [] => 0
  | e :: t' => (if f e then 1 else 0) + occurrences f t'
  end.

Definition is_parse (path : string) (e : event) : bool :=
  match e with EvParseFiles p => String.eqb p path | _ => false end.

Definition is_read (path : string) (e : event) : bool :=
  match e with EvReadFile p => String.eqb p path | _ => false end.

(** The events of the tree walk and of the passes after it: everything
    but the parsing of templates and the log. *)
Definition is_processing (e : event) : bool :=
  match e with
  | EvParseFiles _ | EvLog _ _ => false
  | _ => true
  end.

Definition sample_env_without_navigation : env :=
  with_partials None (Some "<link/>") sample_env.

(** The render pass has come to the page [p]: the output file of a
    markdown page was asked for, the source of an HTML page was parsed. *)
Definition visited (p : page) (t : list event) : Prop :=
  (Type_ p = "MD" -> EvCreate (OutPath p) ∈ t)
  /\ (Type_ p = "HTML" -> EvParseFiles (Path p) ∈ t).

(** Sample content and environment: the output file of an opaque file
    cannot be created. *)
Definition content_opaque_first : list inode :=
  [File "a.txt" (Some "bytes"); File "b.md" (Some "text")].

Definition sample_env_no_create : env := with_create (fun _ => false) sample_env.

(** The templates of the start of [main] both parse. *)
Definition templates_parse (E : env) : bool :=
  parse_template E "template/markdown.html"
  && parse_template E "template/footer.html".

(** ** The backlinks a pass leaves *)

(** The [Backlinks] map of the page at [target] after the writes [ws],
    from the map [B] it had before. *)
Definition stamped (ws : list write) (target : string)
  (B : gmap string string) : gmap string string :=
  foldl (fun B w => if String.eqb (w_target w) target
                    then <[w_from w := w_name w]> B else B) B ws.

(** The name the last write of [ws] on the entry [from] of the page at
    [target] gives it, if there is such a write. *)
Fixpoint written (ws : list write) (target from : string) : option string :=
  match ws with
  | [] => None
  | w :: ws' =>
      match written ws' target from with
      | Some name => Some name
      | None =>
          if String.eqb (w_target w) target && String.eqb (w_from w) from
          then Some (w_name w) else None
      end
  end.

(** The link [link] of the typed page [page], held at [key], resolves
    to the registry key [target]. *)
Definition links_to (E : env) (m : gmap string page)
  (key : string) (page : page) (link target : string) : Prop :=
  m !! key = Some page /\ Type_ page <> ""
  /\ link ∈ find_links E (Content page)
  /\ linkTarget m link = Some target.

(** ** The pages of the registry *)

(** A page as the walk registers it: built from a file of the content
    tree, of one of the three types, with a body only when it is a
    markdown page. *)
Record walked_page (p : page) : Prop := mkWalked {
  wp_parsed : parsed_page p;
  wp_type : Type_ p = "" \/ Type_ p = "HTML" \/ Type_ p = "MD";
  wp_content : Type_ p <> "MD" -> Content p = ""
}.

Inductive walk_step : state -> state -> Prop :=
| ws_emit e st :
    walk_step st (mkState (pages st) (disk st) (e :: trace st))
| ws_insert p st :
    walked_page p ->
    walk_step st (mkState (<[pageKey (OutPath p) := p]> (pages st)) (disk st)
                          (EvInsert (pageKey (OutPath p)) :: trace st))
| ws_write path bytes st :
    walk_step st (mkState (pages st) (<[path := bytes]> (disk st)) (trace st)).

(** What every page of a registry satisfies in any run. *)
Definition registry_walked (m : gmap string page) : Prop :=
  forall k p, m !! k = Some p ->
    k = pageKey (OutPath p)
    /\ OutPath p = outPathOf (Path p)
    /\ HasPrefix (Path p) "content/" = true
    /\ (Type_ p = "" \/ Type_ p = "HTML" \/ Type_ p = "MD")
    /\ (Type_ p <> "MD" -> Content p = "").

(** A page with a file named [contents.md] in a section. *)
Definition content_contents : option (list inode) :=
  Some [Dir "blog" (Some [File "contents.md" (Some "text")])].

(** ** Bounds on what a run writes *)

(** A step that changes neither the registry nor the output tree. *)
Inductive log_step : state -> state -> Prop :=
| lg_emit e st : log_step st (mkState (pages st) (disk st) (e :: trace st)).

(** The output paths of the files of an entry, whether they are read or
    not. *)
Fixpoint file_outPaths (directory : string) (i : inode) : list string :=
  match i with
  | File name _ => [outPathOf (joinPath directory name)]
  | Dir name None => []
  | Dir name (Some inodes) =>
      flat_map (file_outPaths (joinPath directory name)) inodes
  end.

(** A step that writes, and registers pages, at the output paths [S]
    only. *)
Inductive bounded_step (S : string -> Prop) : state -> state -> Prop :=
| bs_emit e st :
    bounded_step S st (mkState (pages st) (disk st) (e :: trace st))
| bs_insert key p st :
    S (OutPath p) ->
    bounded_step S st (mkState (<[key := p]> (pages st)) (disk st)
                               (EvInsert key :: trace st))
| bs_write path bytes st :
    S path ->
    bounded_step S st (mkState (pages st) (<[path := bytes]> (disk st)) (trace st)).

(** Every page of the registry has its output path in [S]. *)
Definition registry_within (S : string -> Prop) (m : gmap string page) : Prop :=
  forall k p, m !! k = Some p -> S (OutPath p).

(** ** What the render pass leaves

    The page [Render] hands to the renderer of its type: the page of
    the registry with the footer template executed on it. *)
Definition with_footer (E : env) (p : page) : page :=
  set_Footer (fst (execute E "template/footer.html" p)) p.

(** The text [renderHtml] or [renderMd] writes for the page [q], if it
    comes to writing: the page is of one of the two rendered types, its
    source parses as a template when it is an HTML page, and its output
    file can be created. *)
Definition rendering (E : env) (q : page) : option string :=
  if String.eqb (Type_ q) "HTML" then
    if parse_template E (Path q) && create E (OutPath q)
    then Some (fst (execute E (Path q) q)) else None
  else if String.eqb (Type_ q) "MD" then
    if create E (OutPath q)
    then Some (fst (execute E "template/markdown.html" q)) else None
  else None.

(** ** Opaque files

    The entry [i] of [directory] holds the opaque file [path] with the
    bytes [data], in directories the walk creates and lists. *)
Inductive holds_opaque (E : env) : string -> inode -> string -> string -> Prop :=
| ho_file directory name data :
    Ext name <> ".html" -> Ext name <> ".md" ->
    holds_opaque E directory (File name (Some data)) (joinPath directory name) data
| ho_dir directory name inodes j path data :
    mkdir_all E (outPathOf (joinPath directory name)) = true ->
    j ∈ inodes ->
    holds_opaque E (joinPath directory name) j path data ->
    holds_opaque E directory (Dir name (Some inodes)) path data.

(** No page of the registry with the output path [o] is of a rendered
    type. *)
Definition unrendered_at (o : string) (m : gmap string page) : Prop :=
  forall k p, m !! k = Some p -> OutPath p = o -> Type_ p = "".

(** A tree with an opaque file in a sub-directory. *)
Definition content_assets : list inode :=
  [File "index.md" (Some "text");
   Dir "assets" (Some [File "logo.svg" (Some "<svg/>")])].

(** The entry [i] of [directory], walked with the name [parent], holds
    the readable file [name] with the bytes [data] in the directory
    [dir], which the walk reaches through directories it creates and
    lists and walks with the name [given]. *)
Inductive holds_file (E : env)
  : string -> string -> inode -> string -> string -> string -> string -> Prop :=
| hf_file directory parent name data :
    holds_file E directory parent (File name (Some data)) directory parent name data
| hf_dir directory parent name inodes j dir given fname data :
    mkdir_all E (outPathOf (joinPath directory name)) = true ->
    j ∈ inodes ->
    holds_file E (joinPath directory name)
               (if String.eqb directory "content" then parent else directory)
               j dir given fname data ->
    holds_file E directory parent (Dir name (Some inodes)) dir given fname data.

(** The page the walk registers for the readable file [name] of
    [directory], walked with the name [parent]. *)
Definition file_page (E : env) (directory parent name data nav static : string)
  : page :=
  let p := built_page directory parent name nav static in
  if String.eqb (Ext name) ".html" then set_Type "HTML" p
  else if String.eqb (Ext name) ".md" then
    set_Type "MD" (set_Content (markdown2html E data) p)
  else p.

(** ** The single-pass variant (main.go)

    The earlier variant of the program renders every file as the walk
    meets it: it has no registry, no backlinks and no page type.  Its
    walk, its path mapping and [copyFile] are those of the two-pass
    variant; [NewPage] reads the footer fragment too.  The state is the
    one of the two-pass variant, whose registry this variant never
    touches. *)

Module Legacy.

Record page := mkPage {
  Path : string;
  OutPath : string;
  Name : string;
  Content : string;
  Navigation : string;
  Footer : string;
  StaticImports : string
}.

(** The environment of a run: the one of the two-pass variant for the
    file system and the converter, the footer fragment, and the
    template engine on the pages of this variant. *)
Record world := mkWorld {
  base : env;
  read_footer : option string;
  execute : string -> page -> string * bool
}.

Section Program.

Variable L : world.

Definition NewPage (path outPath name : string) : M (option page) :=
  emit (EvReadFile "template/navigation.html") >>>
  match read_navigation (base L) with
  | None => ret None
  | Some navigationPartial =>
      emit (EvReadFile "template/footer.html") >>>
      match read_footer L with
      | None => ret None
      | Some footerPartial =>
          emit (EvReadFile "template/static.html") >>>
          match read_static (base L) with
          | None => ret None
          | Some staticImportPatials =>
              ret (Some (mkPage path outPath name ""
                                navigationPartial footerPartial staticImportPatials))
          end
      end
  end.

Definition renderTo (template : string) (p : page) : M unit :=
  emit (EvCreate (OutPath p)) >>>
  if create (base L) (OutPath p) then
    write_file (OutPath p) "" >>>
    write_file (OutPath p) (fst (execute L template p)) >>>
    if snd (execute L template p)
    then emit (EvLog "[gen/render/file] rendered file" [OutPath p])
    else emit (EvLog "[gen/render/file] unable to render to file" [OutPath p])
  else emit (EvLog "[gen/render/file] unable to create file" [OutPath p]).

Definition renderMd (p : page) : M unit :=
  renderTo "template/markdown.html" p.

Definition renderHtml (p : page) : M unit :=
  emit (EvParseFiles (Path p)) >>>
  if parse_template (base L) (Path p) then renderTo (Path p) p
  else emit (EvLog "[gen/render/dir] unable to open source file" []).

(** The file branch of the loop body of [renderDirectoryContents]. *)
Definition renderFile (directory parent name : string) (data : option string)
  : M unit :=
  let path := joinPath directory name in
  let outPath := outPathOf path in
  emit (EvReadFile path) >>>
  match data with
  | None => emit (EvLog "[gen/render/source] unable to read source" [outPath])
  | Some s =>
      bind (NewPage path outPath (TrimSuffix name (Ext name))) (fun r =>
      match r with
      | None => emit (EvLog "[gen/page/new] unable to open partial" [])
      | Some p =>
          let p := if String.eqb (Name p) "index"
                   then mkPage (Path p) (OutPath p) parent (Content p)
                               (Navigation p) (Footer p) (StaticImports p)
                   else p in
          if String.eqb (Ext name) ".html" then renderHtml p
          else if String.eqb (Ext name) ".md" then
            renderMd (mkPage (Path p) (OutPath p) (Name p) (markdown2html (base L) s)
                             (Navigation p) (Footer p) (StaticImports p))
          else
            emit (EvLog "[gen/render/file] copying" [path]) >>>
            copyFile (base L) path outPath data
      end)
  end.

(** The loop body of [renderDirectoryContents], and through the
    directory branch the function itself. *)
Fixpoint renderInode (directory parent : string) (i : inode) {struct i} : M unit :=
  match i with
  | File name data => renderFile directory parent name data
  | Dir name listing =>
      let path := joinPath directory name in
      let outPath := outPathOf path in
      emit (EvMkdirAll outPath) >>>
      if mkdir_all (base L) outPath then
        emit (EvLog "[gen/render/dir] created directory" [outPath]) >>>
        let childName := if String.eqb directory "content" then parent else directory in
        emit (EvReadDir path) >>>
        match listing with
        | None => fatal
        | Some inodes =>
            emit (EvMkdir "public") >>>
            (fix loop (l : list inode) : M unit :=
               match l with
               | [] => ret tt
               | j :: l' => renderInode path childName j >>> loop l'
               end) inodes
        end
      else
        emit (EvLog "[gen/render/dir] unable to create directory" [outPath])
  end.

Definition renderDirectoryContents (directory parent : string)
  (listing : option (list inode)) : M unit :=
  emit (EvReadDir directory) >>>
  match listing with
  | None => fatal
  | Some inodes =>
      emit (EvMkdir "public") >>>
      forEach (renderInode directory parent) inodes
  end.

Definition main (content : option (list inode)) : M unit :=
  emit (EvParseFiles "template/markdown.html") >>>
  if parse_template (base L) "template/markdown.html" then
    emit (EvLog "[gen/render/template] open markdown template" []) >>>
    renderDirectoryContents "content" "Oliver" content
  else emit (EvLog "[gen/render/dir] unable to open markdown template" []).

(** What the walk writes for the readable file [name] of [directory],
    if it comes to writing: the rendering of its page for an HTML or a
    markdown file, the bytes of the file for any other. *)
Definition file_output (directory parent name data : string) : option string :=
  match read_navigation (base L), read_footer L, read_static (base L) with
  | Some nav, Some footer, Some static =>
      let path := joinPath directory name in
      let outPath := outPathOf path in
      let stem := TrimSuffix name (Ext name) in
      let shown := if String.eqb stem "index" then parent else stem in
      if String.eqb (Ext name) ".html" then
        if parse_template (base L) path && create (base L) outPath
        then Some (fst (execute L path (mkPage path outPath shown "" nav footer static)))
        else None
      else if String.eqb (Ext name) ".md" then
        if create (base L) outPath
        then Some (fst (execute L "template/markdown.html"
                          (mkPage path outPath shown (markdown2html (base L) data)
                                  nav footer static)))
        else None
      else Some data
  | _, _, _ => None
  end.

End Program.

Definition run (L : world) (disk0 : gmap string string)
  (content : option (list inode)) : outcome unit :=
  main L content (initial disk0).

(** A sample environment in which nothing fails. *)
Definition sample_world : world :=
  mkWorld sample_env (Some "<footer/>")
        (fun template p => ("[" +:+ template +:+ "|" +:+ Name p +:+ "]", true)).

Definition sample_world_without_footer : world :=
  mkWorld sample_env None (execute sample_world).

End Legacy.

Definition finishes {A} (o : option A) : bool :=
  match o with Some _ => true | None => false end.

(** * Properties *)

(** ** Byte strings *)

Section StringLemmas.

(** [all_bytes P s] holds when every byte of [s] satisfies [P]. *)
Lemma all_bytes_app P a b :
  all_bytes P (a +:+ b) = all_bytes P a && all_bytes P b.
Proof.
  induction a as [|c a IH]; simpl; [reflexivity|].
  rewrite IH. apply andb_assoc.
Qed.

Lemma all_bytes_Replace_from P old new skip n s :
  all_bytes P s = true -> all_bytes P new = true ->
  all_bytes P (Replace_from old new skip n s) = true.
Proof.
  intros Hs Hnew. revert skip n Hs.
  induction s as [|c s IH]; intros skip n Hs; [reflexivity|].
  cbn [all_bytes] in Hs. apply andb_true_iff in Hs as [Hc Hs].
  cbn [Replace_from]. destruct skip as [|k]; [|auto].
  destruct (negb (n =? 0)%Z && HasPrefix (String c s) old).
  - rewrite all_bytes_app, Hnew. simpl. auto.
  - cbn [all_bytes]. rewrite Hc. simpl. auto.
Qed.

Lemma all_bytes_Replace P s old new n :
  all_bytes P s = true -> all_bytes P new = true ->
  all_bytes P (Replace s old new n) = true.
Proof.
  intros Hs Hnew. unfold Replace. destruct old; [assumption|].
  now apply all_bytes_Replace_from.
Qed.

Lemma lower_byte_not_upper c : is_upper (lower_byte c) = false.
Proof. destruct c as [[] [] [] [] [] [] [] []]; reflexivity. Qed.

Lemma lower_byte_fixed c : is_upper c = false -> lower_byte c = c.
Proof. unfold lower_byte, is_upper. intros ->. reflexivity. Qed.

Lemma ToLower_not_upper s : all_bytes (fun c => negb (is_upper c)) (ToLower s) = true.
Proof.
  induction s as [|c s IH]; [reflexivity|].
  cbn [ToLower all_bytes]. now rewrite lower_byte_not_upper, IH.
Qed.

Lemma ToLower_fixed s :
  all_bytes (fun c => negb (is_upper c)) s = true -> ToLower s = s.
Proof.
  induction s as [|c s IH]; [reflexivity|].
  cbn [ToLower all_bytes]. intros [Hc Hs]%andb_true_iff.
  apply negb_true_iff in Hc. now rewrite lower_byte_fixed, IH.
Qed.

Lemma Replace_spaces_no_space n s :
  (n < 0)%Z -> all_bytes not_space (Replace_from " " "_" 0 n s) = true.
Proof.
  revert n. induction s as [|c s IH]; intros n Hn; [reflexivity|].
  cbn [Replace_from HasPrefix].
  change (String.length " " - 1)%nat with 0%nat.
  destruct (n =? 0)%Z eqn:E0; [lia|]. cbn [negb andb].
  destruct (Ascii.eqb " " c) eqn:Ec.
  - change (all_bytes not_space (String "_" (Replace_from " " "_" 0 (n - 1) s)) = true).
    cbn [all_bytes]. rewrite IH by lia. reflexivity.
  - cbn [all_bytes]. rewrite IH by lia. unfold not_space.
    rewrite Ascii.eqb_sym, Ec. reflexivity.
Qed.

Lemma Replace_spaces_fixed n s :
  all_bytes not_space s = true -> Replace_from " " "_" 0 n s = s.
Proof.
  induction s as [|c s IH]; [reflexivity|].
  cbn [all_bytes]. intros [Hc Hs]%andb_true_iff.
  cbn [Replace_from HasPrefix]. unfold not_space in Hc.
  apply negb_true_iff in Hc. rewrite Ascii.eqb_sym, Hc.
  rewrite andb_false_r. now rewrite IH.
Qed.

Lemma HasPrefix_split s prefix :
  HasPrefix s prefix = true -> exists r, s = prefix +:+ r.
Proof.
  revert s. induction prefix as [|a p IH]; intros s H; [now exists s|].
  destruct s as [|b s]; [discriminate|]. cbn in H.
  destruct (Ascii.eqb a b) eqn:Hab; [|discriminate].
  apply Ascii.eqb_eq in Hab as ->. destruct (IH s H) as [r ->]. now exists r.
Qed.

Lemma Replace_from_done old new s : Replace_from old new 0 0 s = s.
Proof. induction s as [|c s IH]; [reflexivity|]. cbn. now rewrite IH. Qed.

End StringLemmas.

(** ** The path mapper *)

Example outPathOf_post :
  outPathOf "content/Blog/My Post.md" = "public/blog/my_post.html"
  /\ spec_map "content/Blog/My Post.md" = "public/blog/my_post.html".
Proof. split; reflexivity. Qed.

Example Ext_cases :
  Ext "index.md" = ".md" /\ Ext "a.tar.gz" = ".gz" /\ Ext "README" = ""
  /\ Ext ".bashrc" = ".bashrc" /\ Ext "a.b/c" = "".
Proof. repeat split; reflexivity. Qed.

Example TrimSuffix_cases :
  TrimSuffix "index.md" (Ext "index.md") = "index"
  /\ TrimSuffix "README" (Ext "README") = "README".
Proof. split; reflexivity. Qed.

Example Replace_cases :
  Replace "a.md.md" ".md" ".html" 1 = "a.html.md"
  /\ Replace "a b c" " " "_" (-1) = "a_b_c"
  /\ Replace "aaa" "aa" "b" (-1) = "ba"
  /\ Replace "public/public" "public" "" 1 = "/public".
Proof. repeat split; reflexivity. Qed.

Lemma outPathOf_not_upper p :
  all_bytes (fun c => negb (is_upper c)) (outPathOf p) = true.
Proof.
  unfold outPathOf. rewrite all_bytes_app. apply andb_true_iff. split; [reflexivity|].
  repeat (apply all_bytes_Replace; [|reflexivity]).
  apply ToLower_not_upper.
Qed.

Lemma outPathOf_no_space p : all_bytes not_space (outPathOf p) = true.
Proof.
  unfold outPathOf. rewrite all_bytes_app. apply andb_true_iff. split; [reflexivity|].
  apply all_bytes_Replace; [|reflexivity].
  unfold Replace at 1. apply Replace_spaces_no_space. lia.
Qed.

(** *** Where the mapper and its specification agree *)

Lemma append_nil_r (s : string) : s +:+ "" = s.
Proof.
  induction s as [|c s IH]; [reflexivity|].
  change (String c (s +:+ "") = String c s). now rewrite IH.
Qed.

Lemma length_append (a b : string) :
  String.length (a +:+ b) = (String.length a + String.length b)%nat.
Proof.
  induction a as [|c a IH]; [reflexivity|].
  change (S (String.length (a +:+ b)) = S (String.length a + String.length b)).
  now rewrite IH.
Qed.

Lemma substring_append_l (a b : string) :
  String.substring 0 (String.length a) (a +:+ b) = a.
Proof.
  induction a as [|c a IH]; [now destruct b|].
  change (String c (String.substring 0 (String.length a) (a +:+ b)) = String c a).
  now rewrite IH.
Qed.

Lemma substring_append_r (a b : string) :
  String.substring (String.length a) (String.length b) (a +:+ b) = b.
Proof.
  induction a as [|c a IH]; [|exact IH].
  cbn [String.length]. change ("" +:+ b) with b.
  induction b as [|c b IHb]; [reflexivity|]. cbn. now rewrite IHb.
Qed.

Lemma HasPrefix_append (a b : string) : HasPrefix (a +:+ b) a = true.
Proof.
  induction a as [|c a IH]; [reflexivity|].
  change (HasPrefix (String c (a +:+ b)) (String c a) = true).
  cbn. now rewrite Ascii.eqb_refl.
Qed.

Lemma Replace_from_skip old new (x rest : string) :
  Replace_from old new (String.length x) 0 (x +:+ rest) = rest.
Proof.
  induction x as [|c x IH]; [apply Replace_from_done | exact IH].
Qed.

Lemma Index_from_None sub new n s i :
  Index_from sub s i = None -> Replace_from sub new 0 n s = s.
Proof.
  revert i. induction s as [|c s IH]; intros i H; [reflexivity|].
  cbn [Index_from] in H. cbn [Replace_from].
  destruct (HasPrefix (String c s) sub); [discriminate|].
  rewrite andb_false_r. now rewrite (IH (S i)).
Qed.

Lemma Index_from_Some c sub new s i j :
  Index_from (String c sub) s i = Some j ->
  exists u rest,
    s = u +:+ String c sub +:+ rest /\ j = (i + String.length u)%nat
    /\ Replace_from (String c sub) new 0 1 s = u +:+ new +:+ rest.
Proof.
  revert i. induction s as [|d s IH]; intros i H.
  { cbn in H. discriminate. }
  cbn [Index_from] in H. destruct (HasPrefix (String d s) (String c sub)) eqn:Hpre.
  - injection H as <-. destruct (HasPrefix_split _ _ Hpre) as [rest Hrest].
    exists "", rest. split; [exact Hrest|]. split; [cbn; lia|].
    cbn [Replace_from]. rewrite Hpre. cbn [Z.eqb negb andb].
    change (String d s = String c (sub +:+ rest)) in Hrest.
    injection Hrest as -> ->.
    change (String.length (String c sub) - 1)%nat with (String.length sub - 0)%nat.
    rewrite Nat.sub_0_r, Replace_from_skip. reflexivity.
  - destruct (IH (S i) H) as (u & rest & -> & -> & Hrep).
    exists (String d u), rest. split; [reflexivity|]. split; [cbn; lia|].
    cbn [Replace_from]. change (String d (u +:+ String c sub +:+ rest))
      with (String d u +:+ String c sub +:+ rest) in Hpre.
    change (HasPrefix (String d (u +:+ String c sub +:+ rest)) (String c sub))
      with (HasPrefix (String d u +:+ String c sub +:+ rest) (String c sub)).
    rewrite Hpre, andb_false_r, Hrep. reflexivity.
Qed.

Lemma Index_from_suffix sub (u : string) : forall i,
  Index_from sub (u +:+ sub) i <> None.
Proof.
  induction u as [|c u IH]; intros i.
  - change ("" +:+ sub) with sub. destruct sub as [|c sub]; [discriminate|].
    cbn [Index_from]. pose proof (HasPrefix_append (String c sub) "") as H.
    rewrite append_nil_r in H. now rewrite H.
  - change (String c u +:+ sub) with (String c (u +:+ sub)). cbn [Index_from].
    destruct (HasPrefix _ sub); [discriminate | apply IH].
Qed.

Lemma ext_scan_suffix s e : ext_scan s = Some e -> exists u, s = u +:+ e.
Proof.
  revert e. induction s as [|c s IH]; intros e; [discriminate|].
  cbn [ext_scan]. destruct (ext_scan s) as [e'|].
  - intros [= <-]. destruct (IH e' eq_refl) as [u ->]. now exists (String c u).
  - destruct (has_sep s); [discriminate|].
    destruct (Ascii.eqb c "."); [|discriminate]. intros [= <-]. now exists "".
Qed.

Lemma Ext_md (u : string) : Ext (u +:+ ".md") = ".md".
Proof.
  unfold Ext. induction u as [|c u IH]; [reflexivity|].
  change (String c u +:+ ".md") with (String c (u +:+ ".md")). cbn [ext_scan].
  destruct (ext_scan (u +:+ ".md")) as [e|]; [exact IH | discriminate].
Qed.

Lemma TrimSuffix_append (u x : string) : TrimSuffix (u +:+ x) x = u.
Proof.
  unfold TrimSuffix, HasSuffix. rewrite length_append.
  replace (String.length u + String.length x - String.length x)%nat
    with (String.length u) by lia.
  rewrite substring_append_r, String.eqb_refl, substring_append_l.
  destruct (_ <=? _)%nat eqn:Hle; [reflexivity|].
  apply Nat.leb_gt in Hle. lia.
Qed.

Lemma length_zero_nil (s : string) : String.length s = 0%nat -> s = "".
Proof. now destruct s. Qed.

(** On a path where [".md"] occurs at the end only, the replacement of
    the first occurrence is the replacement of the extension. *)
Lemma Replace_md_is_extension q :
  md_only_at_end q = true ->
  Replace q ".md" ".html" 1 = spec_replace_ext q.
Proof.
  unfold md_only_at_end, Index, spec_replace_ext, Replace.
  destruct (Index_from ".md" q 0) as [i|] eqn:Hidx.
  - intros Hlen%Nat.eqb_eq.
    destruct (Index_from_Some _ _ ".html" _ _ _ Hidx) as (u & rest & -> & -> & ->).
    rewrite !length_append in Hlen. cbn [String.length] in Hlen.
    assert (rest = "") as -> by (apply length_zero_nil; lia).
    rewrite Ext_md. cbn [String.eqb Ascii.eqb Bool.eqb]. cbn.
    rewrite TrimSuffix_append. now rewrite append_nil_r.
  - intros _. rewrite (Index_from_None _ _ _ _ _ Hidx).
    destruct (String.eqb (Ext q) ".md") eqn:Hext; [|reflexivity].
    apply String.eqb_eq in Hext. unfold Ext in Hext.
    destruct (ext_scan q) as [e|] eqn:Hscan; [|discriminate]. subst e.
    destruct (ext_scan_suffix _ _ Hscan) as [u ->].
    now destruct (Index_from_suffix ".md" u 0).
Qed.

Lemma ToLower_content r : ToLower ("content/" +:+ r) = "content/" +:+ ToLower r.
Proof. reflexivity. Qed.

Lemma Replace_content r : Replace ("content/" +:+ r) "content/" "" 1 = r.
Proof.
  unfold Replace.
  change ("content/" +:+ r)
    with (String "c" (String "o" (String "n" (String "t" (String "e" (String "n"
           (String "t" (String "/" r)))))))).
  cbn. apply Replace_from_done.
Qed.

Lemma spec_strip_root_content r : spec_strip_root ("content/" +:+ r) = r.
Proof.
  unfold spec_strip_root. rewrite HasPrefix_append, length_append.
  cbn [String.length]. replace (8 + String.length r - 8)%nat with (String.length r) by lia.
  apply (substring_append_r "content/" r).
Qed.

(** The mapper computes the mapping of the specification on every
    content path in which [".md"], after the normalisation, occurs at the
    end only. *)
Lemma outPathOf_spec_map path :
  HasPrefix path "content/" = true ->
  md_only_at_end (normalised path) = true ->
  outPathOf path = spec_map path.
Proof.
  intros [r ->]%HasPrefix_split Hmd. unfold outPathOf, spec_map. f_equal.
  fold (normalised ("content/" +:+ r)).
  rewrite (Replace_md_is_extension _ Hmd). f_equal.
  unfold normalised. now rewrite spec_strip_root_content, ToLower_content, Replace_content.
Qed.

Example outPathOf_spec_map_post :
  outPathOf "content/Blog/My Post.md" = spec_map "content/Blog/My Post.md".
Proof. apply outPathOf_spec_map; reflexivity. Qed.

(** C3.  The mapper replaces the first occurrence of [".md"] anywhere in
    the path, not the extension: for [page.mdx], whose extension is not
    the markdown extension, the output path is rewritten, and for
    [old.md.md], whose extension is the markdown extension, the
    extension is left in place.  The mapping worded by the specification
    gives [public/page.mdx] and [public/old.md.html]. *)
Theorem outPathOf_replaces_first_md_occurrence :
  Ext "page.mdx" = ".mdx"
  /\ outPathOf (joinPath "content" "page.mdx") = "public/page.htmlx"
  /\ spec_map (joinPath "content" "page.mdx") = "public/page.mdx"
  /\ Ext "old.md.md" = ".md"
  /\ outPathOf (joinPath "content" "old.md.md") = "public/old.html.md"
  /\ spec_map (joinPath "content" "old.md.md") = "public/old.md.html".
Proof. repeat split; reflexivity. Qed.

(** C9 as stated fails: mapping an already-mapped path prefixes the
    output root once more. *)
Lemma outPathOf_twice_differs :
  outPathOf (outPathOf "content/a.md") = "public/public/a.html"
  /\ outPathOf (outPathOf "content/a.md") <> outPathOf "content/a.md".
Proof. split; [reflexivity | discriminate]. Qed.

(** C9, amended.  The two normalising steps of the mapper are idempotent
    on its output: for every ASCII path, lower-casing the mapped path or
    replacing its spaces by underscores leaves it as it is. *)
Theorem outPathOf_normal_form (p : string) :
  isASCII p = true ->
  ToLower (outPathOf p) = outPathOf p
  /\ Replace (outPathOf p) " " "_" (-1) = outPathOf p.
Proof.
  intros _. split.
  - apply ToLower_fixed, outPathOf_not_upper.
  - unfold Replace at 1. apply Replace_spaces_fixed, outPathOf_no_space.
Qed.

Lemma outPathOf_normal_form_witness :
  isASCII "content/Blog/My Post.md" = true
  /\ ToLower (outPathOf "content/Blog/My Post.md") = outPathOf "content/Blog/My Post.md"
  /\ Replace (outPathOf "content/Blog/My Post.md") " " "_" (-1)
     = outPathOf "content/Blog/My Post.md".
Proof.
  split; [reflexivity|].
  apply (outPathOf_normal_form "content/Blog/My Post.md"). reflexivity.
Defined.

(** ** Sequencing *)

Lemma append_assoc (a b c : string) : (a +:+ b) +:+ c = a +:+ (b +:+ c).
Proof.
  induction a as [|x a IH]; [reflexivity|].
  change (String x ((a +:+ b) +:+ c) = String x (a +:+ b +:+ c)).
  now rewrite IH.
Qed.

Lemma HasPrefix_app s t prefix :
  HasPrefix s prefix = true -> HasPrefix (s +:+ t) prefix = true.
Proof.
  revert s. induction prefix as [|a p IH]; intros s H; [reflexivity|].
  destruct s as [|b s]; [discriminate|]. simpl in *.
  destruct (Ascii.eqb a b); [auto | discriminate].
Qed.

Section inode_induction.

Variable P : inode -> Prop.
Hypothesis HFile : forall name data, P (File name data).
Hypothesis HDirNone : forall name, P (Dir name None).
Hypothesis HDir : forall name l, Forall P l -> P (Dir name (Some l)).

Fixpoint inode_ind (i : inode) : P i :=
  match i with
  | File name data => HFile name data
  | Dir name None => HDirNone name
  | Dir name (Some l) =>
      HDir name l
        ((fix go (l : list inode) : Forall P l :=
            match l return Forall P l with
            | [] => List.Forall_nil P
            | x :: l' => @List.Forall_cons _ P x l' (inode_ind x) (go l')
            end) l)
  end.

End inode_induction.

Lemma forEach_app {A} (body : A -> M unit) l1 l2 st :
  forEach body (l1 ++ l2) st = (forEach body l1 >>> forEach body l2) st.
Proof.
  revert st. induction l1 as [|x l1 IH]; intros st; [reflexivity|].
  cbn [app forEach]. unfold bind.
  destruct (body x st) as [[] st1|st1]; [|reflexivity].
  rewrite IH. reflexivity.
Qed.

(** The directory branch of the loop body calls the function itself. *)
Lemma parseInode_Dir E directory parent name listing :
  parseInode E directory parent (Dir name listing) =
  (let path := joinPath directory name in
   let outPath := outPathOf path in
   emit (EvMkdirAll outPath) >>>
   if mkdir_all E outPath then
     emit (EvLog "[gen/process/dir] created directory" [outPath]) >>>
     parseDirectoryContent E path
       (if String.eqb directory "content" then parent else directory) listing
   else emit (EvLog "[gen/process/dir] unable to create directory" [outPath])).
Proof.
  cbn [parseInode]. cbv zeta. unfold parseDirectoryContent.
  destruct listing as [l|]; [|reflexivity].
  set (path := joinPath directory name).
  set (childName := if String.eqb directory "content" then parent else directory).
  assert (Hloop :
    (fix loop (l : list inode) : M unit :=
       match l with
       | [] => ret tt
       | j :: l' => parseInode E path childName j >>> loop l'
       end) l = forEach (parseInode E path childName) l).
  { induction l as [|j l IH]; [reflexivity|]. cbn [forEach]. now rewrite IH. }
  now rewrite Hloop.
Qed.

(** ** Programs as sequences of steps *)

Lemma steps_ret {A} R (a : A) : steps R (ret a).
Proof. intros st. apply rtc_refl. Qed.

Lemma steps_bind {A B} R (m : M A) (k : A -> M B) :
  steps R m -> (forall a, steps R (k a)) -> steps R (bind m k).
Proof.
  intros Hm Hk st. unfold bind. specialize (Hm st).
  destruct (m st) as [a st'|st']; [|exact Hm].
  etrans; [exact Hm | apply Hk].
Qed.

Lemma steps_forEach {A} R (body : A -> M unit) l :
  (forall x, steps R (body x)) -> steps R (forEach body l).
Proof.
  intros Hb. induction l as [|x l IH]; [apply steps_ret|].
  apply steps_bind; [apply Hb | intros _; exact IH].
Qed.

Lemma steps_get_pages {A} R (k : gmap string page -> M A) :
  (forall st, rtc R st (state_of (k (pages st) st))) -> steps R (bind get_pages k).
Proof. intros H st. apply H. Qed.

(** *** The compile pass *)

Lemma compile_emit e : compile_event e -> steps compile_step (emit e).
Proof. intros He st. apply rtc_once. now constructor. Qed.

Lemma compile_fatal {A} : steps compile_step (@fatal A).
Proof. intros st. apply rtc_once. now apply (cs_emit EvFatal). Qed.

Lemma compile_write path bytes : steps compile_step (write_file path bytes).
Proof. intros st. apply rtc_once. constructor. Qed.

Lemma compile_insert p :
  parsed_page p -> steps compile_step (insertPage (pageKey (OutPath p)) p).
Proof. intros Hp st. apply rtc_once. now constructor. Qed.

Lemma NewPage_steps E path outPath name :
  steps compile_step (NewPage E path outPath name).
Proof.
  unfold NewPage. apply steps_bind; [now apply compile_emit|]. intros _.
  destruct (read_navigation E); [|apply steps_ret].
  apply steps_bind; [now apply compile_emit|]. intros _.
  destruct (read_static E); apply steps_ret.
Qed.


Lemma steps_bind_with {A B} R (Q : A -> Prop) (m : M A) (k : A -> M B) :
  steps R m ->
  (forall st a st', m st = Done a st' -> Q a) ->
  (forall a, Q a -> steps R (k a)) ->
  steps R (bind m k).
Proof.
  intros Hm HQ Hk st. unfold bind. specialize (Hm st). specialize (HQ st).
  destruct (m st) as [a st'|st']; [|exact Hm].
  etrans; [exact Hm | apply Hk; eauto].
Qed.

Lemma NewPage_fresh E path outPath name st p st' :
  NewPage E path outPath name st = Done (Some p) st' ->
  fresh_page path outPath name p.
Proof.
  unfold NewPage, bind, emit, ret.
  destruct (read_navigation E); [|discriminate].
  destruct (read_static E); [|discriminate].
  intros [= <- _]. repeat split.
Qed.

Lemma copyFile_steps E path outPath data :
  steps compile_step (copyFile E path outPath data).
Proof.
  unfold copyFile. apply steps_bind; [now apply compile_emit|]. intros _.
  destruct data; [|apply compile_fatal].
  apply steps_bind; [now apply compile_emit|]. intros _.
  destruct (create E outPath); [|apply compile_fatal].
  apply steps_bind; [apply compile_write|]. intros _.
  destruct (io_copy E outPath); [apply compile_write | apply compile_fatal].
Qed.

Lemma parseFile_steps E directory parent name data :
  under_content directory ->
  steps compile_step (parseFile E directory parent name data).
Proof.
  intros Hdir. unfold parseFile. cbv zeta.
  apply steps_bind; [now apply compile_emit|]. intros _.
  destruct data as [s|]; [|now apply compile_emit].
  apply (steps_bind_with _
           (fun r => forall p, r = Some p ->
              fresh_page (joinPath directory name)
                         (outPathOf (joinPath directory name))
                         (TrimSuffix name (Ext name)) p)).
  - apply NewPage_steps.
  - intros st r st' Hr p ->. eapply NewPage_fresh, Hr.
  - intros [p|] Hp; [|now apply compile_emit].
    destruct (Hp p eq_refl) as (HPath & HOut & HName & HType & HBack & HCont & HFoot).
    apply (steps_bind_with _ parsed_page).
    + destruct (String.eqb (Ext name) ".html"); [apply steps_ret|].
      destruct (String.eqb (Ext name) ".md"); [apply steps_ret|].
      apply steps_bind; [now apply compile_emit|]. intros _.
      apply steps_bind; [apply copyFile_steps|]. intros _. apply steps_ret.
    + assert (Hpp : forall q, Backlinks q = Backlinks p -> Path q = Path p ->
                OutPath q = OutPath p -> Footer q = Footer p -> parsed_page q).
      { intros q H1 H2 H3 H4. split; congruence. }
      intros st q st'.
      destruct (String.eqb (Ext name) ".html");
        [|destruct (String.eqb (Ext name) ".md")].
      * intros [= <- _]. apply Hpp; destruct (String.eqb (Name p) "index"); reflexivity.
      * intros [= <- _]. apply Hpp; destruct (String.eqb (Name p) "index"); reflexivity.
      * unfold bind, emit. 
        destruct (copyFile E _ _ _ _) as [[] st1|st1]; [|discriminate].
        intros [= <- _]. apply Hpp; destruct (String.eqb (Name p) "index"); reflexivity.
    + intros q Hq. now apply compile_insert.
Qed.

Lemma under_content_root : under_content "content".
Proof. intros name. reflexivity. Qed.

Lemma under_content_join directory name :
  under_content directory -> under_content (joinPath directory name).
Proof.
  intros H x. unfold joinPath in *.
  rewrite append_assoc. apply (H (name +:+ "/" +:+ x)).
Qed.

Lemma parseInode_steps E i : forall directory parent,
  under_content directory ->
  steps compile_step (parseInode E directory parent i).
Proof.
  induction i as [name data|name|name l IH] using inode_ind;
    intros directory parent Hdir.
  - apply parseFile_steps, Hdir.
  - rewrite parseInode_Dir. cbv zeta.
    apply steps_bind; [now apply compile_emit|]. intros _.
    destruct (mkdir_all E _); [|now apply compile_emit].
    apply steps_bind; [now apply compile_emit|]. intros _.
    apply steps_bind; [now apply compile_emit|]. intros _.
    apply compile_fatal.
  - rewrite parseInode_Dir. cbv zeta.
    apply steps_bind; [now apply compile_emit|]. intros _.
    destruct (mkdir_all E _); [|now apply compile_emit].
    apply steps_bind; [now apply compile_emit|]. intros _.
    apply steps_bind; [now apply compile_emit|]. intros _.
    apply steps_bind; [now apply compile_emit|]. intros _.
    induction IH as [|x l Hx _ IHl]; [apply steps_ret|].
    apply steps_bind; [|intros _; exact IHl].
    apply Hx. now apply under_content_join.
Qed.

Lemma parseDirectoryContent_steps E directory parent listing :
  under_content directory ->
  steps compile_step (parseDirectoryContent E directory parent listing).
Proof.
  intros Hdir. unfold parseDirectoryContent.
  apply steps_bind; [now apply compile_emit|]. intros _.
  destruct listing as [l|]; [|apply compile_fatal].
  apply steps_bind; [now apply compile_emit|]. intros _.
  apply steps_forEach. intros x. now apply parseInode_steps.
Qed.

Lemma outPathOf_public path : HasPrefix (outPathOf path) "public" = true.
Proof. reflexivity. Qed.

Lemma registry_parsed_wf m : registry_parsed m -> registry_wf m.
Proof.
  intros H k p Hk. destruct (H k p Hk) as [Hp ->]. split; [reflexivity|].
  rewrite (pp_outPath _ Hp). apply outPathOf_public.
Qed.

Lemma registry_parsed_paths m : registry_parsed m -> registry_paths m.
Proof. intros H k p Hk. destruct (H k p Hk) as [Hp _]. apply Hp. Qed.

Lemma registry_parsed_empty : registry_parsed ∅.
Proof. intros k p Hk. now rewrite lookup_empty in Hk. Qed.

Lemma compile_steps_registry st st' :
  rtc compile_step st st' ->
  registry_parsed (pages st) -> registry_parsed (pages st').
Proof.
  induction 1 as [|st st1 st' Hstep _ IH]; [auto|]. intros Hm. apply IH.
  destruct Hstep as [e st _|p st Hp|path bytes st]; cbn [pages]; [exact Hm| |exact Hm].
  intros k q. rewrite lookup_insert. case_decide as Hk.
  - intros [= <-]. now subst k.
  - apply Hm.
Qed.

Lemma compile_steps_trace st st' :
  rtc compile_step st st' ->
  exists t, trace st' = t ++ trace st /\ Forall compile_trace_event t.
Proof.
  induction 1 as [st|st st1 st' Hstep _ (t & Ht & HF)].
  - exists []. split; [reflexivity | constructor].
  - destruct Hstep as [e st He|p st Hp|path bytes st]; cbn [trace] in Ht.
    + exists (t ++ [e]). split; [now rewrite <- app_assoc|].
      apply Forall_app. split; [exact HF|]. constructor; [|constructor].
      destruct e; try exact I; destruct He.
    + exists (t ++ [EvInsert (pageKey (OutPath p))]).
      split; [now rewrite <- app_assoc|].
      apply Forall_app. split; [exact HF|]. constructor; [exact I|constructor].
    + exists t. now split.
Qed.

(** *** The backlink pass and the render pass *)

Lemma later_steps_registry st st' :
  rtc later_step st st' ->
  (registry_paths (pages st) -> registry_paths (pages st'))
  /\ (registry_wf (pages st) -> registry_wf (pages st'))
  /\ (forall k, is_Some (pages st' !! k) <-> is_Some (pages st !! k)).
Proof.
  induction 1 as [st|st st1 st' Hstep _ (IH1 & IH2 & IH3)]; [tauto|].
  destruct Hstep as [e st _|f j st Hf|path bytes st]; cbn [pages] in *; [tauto| |tauto].
  split; [|split].
  - intros Hm. apply IH1. intros k p. rewrite lookup_alter.
    case_decide as Hk; [subst k|apply Hm].
    destruct (pages st !! j) as [q|] eqn:Hq; [|discriminate]. intros [= <-].
    destruct (Hf q) as (-> & _). now apply (Hm j).
  - intros Hm. apply IH2. intros k p. rewrite lookup_alter.
    case_decide as Hk; [subst k|apply Hm].
    destruct (pages st !! j) as [q|] eqn:Hq; [|discriminate]. intros [= <-].
    destruct (Hf q) as (_ & -> & _). now apply (Hm j).
  - intros k. rewrite IH3, lookup_alter. case_decide; [subst k|tauto].
    now rewrite fmap_is_Some.
Qed.

Lemma later_trace_event_dom m m' e :
  (forall k, is_Some (m' !! k) <-> is_Some (m !! k)) ->
  later_trace_event m' e -> later_trace_event m e.
Proof. intros H. destruct e; cbn; auto. apply H. Qed.

Lemma later_steps_trace st st' :
  rtc later_step st st' ->
  registry_paths (pages st) ->
  exists t, trace st' = t ++ trace st /\ Forall (later_trace_event (pages st)) t.
Proof.
  induction 1 as [st|st st1 st' Hstep Hrest IH]; intros Hm.
  - exists []. split; [reflexivity | constructor].
  - destruct (later_steps_registry st st1) as (Hp1 & _ & Hdom); [now apply rtc_once|].
    destruct IH as (t & Ht & HF); [auto|].
    assert (HF' : Forall (later_trace_event (pages st)) t).
    { eapply Forall_impl; [exact HF|]. intros e. now apply later_trace_event_dom. }
    clear HF Hdom Hp1.
    destruct Hstep as [e st He|f j st Hf|path bytes st]; cbn [trace pages] in *.
    + exists (t ++ [e]). split; [now rewrite <- app_assoc|].
      apply Forall_app. split; [exact HF'|]. constructor; [|constructor].
      destruct e; cbn in He |- *; try exact I; try contradiction; try exact He.
      destruct He as (k & p & Hp & <-). now apply (Hm k).
    + exists t. now split.
    + exists t. now split.
Qed.

Lemma later_emit e :
  (forall m, later_event m e) -> steps later_step (emit e).
Proof. intros He st. apply rtc_once. constructor. apply He. Qed.

Lemma later_write path bytes : steps later_step (write_file path bytes).
Proof. intros st. apply rtc_once. constructor. Qed.

Lemma addBacklink_keeps from name : keeps_identity (addBacklink from name).
Proof. intros p. repeat split. Qed.

Lemma set_Footer_keeps v : keeps_identity (set_Footer v).
Proof. intros p. repeat split. Qed.

Lemma recordBacklink_steps target from name st :
  is_Some (pages st !! target) ->
  rtc later_step st (state_of (recordBacklink target from name st)).
Proof.
  intros Ht. eapply rtc_l; [apply (ls_alter (addBacklink from name) target)|].
  { apply addBacklink_keeps. }
  apply rtc_once.
  refine (ls_emit (EvBacklink target from name)
           (mkState (alter (addBacklink from name) target (pages st)) (disk st) (trace st)) _).
  cbn. rewrite lookup_alter_eq. now apply fmap_is_Some.
Qed.

Lemma resolveLink_steps key link : steps later_step (resolveLink key link).
Proof.
  unfold resolveLink. apply steps_get_pages. intros st.
  destruct (pages st !! key) as [page|]; [|apply rtc_refl].
  unfold bind, emit. cbn [pages].
  refine (rtc_l _ _ _ _
            (ls_emit (EvLog "[gen/parse/backlinks] found link" [OutPath page; link]) st I) _).
  destruct (pages st !! ("public" +:+ link)) as [t1|] eqn:H1.
  { refine (recordBacklink_steps _ _ _ (mkState _ _ _) _). cbn. now rewrite H1. }
  destruct (pages st !! ("public" +:+ link +:+ "/index.html")) as [t2|] eqn:H2.
  { refine (recordBacklink_steps _ _ _ (mkState _ _ _) _). cbn. now rewrite H2. }
  apply rtc_once. refine (ls_emit (EvLog _ _) (mkState _ _ _) I).
Qed.

Lemma resolvePage_steps E key : steps later_step (resolvePage E key).
Proof.
  unfold resolvePage. apply steps_get_pages. intros st.
  destruct (pages st !! key) as [page|]; [|apply rtc_refl].
  destruct (negb (String.eqb (Type_ page) "")); [|apply rtc_refl].
  apply steps_bind; [now apply later_emit|]. intros _.
  apply steps_forEach. intros l. apply resolveLink_steps.
Qed.

Lemma renderTo_steps E template p : steps later_step (renderTo E template p).
Proof.
  unfold renderTo. apply steps_bind; [now apply later_emit|]. intros _.
  destruct (create E (OutPath p)); [|now apply later_emit].
  apply steps_bind; [apply later_write|]. intros _.
  apply steps_bind; [apply later_write|]. intros _.
  destruct (snd (execute E template p)); now apply later_emit.
Qed.

Lemma Render_steps E key : steps later_step (Render E key).
Proof.
  unfold Render. apply steps_get_pages. intros st.
  destruct (pages st !! key) as [p|] eqn:Hp; [|apply rtc_refl].
  cbv zeta. unfold bind at 1, put_pages.
  eapply rtc_l; [apply (ls_alter (set_Footer (fst (execute E "template/footer.html" p))) key);
                 apply set_Footer_keeps|].
  set (st1 := mkState _ _ _).
  destruct (String.eqb (Type_ _) "HTML").
  - unfold renderHtml, bind at 1, emit.
    eapply rtc_l.
    { refine (ls_emit (EvParseFiles (Path (set_Footer (fst (execute E "template/footer.html" p)) p))) st1 _).
      exists key, (set_Footer (fst (execute E "template/footer.html" p)) p).
      split; [|reflexivity]. subst st1. cbn. now rewrite lookup_alter_eq, Hp. }
    destruct (parse_template E _).
    + apply renderTo_steps.
    + apply rtc_once. refine (ls_emit (EvLog _ _) (mkState _ _ _) I).
  - destruct (String.eqb (Type_ _) "MD"); [apply renderTo_steps | apply rtc_refl].
Qed.

Lemma resolveBacklinks_steps E : steps later_step (resolveBacklinks E).
Proof.
  unfold resolveBacklinks. apply steps_get_pages. intros st.
  apply steps_forEach. intros k. apply resolvePage_steps.
Qed.

Lemma renderPages_steps E : steps later_step (renderPages E).
Proof.
  unfold renderPages. apply steps_get_pages. intros st.
  apply steps_forEach. intros k. apply Render_steps.
Qed.

(** *** The phases of [main] *)

Lemma main_phases E disk0 content :
  parse_template E "template/markdown.html" = true ->
  parse_template E "template/footer.html" = true ->
  run E disk0 content =
  match parseDirectoryContent E "content" "Oliver" content
          (mkState ∅ disk0 startup_trace) with
  | Fatal st1 => Fatal st1
  | Done _ st1 =>
      (resolveBacklinks E >>> renderPages E)
        (mkState (pages st1) (disk st1) (EvParsed (size (pages st1)) :: trace st1))
  end.
Proof.
  intros Hmd Hfoot. unfold run, main, initial.
  unfold bind at 1, emit at 1. rewrite Hmd.
  unfold bind at 1, emit at 1. unfold bind at 1, emit at 1. rewrite Hfoot.
  unfold bind at 1, emit at 1. unfold bind at 1. cbn [pages disk trace].
  fold startup_trace.
  destruct (parseDirectoryContent E "content" "Oliver" content _) as [[] st1|st1];
    reflexivity.
Qed.

Lemma compile_steps_inserted st st' :
  rtc compile_step st st' ->
  (forall k, is_Some (pages st !! k) -> EvInsert k ∈ trace st) ->
  forall k, is_Some (pages st' !! k) -> EvInsert k ∈ trace st'.
Proof.
  induction 1 as [|st st1 st' Hstep _ IH]; [auto|]. intros Hm. apply IH.
  destruct Hstep as [e st _|p st Hp|path bytes st]; cbn [pages trace]; [| |exact Hm].
  - intros k Hk. apply elem_of_cons. right. now apply Hm.
  - intros k. rewrite lookup_insert. case_decide as Hk.
    + subst k. intros _. apply elem_of_cons. now left.
    + intros Hk'. apply elem_of_cons. right. now apply Hm.
Qed.

Lemma later_passes_steps E : steps later_step (resolveBacklinks E >>> renderPages E).
Proof.
  apply steps_bind; [apply resolveBacklinks_steps|]. intros _. apply renderPages_steps.
Qed.

(** C1.  In the trace of any run, every insertion into the registry is
    older than every recording of a backlink: the trace splits into the
    events up to the end of the compile pass, none of which records a
    backlink, and the later events, none of which inserts a page; and the
    page a backlink is recorded on was inserted in the first part. *)
Theorem backlinks_recorded_after_compile E disk0 content :
  exists t_later t_compile,
    trace (state_of (run E disk0 content)) = t_later ++ t_compile
    /\ Forall (fun e => ~ is_backlink e) t_compile
    /\ Forall (fun e => ~ is_insert e) t_later
    /\ forall target from name,
         EvBacklink target from name ∈ t_later -> EvInsert target ∈ t_compile.
Proof.
  destruct (parse_template E "template/markdown.html") eqn:Hmd.
  2:{ exists [], (trace (state_of (run E disk0 content))). split; [reflexivity|].
      unfold run, main, bind, emit. rewrite Hmd. cbn.
      repeat split; [|constructor|intros ???; now rewrite elem_of_nil].
      repeat constructor; intros []. }
  destruct (parse_template E "template/footer.html") eqn:Hfoot.
  2:{ exists [], (trace (state_of (run E disk0 content))). split; [reflexivity|].
      unfold run, main, bind, emit. rewrite Hmd, Hfoot. cbn.
      repeat split; [|constructor|intros ???; now rewrite elem_of_nil].
      repeat constructor; intros []. }
  rewrite main_phases by assumption.
  set (st0 := mkState ∅ disk0 startup_trace).
  pose proof (parseDirectoryContent_steps E "content" "Oliver" content
                under_content_root st0) as Hsteps.
  destruct (compile_steps_trace _ _ Hsteps) as (t & Ht & HF).
  pose proof (compile_steps_registry _ _ Hsteps registry_parsed_empty) as Hreg.
  assert (Hins : forall k, is_Some (pages (state_of
             (parseDirectoryContent E "content" "Oliver" content st0)) !! k) ->
             EvInsert k ∈ trace (state_of
             (parseDirectoryContent E "content" "Oliver" content st0))).
  { apply (compile_steps_inserted _ _ Hsteps). intros k [p Hp].
    cbn in Hp. now rewrite lookup_empty in Hp. }
  assert (Hnb : Forall (fun e => ~ is_backlink e) (t ++ trace st0)).
  { apply Forall_app. split.
    - eapply Forall_impl; [exact HF|]. intros [] He; cbn in *; tauto.
    - repeat constructor; intros []. }
  destruct (parseDirectoryContent E "content" "Oliver" content st0) as [[] st1|st1];
    cbn [state_of] in *.
  - set (st2 := mkState (pages st1) (disk st1) (EvParsed (size (pages st1)) :: trace st1)).
    destruct (later_steps_trace _ _ (later_passes_steps E st2)) as (t2 & Ht2 & HF2).
    { now apply registry_parsed_paths. }
    exists t2, (trace st2). split; [exact Ht2|]. split; [|split].
    + cbn. constructor; [intros []|]. now rewrite Ht.
    + eapply Forall_impl; [exact HF2|]. intros [] He; cbn in *; tauto.
    + intros target from name Hin. rewrite Forall_forall in HF2.
      specialize (HF2 _ Hin). cbn in HF2. apply elem_of_cons. right. now apply Hins.
  - exists [], (trace st1). split; [reflexivity|]. rewrite Ht.
    repeat split; [exact Hnb|constructor|intros ???; now rewrite elem_of_nil].
Qed.

(** ** The file branch of the walk *)

Example scan_links_cases :
  scan_links O ("<p>" +:+ link_to "blog" +:+ " and " +:+ link_to "a/b.html" +:+ "</p>")
  = ["/blog"; "/a/b.html"]
  /\ scan_links O "<p>plain text</p>" = [].
Proof. split; reflexivity. Qed.


Ltac page_simpl :=
  cbn [pages disk trace Path OutPath Name Type_ Backlinks Content Navigation
       Footer StaticImports set_Name set_Type set_Backlinks set_Content
       set_Navigation set_Footer set_StaticImports] in *.

(** What the file branch does to a readable file whose page can be built:
    one case for each arm of the switch on the extension. *)
Lemma parseFile_html E directory parent name s nav static st :
  read_navigation E = Some nav -> read_static E = Some static ->
  Ext name = ".html" ->
  parseFile E directory parent name (Some s) st =
  Done tt (mkState
    (<[pageKey (outPathOf (joinPath directory name)) :=
         set_Type "HTML" (built_page directory parent name nav static)]> (pages st))
    (disk st)
    (EvInsert (pageKey (outPathOf (joinPath directory name)))
     :: EvReadFile "template/static.html" :: EvReadFile "template/navigation.html"
     :: EvReadFile (joinPath directory name) :: trace st)).
Proof.
  intros Hnav Hstatic Hext.
  assert (He : String.eqb (Ext name) ".html" = true) by now rewrite Hext.
  unfold parseFile, NewPage, bind, emit, ret, insertPage, built_page. cbv zeta.
  rewrite Hnav, Hstatic, He. page_simpl.
  destruct (String.eqb (TrimSuffix name (Ext name)) "index"); reflexivity.
Qed.

Lemma parseFile_md E directory parent name s nav static st :
  read_navigation E = Some nav -> read_static E = Some static ->
  Ext name = ".md" ->
  parseFile E directory parent name (Some s) st =
  Done tt (mkState
    (<[pageKey (outPathOf (joinPath directory name)) :=
         set_Type "MD" (set_Content (markdown2html E s)
                          (built_page directory parent name nav static))]> (pages st))
    (disk st)
    (EvInsert (pageKey (outPathOf (joinPath directory name)))
     :: EvReadFile "template/static.html" :: EvReadFile "template/navigation.html"
     :: EvReadFile (joinPath directory name) :: trace st)).
Proof.
  intros Hnav Hstatic Hext.
  assert (He : String.eqb (Ext name) ".html" = false) by now rewrite Hext.
  assert (He' : String.eqb (Ext name) ".md" = true) by now rewrite Hext.
  unfold parseFile, NewPage, bind, emit, ret, insertPage, built_page. cbv zeta.
  rewrite Hnav, Hstatic, He, He'. page_simpl.
  destruct (String.eqb (TrimSuffix name (Ext name)) "index"); reflexivity.
Qed.

Lemma parseFile_opaque E directory parent name s nav static st :
  read_navigation E = Some nav -> read_static E = Some static ->
  Ext name <> ".html" -> Ext name <> ".md" ->
  create E (outPathOf (joinPath directory name)) = true ->
  io_copy E (outPathOf (joinPath directory name)) = true ->
  parseFile E directory parent name (Some s) st =
  Done tt (mkState
    (<[pageKey (outPathOf (joinPath directory name)) :=
         built_page directory parent name nav static]> (pages st))
    (<[outPathOf (joinPath directory name) := s]>
       (<[outPathOf (joinPath directory name) := ""]> (disk st)))
    (EvInsert (pageKey (outPathOf (joinPath directory name)))
     :: EvCreate (outPathOf (joinPath directory name))
     :: EvOpen (joinPath directory name)
     :: EvLog "[gen/process/file] copying" [joinPath directory name]
     :: EvReadFile "template/static.html" :: EvReadFile "template/navigation.html"
     :: EvReadFile (joinPath directory name) :: trace st)).
Proof.
  intros Hnav Hstatic Hhtml Hmd Hcreate Hcopy.
  apply String.eqb_neq in Hhtml, Hmd.
  unfold parseFile, NewPage, copyFile, bind, emit, ret, insertPage, write_file. cbv zeta.
  unfold built_page.
  rewrite Hnav, Hstatic, Hhtml, Hmd. page_simpl.
  rewrite Hcreate, Hcopy.
  destruct (String.eqb (TrimSuffix name (Ext name)) "index"); reflexivity.
Qed.

Lemma parseFile_copy_fatal E directory parent name s nav static st :
  read_navigation E = Some nav -> read_static E = Some static ->
  Ext name <> ".html" -> Ext name <> ".md" ->
  create E (outPathOf (joinPath directory name)) = false ->
  completes (parseFile E directory parent name (Some s) st) = false.
Proof.
  intros Hnav Hstatic Hhtml Hmd Hcreate.
  apply String.eqb_neq in Hhtml, Hmd.
  unfold parseFile, NewPage, copyFile, bind, emit, ret, fatal. cbv zeta.
  rewrite Hnav, Hstatic, Hhtml, Hmd. cbn [pages disk trace].
  rewrite Hcreate. reflexivity.
Qed.

Lemma parseFile_unreadable E directory parent name st :
  parseFile E directory parent name None st =
  Done tt (mkState (pages st) (disk st)
    (EvLog "[gen/parse/source] unable to read source" [outPathOf (joinPath directory name)]
     :: EvReadFile (joinPath directory name) :: trace st)).
Proof. reflexivity. Qed.

Lemma parseFile_no_navigation E directory parent name s st :
  read_navigation E = None ->
  parseFile E directory parent name (Some s) st =
  Done tt (mkState (pages st) (disk st)
    (EvLog "[gen/page/new] unable to open partial" []
     :: EvReadFile "template/navigation.html"
     :: EvReadFile (joinPath directory name) :: trace st)).
Proof.
  intros Hnav. unfold parseFile, NewPage, bind, emit, ret. cbv zeta.
  rewrite Hnav. reflexivity.
Qed.

Lemma parseFile_no_static E directory parent name s nav st :
  read_navigation E = Some nav -> read_static E = None ->
  parseFile E directory parent name (Some s) st =
  Done tt (mkState (pages st) (disk st)
    (EvLog "[gen/page/new] unable to open partial" []
     :: EvReadFile "template/static.html" :: EvReadFile "template/navigation.html"
     :: EvReadFile (joinPath directory name) :: trace st)).
Proof.
  intros Hnav Hstatic. unfold parseFile, NewPage, bind, emit, ret. cbv zeta.
  rewrite Hnav, Hstatic. reflexivity.
Qed.

(** ** The final renderer *)

(** C10.  [Render] on a page whose type is neither ["HTML"] nor ["MD"]
    returns with the output tree and the trace as they were (no file is
    created or written), and with the registry changed in the [Footer]
    field of that page only. *)
Theorem Render_without_type E key p st :
  pages st !! key = Some p -> Type_ p <> "HTML" -> Type_ p <> "MD" ->
  exists st',
    Render E key st = Done tt st'
    /\ disk st' = disk st /\ trace st' = trace st
    /\ pages st' !! key
       = Some (set_Footer (fst (execute E "template/footer.html" p)) p)
    /\ forall k, k <> key -> pages st' !! k = pages st !! k.
Proof.
  intros Hp Hhtml Hmd. apply String.eqb_neq in Hhtml, Hmd.
  unfold Render, bind, get_pages, put_pages, ret. rewrite Hp. page_simpl.
  rewrite Hhtml, Hmd. eexists. split; [reflexivity|]. page_simpl.
  repeat split.
  - now rewrite lookup_alter_eq, Hp.
  - intros k Hk. now rewrite lookup_alter_ne.
Qed.

Lemma Render_without_type_witness :
  exists st',
    Render sample_env "public/readme.txt" opaque_state = Done tt st'
    /\ disk st' = disk opaque_state /\ trace st' = trace opaque_state
    /\ pages st' !! "public/readme.txt"
       = Some (set_Footer (fst (execute sample_env "template/footer.html" opaque_page))
                          opaque_page)
    /\ forall k, k <> "public/readme.txt" -> pages st' !! k = pages opaque_state !! k.
Proof.
  apply (Render_without_type sample_env "public/readme.txt" opaque_page opaque_state).
  - vm_compute. reflexivity.
  - vm_compute. discriminate.
  - vm_compute. discriminate.
Defined.

(** ** Display names *)

(** C8 as stated fails: [Index.md] has the base name of the index
    document up to case, and its page keeps the name [Index] instead of
    the inherited [Oliver]. *)
Lemma index_name_is_case_sensitive :
  ToLower (TrimSuffix "Index.md" (Ext "Index.md")) = "index"
  /\ Name <$> pages (state_of (parseFile sample_env "content" "Oliver" "Index.md"
                                  (Some "") (initial ∅))) !! "public/index.html"
     = Some "Index".
Proof. split; vm_compute; reflexivity. Qed.

(** C8, amended.  A file that is read and whose page is built is
    registered under the inherited display name when its base name is
    exactly [index], and under its base name otherwise. *)
Theorem index_page_takes_inherited_name E directory parent name s st :
  is_Some (read_navigation E) -> is_Some (read_static E) ->
  (Ext name = ".html" \/ Ext name = ".md"
   \/ (create E (outPathOf (joinPath directory name)) = true
       /\ io_copy E (outPathOf (joinPath directory name)) = true)) ->
  exists st' p,
    parseFile E directory parent name (Some s) st = Done tt st'
    /\ pages st' !! pageKey (outPathOf (joinPath directory name)) = Some p
    /\ Name p = (if String.eqb (TrimSuffix name (Ext name)) "index"
                 then parent else TrimSuffix name (Ext name)).
Proof.
  intros [nav Hnav] [static Hstatic] Hok.
  destruct (String.eqb (Ext name) ".html") eqn:Hhtml.
  { apply String.eqb_eq in Hhtml. do 2 eexists.
    rewrite (parseFile_html _ _ _ _ _ _ _ _ Hnav Hstatic Hhtml).
    split; [reflexivity|]. page_simpl. rewrite lookup_insert_eq. split; reflexivity. }
  destruct (String.eqb (Ext name) ".md") eqn:Hmd.
  { apply String.eqb_eq in Hmd. do 2 eexists.
    rewrite (parseFile_md _ _ _ _ _ _ _ _ Hnav Hstatic Hmd).
    split; [reflexivity|]. page_simpl. rewrite lookup_insert_eq. split; reflexivity. }
  apply String.eqb_neq in Hhtml, Hmd.
  destruct Hok as [?|[?|[Hcreate Hcopy]]]; [contradiction..|].
  do 2 eexists.
  rewrite (parseFile_opaque _ _ _ _ _ _ _ _ Hnav Hstatic Hhtml Hmd Hcreate Hcopy).
  split; [reflexivity|]. page_simpl. rewrite lookup_insert_eq. split; reflexivity.
Qed.

Lemma index_page_takes_inherited_name_witness :
  exists st' p,
    parseFile sample_env "content/blog" "Oliver" "index.md" (Some "") (initial ∅)
    = Done tt st'
    /\ pages st' !! pageKey (outPathOf (joinPath "content/blog" "index.md")) = Some p
    /\ Name p = (if String.eqb (TrimSuffix "index.md" (Ext "index.md")) "index"
                 then "Oliver" else TrimSuffix "index.md" (Ext "index.md")).
Proof.
  apply (index_page_takes_inherited_name sample_env "content/blog" "Oliver"
           "index.md" "" (initial ∅)).
  - vm_compute. eexists. reflexivity.
  - vm_compute. eexists. reflexivity.
  - right. left. vm_compute. reflexivity.
Defined.

(** ** Opaque files *)




(** ** The backlink pass *)

Lemma same_pages_refl m : same_pages m m.
Proof. intros k. reflexivity. Qed.

Lemma same_pages_trans m1 m2 m3 :
  same_pages m1 m2 -> same_pages m2 m3 -> same_pages m1 m3.
Proof. intros H1 H2 k. now rewrite H1. Qed.

Lemma same_pages_alter f k m : keeps_identity f -> same_pages (alter f k m) m.
Proof.
  intros Hf j. rewrite lookup_alter. case_decide as Hj; [subst j|reflexivity].
  destruct (m !! k) as [p|]; [|reflexivity]. cbn. f_equal.
  destruct (Hf p) as (H1 & H2 & H3 & H4 & H5). unfold identity. congruence.
Qed.

Lemma apply_write_same m w : same_pages (apply_write m w) m.
Proof. apply same_pages_alter, addBacklink_keeps. Qed.

Lemma same_pages_is_Some m m' k :
  same_pages m m' -> is_Some (m !! k) <-> is_Some (m' !! k).
Proof.
  intros H. specialize (H k).
  destruct (m !! k), (m' !! k); cbn in H; try discriminate; split; eauto.
  all: intros [? [=]].
Qed.

Lemma linkTarget_same m m' link :
  same_pages m m' -> linkTarget m link = linkTarget m' link.
Proof.
  intros H. unfold linkTarget.
  pose proof (H ("public" +:+ link)) as H1.
  pose proof (H ("public" +:+ link +:+ "/index.html")) as H2.
  destruct (m !! ("public" +:+ link)), (m' !! ("public" +:+ link));
    cbn in H1; try discriminate; [reflexivity|].
  destruct (m !! ("public" +:+ link +:+ "/index.html")),
           (m' !! ("public" +:+ link +:+ "/index.html"));
    cbn in H2; try discriminate; reflexivity.
Qed.

Lemma link_write_same m m' key link :
  same_pages m m' -> link_write m key link = link_write m' key link.
Proof.
  intros H. unfold link_write. rewrite (linkTarget_same m m' link H).
  pose proof (H key) as Hk.
  destruct (m !! key) as [p|], (m' !! key) as [p'|]; cbn in Hk; try discriminate;
    [|reflexivity].
  inversion Hk as [[H0 H1 H2 H3 H4]].
  unfold backlinkKey. now rewrite H1, H2.
Qed.

Lemma omap_pointwise {A B} (f g : A -> option B) (l : list A) :
  (forall x, f x = g x) -> omap f l = omap g l.
Proof.
  intros H. induction l as [|x l IH]; [reflexivity|].
  cbn. rewrite H, IH. reflexivity.
Qed.

Lemma page_writes_same E m m' key :
  same_pages m m' -> page_writes E m key = page_writes E m' key.
Proof.
  intros H. unfold page_writes. pose proof (H key) as Hk.
  destruct (m !! key) as [p|], (m' !! key) as [p'|]; cbn in Hk; try discriminate;
    [|reflexivity].
  inversion Hk as [[H0 H1 H2 H3 H4]].
  rewrite H3, H4. destruct (negb _); [|reflexivity].
  apply omap_pointwise. intros l. now apply link_write_same.
Qed.

(** The program and the functions of the registry agree. *)
Lemma resolveLink_pages key link st :
  exists st', resolveLink key link st = Done tt st'
    /\ disk st' = disk st
    /\ pages st' = match link_write (pages st) key link with
                   | Some w => apply_write (pages st) w
                   | None => pages st
                   end.
Proof.
  unfold resolveLink, link_write, linkTarget, bind, get_pages, emit, recordBacklink, ret.
  destruct (pages st !! key) as [page|]; [|eauto].
  page_simpl.
  destruct (pages st !! ("public" +:+ link)); [eauto|].
  destruct (pages st !! ("public" +:+ link +:+ "/index.html")); eauto.
Qed.

Lemma foldl_link_writes key links : forall m m',
  same_pages m' m ->
  foldl (fun a link => match link_write a key link with
                       | Some w => apply_write a w
                       | None => a
                       end) m' links
  = foldl apply_write m' (omap (link_write m key) links).
Proof.
  induction links as [|l links IH]; intros m m' Hm; [reflexivity|].
  cbn [foldl]. change (omap (link_write m key) (l :: links))
    with (match link_write m key l with
          | Some w => w :: omap (link_write m key) links
          | None => omap (link_write m key) links
          end).
  rewrite (link_write_same m' m key l Hm).
  destruct (link_write m key l) as [w|]; cbn [foldl]; apply IH; [|exact Hm].
  eapply same_pages_trans; [apply apply_write_same | exact Hm].
Qed.

Lemma forEach_resolveLink key links : forall st,
  exists st', forEach (resolveLink key) links st = Done tt st'
    /\ disk st' = disk st
    /\ pages st' = foldl (fun a link => match link_write a key link with
                                        | Some w => apply_write a w
                                        | None => a
                                        end) (pages st) links.
Proof.
  induction links as [|l links IH]; intros st; [now exists st|].
  destruct (resolveLink_pages key l st) as (st1 & H1 & Hd1 & Hp1).
  destruct (IH st1) as (st2 & H2 & Hd2 & Hp2).
  exists st2. cbn [forEach foldl]. unfold bind. rewrite H1, H2.
  split; [reflexivity|]. split; [congruence|]. now rewrite Hp2, Hp1.
Qed.

Lemma resolvePage_pages E key st :
  exists st', resolvePage E key st = Done tt st'
    /\ disk st' = disk st
    /\ pages st' = foldl apply_write (pages st) (page_writes E (pages st) key).
Proof.
  unfold resolvePage, page_writes, bind at 1, get_pages.
  destruct (pages st !! key) as [page|]; [|now exists st].
  destruct (negb (String.eqb (Type_ page) "")); [|now exists st].
  unfold bind, emit.
  destruct (forEach_resolveLink key (find_links E (Content page))
              (mkState (pages st) (disk st)
                 (EvLog "[gen/parse/backlinks] parsing" [OutPath page; key] :: trace st)))
    as (st' & H & Hd & Hp).
  exists st'. split; [exact H|]. split; [exact Hd|].
  rewrite Hp. apply foldl_link_writes, same_pages_refl.
Qed.

Lemma foldl_apply_write_same ws : forall m, same_pages (foldl apply_write m ws) m.
Proof.
  induction ws as [|w ws IH]; intros m; [apply same_pages_refl|].
  cbn [foldl]. eapply same_pages_trans; [apply IH | apply apply_write_same].
Qed.

Lemma forEach_resolvePage E ks : forall m st,
  same_pages (pages st) m ->
  exists st', forEach (resolvePage E) ks st = Done tt st'
    /\ disk st' = disk st
    /\ pages st' = foldl apply_write (pages st) (pass_writes E m ks).
Proof.
  induction ks as [|k ks IH]; intros m st Hm; [now exists st|].
  destruct (resolvePage_pages E k st) as (st1 & H1 & Hd1 & Hp1).
  destruct (IH m st1) as (st2 & H2 & Hd2 & Hp2).
  { rewrite Hp1. eapply same_pages_trans; [apply foldl_apply_write_same | exact Hm]. }
  exists st2. cbn [forEach]. unfold bind. rewrite H1, H2.
  split; [reflexivity|]. split; [congruence|].
  rewrite Hp2, Hp1. unfold pass_writes. rewrite bind_cons, foldl_app.
  now rewrite (page_writes_same E (pages st) m k Hm).
Qed.

Lemma resolveBacklinks_pages E st :
  exists st', resolveBacklinks E st = Done tt st'
    /\ disk st' = disk st
    /\ pages st' = foldl apply_write (pages st)
                     (pass_writes E (pages st) (range_backlinks E (pages st))).
Proof.
  unfold resolveBacklinks, bind, get_pages.
  apply forEach_resolvePage, same_pages_refl.
Qed.

(** *** The order of the writes does not matter *)

Lemma addBacklink_comm f1 n1 f2 n2 p :
  (f1 = f2 -> n1 = n2) ->
  addBacklink f1 n1 (addBacklink f2 n2 p) = addBacklink f2 n2 (addBacklink f1 n1 p).
Proof.
  intros H. unfold addBacklink, set_Backlinks. page_simpl. f_equal.
  destruct (decide (f1 = f2)) as [->|Hne].
  - now rewrite (H eq_refl).
  - now apply insert_insert_ne.
Qed.

Lemma apply_write_comm m w1 w2 :
  (w_from w1 = w_from w2 -> w_name w1 = w_name w2) ->
  apply_write (apply_write m w1) w2 = apply_write (apply_write m w2) w1.
Proof.
  intros H. unfold apply_write.
  destruct (decide (w_target w2 = w_target w1)) as [Heq|Hne].
  - rewrite Heq, !alter_alter_eq. apply alter_ext. intros p _. cbn.
    symmetry. now apply addBacklink_comm.
  - now apply alter_alter_ne.
Qed.

Lemma consistent_cons w ws : consistent (w :: ws) -> consistent ws.
Proof.
  intros H w1 w2 H1 H2 H3.
  apply (H w1 w2); [| |exact H3]; apply elem_of_cons; right; assumption.
Qed.

Lemma consistent_perm ws ws' : ws ≡ₚ ws' -> consistent ws -> consistent ws'.
Proof.
  intros Hp H w1 w2 H1 H2 H3.
  apply (H w1 w2); [now rewrite Hp..|exact H3].
Qed.

Lemma foldl_apply_write_perm ws ws' :
  ws ≡ₚ ws' -> consistent ws ->
  forall m, foldl apply_write m ws = foldl apply_write m ws'.
Proof.
  induction 1 as [|w ws ws' Hp IH|w1 w2 ws|ws1 ws2 ws3 Hp1 IH1 Hp2 IH2];
    intros Hc m.
  - reflexivity.
  - cbn [foldl]. apply IH. eapply consistent_cons, Hc.
  - cbn [foldl]. f_equal. apply apply_write_comm.
    apply (Hc w2 w1); [|apply elem_of_cons; right]; apply elem_of_cons; now left.
  - rewrite IH1 by exact Hc. apply IH2. eapply consistent_perm; eauto.
Qed.

(** A write of a consistent pass shows in the registry at the end. *)
Lemma foldl_apply_write_lookup ws w m p :
  consistent ws -> w ∈ ws -> m !! w_target w = Some p ->
  exists p', foldl apply_write m ws !! w_target w = Some p'
             /\ Backlinks p' !! w_from w = Some (w_name w).
Proof.
  intros Hc Hw Hp.
  apply elem_of_Permutation in Hw as [ws' Hperm].
  assert (Hperm' : ws ≡ₚ ws' ++ [w]).
  { rewrite Hperm. apply Permutation_cons_append. }
  rewrite (foldl_apply_write_perm _ _ Hperm' Hc), foldl_app. cbn [foldl].
  destruct (same_pages_is_Some _ _ (w_target w) (foldl_apply_write_same ws' m))
    as [_ [q Hq]]; [eauto|].
  exists (addBacklink (w_from w) (w_name w) q). unfold apply_write at 1.
  rewrite lookup_alter_eq, Hq. split; [reflexivity|].
  cbn. apply lookup_insert_eq.
Qed.

Lemma Replace_public s :
  HasPrefix s "public" = true -> "public" +:+ Replace s "public" "" 1 = s.
Proof.
  intros [r ->]%HasPrefix_split. unfold Replace.
  change ("public" +:+ r)
    with (String "p" (String "u" (String "b" (String "l" (String "i" (String "c" r)))))).
  cbn. now rewrite Replace_from_done.
Qed.

Lemma backlinkKey_inj p q :
  HasPrefix (OutPath p) "public" = true -> HasPrefix (OutPath q) "public" = true ->
  backlinkKey p = backlinkKey q -> OutPath p = OutPath q.
Proof.
  intros Hp Hq H. unfold backlinkKey in H.
  rewrite <- (Replace_public _ Hp), <- (Replace_public _ Hq). now rewrite H.
Qed.

Lemma page_writes_origin E m key w :
  w ∈ page_writes E m key ->
  exists page, m !! key = Some page
               /\ w_from w = backlinkKey page /\ w_name w = Name page.
Proof.
  unfold page_writes. destruct (m !! key) as [page|] eqn:Hk;
    [|intros H; now apply elem_of_nil in H].
  destruct (negb _); [|intros H; now apply elem_of_nil in H].
  intros (l & _ & Hl)%list_elem_of_omap.
  unfold link_write in Hl. rewrite Hk in Hl.
  destruct (linkTarget m l); [|discriminate]. injection Hl as <-.
  now exists page.
Qed.

Lemma pass_writes_consistent E m ks :
  registry_wf m -> consistent (pass_writes E m ks).
Proof.
  intros Hwf w1 w2 H1 H2 Hfrom. unfold pass_writes in *.
  apply list_elem_of_bind in H1 as (k1 & H1 & _).
  apply list_elem_of_bind in H2 as (k2 & H2 & _).
  apply page_writes_origin in H1 as (p1 & Hp1 & Hf1 & ->).
  apply page_writes_origin in H2 as (p2 & Hp2 & Hf2 & ->).
  destruct (Hwf _ _ Hp1) as [Hk1 Hpub1]. destruct (Hwf _ _ Hp2) as [Hk2 Hpub2].
  assert (Hout : OutPath p1 = OutPath p2).
  { apply backlinkKey_inj; congruence. }
  assert (k1 = k2) by congruence. subst k2.
  congruence.
Qed.

(** The registry the backlink pass ends with does not depend on the
    order in which [range] visits the pages. *)
Lemma pass_order_irrelevant E m ks ks' :
  registry_wf m -> ks ≡ₚ ks' ->
  foldl apply_write m (pass_writes E m ks) = foldl apply_write m (pass_writes E m ks').
Proof.
  intros Hwf Hperm. apply foldl_apply_write_perm.
  - unfold pass_writes. now rewrite Hperm.
  - now apply pass_writes_consistent.
Qed.

(** One link, handled on its own: the fallback to the directory index. *)
Lemma resolveLink_index_fallback key link st page target :
  pages st !! key = Some page ->
  pages st !! ("public" +:+ link) = None ->
  pages st !! ("public" +:+ link +:+ "/index.html") = Some target ->
  resolveLink key link st =
  Done tt (mkState
    (alter (addBacklink (backlinkKey page) (Name page))
           ("public" +:+ link +:+ "/index.html") (pages st))
    (disk st)
    (EvBacklink ("public" +:+ link +:+ "/index.html") (backlinkKey page) (Name page)
     :: EvLog "[gen/parse/backlinks] found link" [OutPath page; link] :: trace st)).
Proof.
  intros Hk H1 H2. unfold resolveLink, bind, get_pages, emit, recordBacklink.
  rewrite Hk, H1, H2. reflexivity.
Qed.

(** C5.  In the backlink pass over a registry left by the compile pass,
    a link of a typed page that has no exact match in the registry and
    whose directory index is registered is resolved to the index page:
    when the pass ends, that page holds the backlink entry of the
    linking page, keyed by its output path without the output root and
    valued by its display name. *)
Theorem index_fallback_records_backlink E st key page link target :
  registry_wf (pages st) ->
  key ∈ range_backlinks E (pages st) ->
  pages st !! key = Some page -> Type_ page <> "" ->
  link ∈ find_links E (Content page) ->
  pages st !! ("public" +:+ link) = None ->
  pages st !! ("public" +:+ link +:+ "/index.html") = Some target ->
  exists st' target',
    resolveBacklinks E st = Done tt st'
    /\ pages st' !! ("public" +:+ link +:+ "/index.html") = Some target'
    /\ Backlinks target' !! Replace (OutPath page) "public" "" 1 = Some (Name page).
Proof.
  intros Hwf Hrange Hk Hty Hlink H1 H2.
  destruct (resolveBacklinks_pages E st) as (st' & Hrun & _ & Hpages).
  set (w := mkWrite ("public" +:+ link +:+ "/index.html") (backlinkKey page) (Name page)).
  assert (Hw : w ∈ pass_writes E (pages st) (range_backlinks E (pages st))).
  { unfold pass_writes. apply list_elem_of_bind. exists key. split; [|exact Hrange].
    unfold page_writes. rewrite Hk.
    apply String.eqb_neq in Hty. rewrite Hty. cbn [negb].
    apply list_elem_of_omap. exists link. split; [exact Hlink|].
    unfold link_write, linkTarget. now rewrite Hk, H1, H2. }
  destruct (foldl_apply_write_lookup _ w (pages st) target
              (pass_writes_consistent E _ _ Hwf) Hw H2) as (target' & Ht & Hb).
  exists st', target'. rewrite Hpages. now split.
Qed.

Lemma blog_compiled_wf : registry_wf (pages blog_compiled).
Proof.
  apply registry_parsed_wf.
  apply (compile_steps_registry (initial ∅)); [|apply registry_parsed_empty].
  apply parseDirectoryContent_steps, under_content_root.
Qed.

Lemma index_fallback_records_backlink_witness :
  exists st' target',
    resolveBacklinks sample_env blog_compiled = Done tt st'
    /\ pages st' !! ("public" +:+ "/blog" +:+ "/index.html") = Some target'
    /\ Backlinks target' !! Replace (OutPath blog_post_page) "public" "" 1
       = Some (Name blog_post_page).
Proof.
  apply (index_fallback_records_backlink sample_env blog_compiled
           "public/blog/post.html" blog_post_page "/blog" blog_index_page).
  - apply blog_compiled_wf.
  - refine (bool_decide_unpack _ _). vm_compute. exact I.
  - vm_compute. reflexivity.
  - vm_compute. discriminate.
  - refine (bool_decide_unpack _ _). vm_compute. exact I.
  - vm_compute. reflexivity.
  - vm_compute. reflexivity.
Defined.

(** ** The compile pass as a list of insertions *)

Lemma makes_inserts_emit e (body : M unit) o :
  makes_inserts body o -> makes_inserts (emit e >>> body) o.
Proof.
  intros H st. unfold bind, emit.
  specialize (H (mkState (pages st) (disk st) (e :: trace st))).
  destruct o; exact H.
Qed.

Lemma makes_inserts_emit_nil e : makes_inserts (emit e) (Some []).
Proof. intros st. eexists. split; reflexivity. Qed.

Lemma makes_inserts_fatal : makes_inserts fatal None.
Proof. intros st. reflexivity. Qed.

Lemma parseFile_inserts E directory parent name data :
  makes_inserts (parseFile E directory parent name data)
                (file_inserts E directory parent name data).
Proof.
  intros st. unfold file_inserts. cbv zeta.
  destruct data as [s|].
  2:{ rewrite parseFile_unreadable. eexists. split; reflexivity. }
  destruct (read_navigation E) as [nav|] eqn:Hnav.
  2:{ rewrite parseFile_no_navigation by assumption. eexists. split; reflexivity. }
  destruct (read_static E) as [static|] eqn:Hstatic.
  2:{ rewrite (parseFile_no_static _ _ _ _ _ nav) by assumption.
      eexists. split; reflexivity. }
  destruct (String.eqb (Ext name) ".html") eqn:Hhtml.
  { apply String.eqb_eq in Hhtml.
    rewrite (parseFile_html _ _ _ _ _ nav static) by assumption.
    eexists. split; reflexivity. }
  destruct (String.eqb (Ext name) ".md") eqn:Hmd.
  { apply String.eqb_eq in Hmd.
    rewrite (parseFile_md _ _ _ _ _ nav static) by assumption.
    eexists. split; reflexivity. }
  apply String.eqb_neq in Hhtml, Hmd.
  destruct (create E _) eqn:Hcreate; [destruct (io_copy E _) eqn:Hcopy|]; cbn [andb].
  - rewrite (parseFile_opaque _ _ _ _ _ nav static) by assumption.
    eexists. split; reflexivity.
  - apply String.eqb_neq in Hhtml, Hmd.
    unfold parseFile, NewPage, copyFile, bind, emit, ret, fatal, write_file. cbv zeta.
    rewrite Hnav, Hstatic, Hhtml, Hmd. page_simpl. rewrite Hcreate. page_simpl.
    rewrite Hcopy. reflexivity.
  - now apply (parseFile_copy_fatal _ _ _ _ _ nav static).
Qed.

Lemma forEach_inserts (body : inode -> M unit) f l :
  Forall (fun x => makes_inserts (body x) (f x)) l ->
  makes_inserts (forEach body l) (gather f l).
Proof.
  induction 1 as [|x l Hx _ IH]; intros st.
  - exists st. split; reflexivity.
  - cbn [forEach gather]. unfold bind. specialize (Hx st).
    destruct (f x) as [a|].
    + destruct Hx as (st1 & -> & Hp1). specialize (IH st1).
      destruct (gather f l) as [b|].
      * destruct IH as (st2 & -> & Hp2). exists st2. split; [reflexivity|].
        now rewrite Hp2, Hp1, foldl_app.
      * exact IH.
    + destruct (body x st); [discriminate | reflexivity].
Qed.

Lemma parseInode_inserts E i : forall directory parent,
  makes_inserts (parseInode E directory parent i)
                (inode_inserts E directory parent i).
Proof.
  induction i as [name data|name|name l IH] using inode_ind;
    intros directory parent.
  - apply parseFile_inserts.
  - rewrite parseInode_Dir. cbv zeta. cbn [inode_inserts].
    apply makes_inserts_emit. destruct (mkdir_all E _).
    + apply makes_inserts_emit. unfold parseDirectoryContent.
      apply makes_inserts_emit, makes_inserts_fatal.
    + apply makes_inserts_emit_nil.
  - rewrite parseInode_Dir. cbv zeta. cbn [inode_inserts].
    apply makes_inserts_emit. destruct (mkdir_all E _).
    + apply makes_inserts_emit. unfold parseDirectoryContent.
      do 2 apply makes_inserts_emit. apply forEach_inserts.
      eapply Forall_impl; [exact IH|]. intros x Hx. apply Hx.
    + apply makes_inserts_emit_nil.
Qed.

Lemma parseDirectoryContent_inserts E directory parent l :
  makes_inserts (parseDirectoryContent E directory parent (Some l))
                (gather (inode_inserts E directory parent) l).
Proof.
  unfold parseDirectoryContent. do 2 apply makes_inserts_emit.
  apply forEach_inserts. apply Forall_forall. intros x _. apply parseInode_inserts.
Qed.

(** *** Insertions under another listing order *)

Scheme tree_perm_min := Minimality for tree_perm Sort Prop
  with listing_perm_min := Minimality for listing_perm Sort Prop.
Combined Scheme tree_listing_perm_ind from tree_perm_min, listing_perm_min.

Lemma same_inserts_refl o : same_inserts o o.
Proof. destruct o; cbn; auto. Qed.

Lemma same_inserts_trans o1 o2 o3 :
  same_inserts o1 o2 -> same_inserts o2 o3 -> same_inserts o1 o3.
Proof.
  destruct o1, o2, o3; cbn; try tauto. intros H1 H2. now rewrite H1.
Qed.

Lemma inserts_perm E :
  (forall i i', tree_perm i i' -> forall directory parent,
     same_inserts (inode_inserts E directory parent i)
                  (inode_inserts E directory parent i'))
  /\ (forall l l', listing_perm l l' -> forall directory parent,
        same_inserts (gather (inode_inserts E directory parent) l)
                     (gather (inode_inserts E directory parent) l')).
Proof.
  apply tree_listing_perm_ind.
  - intros. apply same_inserts_refl.
  - intros. apply same_inserts_refl.
  - intros name l l' _ IH directory parent. cbn [inode_inserts]. cbv zeta.
    destruct (mkdir_all E _); [apply IH | apply same_inserts_refl].
  - intros. apply same_inserts_refl.
  - intros i i' l l' _ IHi _ IHl directory parent. cbn [gather].
    specialize (IHi directory parent). specialize (IHl directory parent).
    destruct (inode_inserts E directory parent i),
             (inode_inserts E directory parent i'); cbn in IHi; try tauto.
    destruct (gather (inode_inserts E directory parent) l),
             (gather (inode_inserts E directory parent) l'); cbn in IHl |- *; try tauto.
    now rewrite IHi, IHl.
  - intros i j l directory parent. cbn [gather].
    destruct (inode_inserts E directory parent i),
             (inode_inserts E directory parent j),
             (gather (inode_inserts E directory parent) l); cbn; try tauto.
    rewrite !app_assoc. apply Permutation_app_tail, Permutation_app_comm.
  - intros l1 l2 l3 _ IH1 _ IH2 directory parent.
    eapply same_inserts_trans; [apply IH1 | apply IH2].
Qed.

Lemma foldl_insert_pair_perm l l' :
  l ≡ₚ l' -> NoDup l.*1 ->
  forall m, foldl insert_pair m l = foldl insert_pair m l'.
Proof.
  induction 1 as [|kp l l' Hp IH|kp1 kp2 l|l1 l2 l3 Hp1 IH1 Hp2 IH2];
    intros Hnd m.
  - reflexivity.
  - cbn [foldl]. apply IH. now apply NoDup_cons in Hnd as [_ ?].
  - cbn [foldl]. f_equal. unfold insert_pair. apply insert_insert_ne.
    cbn in Hnd. apply NoDup_cons in Hnd as [Hnin _].
    intros Heq. apply Hnin. rewrite Heq. apply elem_of_cons. now left.
  - rewrite IH1 by exact Hnd. apply IH2. now rewrite <- Hp1.
Qed.

Lemma file_inserts_keys E directory parent name data l :
  file_inserts E directory parent name data = Some l ->
  l.*1 `sublist_of` [pageKey (outPathOf (joinPath directory name))].
Proof.
  unfold file_inserts. cbv zeta.
  destruct data; [|intros [= <-]; apply sublist_nil_l].
  destruct (read_navigation E); [|intros [= <-]; apply sublist_nil_l].
  destruct (read_static E); [|intros [= <-]; apply sublist_nil_l].
  destruct (String.eqb (Ext name) ".html"); [intros [= <-]; reflexivity|].
  destruct (String.eqb (Ext name) ".md"); [intros [= <-]; reflexivity|].
  destruct (create E _ && io_copy E _); [intros [= <-]; reflexivity|discriminate].
Qed.

Lemma gather_keys (f : inode -> option (list (string * page)))
  (g : inode -> list string) l :
  Forall (fun x => forall r, f x = Some r -> r.*1 `sublist_of` g x) l ->
  forall r, gather f l = Some r -> r.*1 `sublist_of` flat_map g l.
Proof.
  induction 1 as [|x l Hx _ IH]; intros r; cbn [gather flat_map].
  - intros [= <-]. reflexivity.
  - destruct (f x) as [a|]; [|discriminate].
    destruct (gather f l) as [b|]; [|discriminate].
    intros [= <-]. rewrite fmap_app. apply sublist_app; auto.
Qed.

Lemma inode_inserts_keys E i : forall directory parent r,
  inode_inserts E directory parent i = Some r ->
  r.*1 `sublist_of` file_keys directory i.
Proof.
  induction i as [name data|name|name l IH] using inode_ind;
    intros directory parent r; cbn [inode_inserts file_keys]; cbv zeta.
  - apply file_inserts_keys.
  - destruct (mkdir_all E _); [discriminate|]. intros [= <-]. reflexivity.
  - destruct (mkdir_all E _); [|intros [= <-]; apply sublist_nil_l].
    apply gather_keys. eapply Forall_impl; [exact IH|]. intros x Hx. apply Hx.
Qed.

(** *** The render pass keeps the backlinks *)

Lemma renderTo_pages E template p st :
  exists st', renderTo E template p st = Done tt st' /\ pages st' = pages st.
Proof.
  unfold renderTo, bind, emit, write_file.
  destruct (create E (OutPath p)); [|eauto].
  destruct (snd (execute E template p)); eauto.
Qed.

Lemma Render_pages E key st :
  exists st', Render E key st = Done tt st'
    /\ pages st' = match pages st !! key with
                   | Some p => alter (set_Footer (fst (execute E "template/footer.html" p)))
                                     key (pages st)
                   | None => pages st
                   end.
Proof.
  unfold Render, bind at 1, get_pages.
  destruct (pages st !! key) as [p|]; [|now exists st].
  cbv zeta. unfold bind at 1, put_pages.
  set (st1 := mkState _ _ _).
  destruct (String.eqb (Type_ _) "HTML").
  - unfold renderHtml, bind, emit. destruct (parse_template E _).
    + destruct (renderTo_pages E (Path (set_Footer (fst (execute E "template/footer.html" p)) p))
                  (set_Footer (fst (execute E "template/footer.html" p)) p)
                  (mkState (pages st1) (disk st1)
                     (EvParseFiles (Path (set_Footer (fst (execute E "template/footer.html" p)) p))
                      :: trace st1))) as (st' & H & Hp).
      exists st'. split; [exact H|]. now rewrite Hp.
    + eexists. split; reflexivity.
  - destruct (String.eqb (Type_ _) "MD").
    + destruct (renderTo_pages E "template/markdown.html"
                  (set_Footer (fst (execute E "template/footer.html" p)) p) st1)
        as (st' & H & Hp).
      exists st'. split; [exact H|]. now rewrite Hp.
    + eexists. split; reflexivity.
Qed.

Lemma Render_backlinks E key st :
  exists st', Render E key st = Done tt st'
    /\ Backlinks <$> pages st' = Backlinks <$> pages st.
Proof.
  destruct (Render_pages E key st) as (st' & H & Hp). exists st'. split; [exact H|].
  rewrite Hp. destruct (pages st !! key) as [p|] eqn:Hk; [|reflexivity].
  apply map_eq. intros k. rewrite !lookup_fmap, lookup_alter.
  case_decide as Hkk; [subst k|reflexivity]. now rewrite Hk.
Qed.

Lemma forEach_Render_backlinks E ks : forall st,
  exists st', forEach (Render E) ks st = Done tt st'
    /\ Backlinks <$> pages st' = Backlinks <$> pages st.
Proof.
  induction ks as [|k ks IH]; intros st; [now exists st|].
  destruct (Render_backlinks E k st) as (st1 & H1 & Hb1).
  destruct (IH st1) as (st2 & H2 & Hb2).
  exists st2. cbn [forEach]. unfold bind. rewrite H1, H2.
  split; [reflexivity | congruence].
Qed.

(** *** The walk and the writes do not look at the [range] orders *)

Lemma gather_pointwise {A B} (f g : A -> option (list B)) l :
  Forall (fun x => f x = g x) l -> gather f l = gather g l.
Proof.
  induction 1 as [|x l Hx _ IH]; [reflexivity|].
  cbn [gather]. now rewrite Hx, IH.
Qed.

Lemma inode_inserts_ranges rb rr E i : forall directory parent,
  inode_inserts (with_ranges rb rr E) directory parent i
  = inode_inserts E directory parent i.
Proof.
  induction i as [name data|name|name l IH] using inode_ind;
    intros directory parent; [reflexivity..|].
  cbn [inode_inserts]. cbv zeta.
  change (mkdir_all (with_ranges rb rr E)) with (mkdir_all E).
  destruct (mkdir_all E _); [|reflexivity].
  apply gather_pointwise. eapply Forall_impl; [exact IH|]. intros x Hx. apply Hx.
Qed.

Lemma pass_writes_ranges rb rr E m ks :
  pass_writes (with_ranges rb rr E) m ks = pass_writes E m ks.
Proof. reflexivity. Qed.

Lemma range_valid_perm r r' m : range_valid r -> range_valid r' -> r m ≡ₚ r' m.
Proof. intros H H'. now rewrite (H m), (H' m). Qed.

(** The backlinks at the end of a run whose templates parse and whose
    walk makes the insertions [ins]. *)
Lemma run_final_backlinks E disk0 l ins :
  parse_template E "template/markdown.html" = true ->
  parse_template E "template/footer.html" = true ->
  gather (inode_inserts E "content" "Oliver") l = Some ins ->
  final_backlinks (run E disk0 (Some l))
  = Some (Backlinks <$>
            foldl apply_write (foldl insert_pair ∅ ins)
              (pass_writes E (foldl insert_pair ∅ ins)
                 (range_backlinks E (foldl insert_pair ∅ ins)))).
Proof.
  intros Hmd Hfoot Hins. rewrite main_phases by assumption.
  pose proof (parseDirectoryContent_inserts E "content" "Oliver" l
                (mkState ∅ disk0 startup_trace)) as Hparse.
  rewrite Hins in Hparse. destruct Hparse as (st1 & -> & Hp1). cbn [pages] in Hp1.
  unfold bind.
  destruct (resolveBacklinks_pages E
              (mkState (pages st1) (disk st1) (EvParsed (size (pages st1)) :: trace st1)))
    as (st2 & -> & _ & Hp2). cbn [pages] in Hp2.
  unfold renderPages, bind, get_pages.
  destruct (forEach_Render_backlinks E (range_render E (pages st2)) st2)
    as (st3 & -> & Hb3).
  cbn [final_backlinks]. rewrite Hb3, Hp2, Hp1. reflexivity.
Qed.

Lemma run_final_fatal E disk0 l :
  parse_template E "template/markdown.html" = true ->
  parse_template E "template/footer.html" = true ->
  gather (inode_inserts E "content" "Oliver") l = None ->
  final_backlinks (run E disk0 (Some l)) = None.
Proof.
  intros Hmd Hfoot Hins. rewrite main_phases by assumption.
  pose proof (parseDirectoryContent_inserts E "content" "Oliver" l
                (mkState ∅ disk0 startup_trace)) as Hparse.
  rewrite Hins in Hparse.
  destruct (parseDirectoryContent E _ _ _ _); [discriminate | reflexivity].
Qed.

Lemma run_final_no_template E disk0 content :
  parse_template E "template/markdown.html" && parse_template E "template/footer.html"
  = false ->
  final_backlinks (run E disk0 content) = Some ∅.
Proof.
  intros H. unfold run, main, bind, emit, initial. cbn [pages disk trace].
  destruct (parse_template E "template/markdown.html"); [cbn in H; rewrite H|];
    cbn [final_backlinks pages]; now rewrite fmap_empty.
Qed.

Lemma inserts_registry_wf E l ins :
  gather (inode_inserts E "content" "Oliver") l = Some ins ->
  registry_wf (foldl insert_pair ∅ ins).
Proof.
  intros Hins.
  pose proof (parseDirectoryContent_inserts E "content" "Oliver" l (initial ∅)) as Hparse.
  rewrite Hins in Hparse. destruct Hparse as (st1 & Hrun & Hp1). cbn [pages initial] in Hp1.
  rewrite <- Hp1. apply registry_parsed_wf.
  apply (compile_steps_registry (initial ∅)); [|apply registry_parsed_empty].
  pose proof (parseDirectoryContent_steps E "content" "Oliver" (Some l)
                under_content_root (initial ∅)) as Hsteps.
  now rewrite Hrun in Hsteps.
Qed.



Lemma range_valid_keys_of : range_valid keys_of.
Proof. intros m. reflexivity. Qed.

Lemma range_valid_keys_reversed : range_valid keys_reversed.
Proof. intros m. apply reverse_Permutation. Qed.


Example content_pair_backlinks :
  final_backlinks_of (run sample_env ∅ (Some content_pair)) "public/index.html"
  = Some {["/post.html" := "post"]}.
Proof. vm_compute. reflexivity. Qed.

(** ** The shared templates *)

Lemma occurrences_app f t1 t2 :
  occurrences f (t1 ++ t2) = occurrences f t1 + occurrences f t2.
Proof. induction t1 as [|e t1 IH]; [reflexivity|]. cbn. rewrite IH. lia. Qed.

Lemma occurrences_none f t :
  Forall (fun e => f e = false) t -> occurrences f t = 0.
Proof. induction 1 as [|e t He _ IH]; [reflexivity|]. cbn. now rewrite He, IH. Qed.

Lemma HasPrefix_eqb_false path other :
  HasPrefix path "content/" = true -> HasPrefix other "content/" = false ->
  String.eqb path other = false.
Proof.
  intros H1 H2. apply String.eqb_neq. intros ->. congruence.
Qed.

(** The trace of a run whose two templates parse: the start of [main],
    the compile pass, and the two later passes. *)
Lemma run_trace E disk0 content :
  parse_template E "template/markdown.html" = true ->
  parse_template E "template/footer.html" = true ->
  exists t_later t_compile m,
    trace (state_of (run E disk0 content)) = t_later ++ t_compile ++ startup_trace
    /\ Forall (fun e => compile_trace_event e \/ exists n, e = EvParsed n) t_compile
    /\ Forall (later_trace_event m) t_later.
Proof.
  intros Hmd Hfoot. rewrite main_phases by assumption.
  set (st0 := mkState ∅ disk0 startup_trace).
  pose proof (parseDirectoryContent_steps E "content" "Oliver" content
                under_content_root st0) as Hsteps.
  destruct (compile_steps_trace _ _ Hsteps) as (t & Ht & HF).
  pose proof (compile_steps_registry _ _ Hsteps registry_parsed_empty) as Hreg.
  assert (HF' : Forall (fun e => compile_trace_event e \/ exists n, e = EvParsed n) t).
  { eapply Forall_impl; [exact HF|]. intros e He. now left. }
  destruct (parseDirectoryContent E "content" "Oliver" content st0) as [[] st1|st1];
    cbn [state_of] in *.
  - set (st2 := mkState (pages st1) (disk st1) (EvParsed (size (pages st1)) :: trace st1)).
    destruct (later_steps_trace _ _ (later_passes_steps E st2)) as (t2 & Ht2 & HF2).
    { now apply registry_parsed_paths. }
    exists t2, (EvParsed (size (pages st1)) :: t), (pages st2).
    split; [|split; [|exact HF2]].
    + rewrite Ht2. cbn [trace st2]. now rewrite Ht.
    + constructor; [right; eauto | exact HF'].
  - exists [], t, ∅. split; [exact Ht|]. split; [exact HF'|constructor].
Qed.

Lemma occurrences_parse_later path m t :
  HasPrefix path "content/" = false ->
  Forall (later_trace_event m) t -> occurrences (is_parse path) t = 0.
Proof.
  intros Hpath HF. apply occurrences_none.
  eapply Forall_impl; [exact HF|]. intros [] He; cbn in *; try reflexivity.
  now apply HasPrefix_eqb_false.
Qed.

Lemma occurrences_parse_compile path t :
  Forall (fun e => compile_trace_event e \/ exists n, e = EvParsed n) t ->
  occurrences (is_parse path) t = 0.
Proof.
  intros HF. apply occurrences_none.
  eapply Forall_impl; [exact HF|]. intros [] [He|[k He]]; cbn in *;
    try reflexivity; try contradiction; discriminate.
Qed.

(** C7 as stated fails for the navigation and static-asset fragments:
    without the navigation fragment the run is not ended at startup (it
    completes, and the source file [post.md] is read), and with it the
    fragment is read once for each of the two files of the tree. *)
Lemma partials_are_read_for_every_file :
  completes (run sample_env_without_navigation ∅ (Some content_pair)) = true
  /\ occurrences (is_read "content/post.md")
       (trace (state_of (run sample_env_without_navigation ∅ (Some content_pair)))) = 1
  /\ occurrences (is_read "template/navigation.html")
       (trace (state_of (run sample_env ∅ (Some content_pair)))) = 2.
Proof. repeat split; vm_compute; reflexivity. Qed.

(** C7, amended.  The markdown layout and the footer template are
    parsed at the start of [main] and nowhere else: in the trace of any
    run the layout is parsed exactly once, and the footer once if the
    layout parsed; when one of the two does not parse, the run ends at
    once with an empty registry, the output tree as it was, and no event
    of the walk or of the later passes.  The navigation and static
    fragments are read anew for every file that is read, and a file
    whose fragment cannot be read is skipped, with the registry and the
    output tree as they were. *)
Theorem templates_parsed_once_partials_per_file E disk0 content :
  occurrences (is_parse "template/markdown.html")
    (trace (state_of (run E disk0 content))) = 1
  /\ occurrences (is_parse "template/footer.html")
       (trace (state_of (run E disk0 content)))
     = (if parse_template E "template/markdown.html" then 1 else 0)
  /\ (if parse_template E "template/markdown.html"
         && parse_template E "template/footer.html"
      then True
      else completes (run E disk0 content) = true
           /\ pages (state_of (run E disk0 content)) = ∅
           /\ disk (state_of (run E disk0 content)) = disk0
           /\ occurrences is_processing (trace (state_of (run E disk0 content))) = 0)
  /\ (forall directory parent name s st,
        (under_content directory ->
         occurrences (is_read "template/navigation.html")
           (trace (state_of (parseFile E directory parent name (Some s) st)))
         = 1 + occurrences (is_read "template/navigation.html") (trace st))
        /\ match read_navigation E, read_static E with
           | Some _, Some _ => True
           | _, _ =>
               completes (parseFile E directory parent name (Some s) st) = true
               /\ pages (state_of (parseFile E directory parent name (Some s) st))
                  = pages st
               /\ disk (state_of (parseFile E directory parent name (Some s) st))
                  = disk st
           end).
Proof.
  split; [|split; [|split]].
  - destruct (parse_template E "template/markdown.html") eqn:Hmd.
    2:{ unfold run, main, bind, emit. rewrite Hmd. reflexivity. }
    destruct (parse_template E "template/footer.html") eqn:Hfoot.
    2:{ unfold run, main, bind, emit. rewrite Hmd, Hfoot. reflexivity. }
    destruct (run_trace E disk0 content Hmd Hfoot) as (t2 & t1 & m & -> & H1 & H2).
    rewrite !occurrences_app, (occurrences_parse_later _ m t2),
      (occurrences_parse_compile _ t1); auto.
  - destruct (parse_template E "template/markdown.html") eqn:Hmd.
    2:{ unfold run, main, bind, emit. rewrite Hmd. reflexivity. }
    destruct (parse_template E "template/footer.html") eqn:Hfoot.
    2:{ unfold run, main, bind, emit. rewrite Hmd, Hfoot. reflexivity. }
    destruct (run_trace E disk0 content Hmd Hfoot) as (t2 & t1 & m & -> & H1 & H2).
    rewrite !occurrences_app, (occurrences_parse_later _ m t2),
      (occurrences_parse_compile _ t1); auto.
  - destruct (parse_template E "template/markdown.html") eqn:Hmd.
    2:{ unfold run, main, bind, emit. rewrite Hmd. cbn. auto. }
    destruct (parse_template E "template/footer.html") eqn:Hfoot; [exact I|].
    unfold run, main, bind, emit. rewrite Hmd, Hfoot. cbn. auto.
  - intros directory parent name s st. split.
    + intros Hdir.
      assert (Hne : String.eqb (joinPath directory name) "template/navigation.html"
                    = false).
      { apply HasPrefix_eqb_false; [apply Hdir | reflexivity]. }
      unfold parseFile, NewPage, copyFile, bind, emit, ret, insertPage, fatal, write_file.
      cbv zeta.
      destruct (read_navigation E);
        [|cbn [state_of trace occurrences is_read]; now rewrite Hne].
      destruct (read_static E);
        [|cbn [state_of trace occurrences is_read]; now rewrite Hne].
      destruct (String.eqb (Ext name) ".html");
        [cbn [state_of trace occurrences is_read]; now rewrite Hne|].
      destruct (String.eqb (Ext name) ".md");
        [cbn [state_of trace occurrences is_read]; now rewrite Hne|].
      page_simpl. destruct (create E _);
        [|cbn [state_of trace occurrences is_read]; now rewrite Hne].
      page_simpl.
      destruct (io_copy E _); cbn [state_of trace occurrences is_read]; now rewrite Hne.
    + destruct (read_navigation E) as [nav|] eqn:Hnav.
      * destruct (read_static E) eqn:Hstatic; [exact I|].
        rewrite (parseFile_no_static _ _ _ _ _ nav) by assumption. now cbn.
      * rewrite parseFile_no_navigation by assumption. now cbn.
Qed.

(** ** Failures *)

Lemma later_steps_trace_ext st st' :
  rtc later_step st st' -> exists t, trace st' = t ++ trace st.
Proof.
  induction 1 as [st|st st1 st' Hstep _ (t & Ht)]; [now exists []|].
  destruct Hstep as [e st _|f j st _|path bytes st]; cbn [trace] in Ht.
  - exists (t ++ [e]). now rewrite <- app_assoc.
  - now exists t.
  - now exists t.
Qed.

Lemma forEach_unreadable E directory parent name l1 l2 st :
  forEach (parseInode E directory parent) (l1 ++ File name None :: l2) st
  = (forEach (parseInode E directory parent) l1 >>>
     emit (EvReadFile (joinPath directory name)) >>>
     emit (EvLog "[gen/parse/source] unable to read source"
                 [outPathOf (joinPath directory name)]) >>>
     forEach (parseInode E directory parent) l2) st.
Proof.
  rewrite forEach_app. unfold bind.
  destruct (forEach (parseInode E directory parent) l1 st) as [[] st1|st1];
    reflexivity.
Qed.

Lemma renderTo_disk E template p st :
  exists st', renderTo E template p st = Done tt st'
    /\ forall path, OutPath p <> path -> disk st' !! path = disk st !! path.
Proof.
  unfold renderTo, bind, emit, write_file. page_simpl.
  destruct (create E (OutPath p)); [|eauto].
  destruct (snd (execute E template p)); eexists; (split; [reflexivity|]);
    intros path Hne; page_simpl; now rewrite !lookup_insert_ne.
Qed.

Lemma Render_disk E key st :
  exists st', Render E key st = Done tt st'
    /\ forall path, (forall p, pages st !! key = Some p -> OutPath p <> path) ->
                    disk st' !! path = disk st !! path.
Proof.
  unfold Render, bind at 1, get_pages.
  destruct (pages st !! key) as [p|]; [|now exists st].
  cbv zeta. unfold bind at 1, put_pages.
  set (q := set_Footer (fst (execute E "template/footer.html" p)) p).
  set (st1 := mkState _ _ _).
  assert (Hframe : forall template,
    exists st', renderTo E template q st1 = Done tt st'
      /\ forall path, (forall p0, Some p = Some p0 -> OutPath p0 <> path) ->
                      disk st' !! path = disk st !! path).
  { intros template. destruct (renderTo_disk E template q st1) as (st' & H & Hd).
    exists st'. split; [exact H|]. intros path Hne. apply Hd.
    exact (Hne p eq_refl). }
  destruct (String.eqb (Type_ q) "HTML").
  - unfold renderHtml, bind, emit. destruct (parse_template E (Path q)).
    + destruct (renderTo_disk E (Path q) q
                  (mkState (pages st1) (disk st1) (EvParseFiles (Path q) :: trace st1)))
        as (st' & H & Hd).
      exists st'. split; [exact H|]. intros path Hne. apply Hd.
      exact (Hne p eq_refl).
    + eexists. split; reflexivity.
  - destruct (String.eqb (Type_ q) "MD"); [apply Hframe|].
    eexists. split; reflexivity.
Qed.

Lemma Render_md_create_fails E key p st :
  pages st !! key = Some p -> Type_ p = "MD" -> create E (OutPath p) = false ->
  Render E key st =
  Done tt (mkState
    (alter (set_Footer (fst (execute E "template/footer.html" p))) key (pages st))
    (disk st)
    (EvLog "[gen/render/file] unable to create file" [OutPath p]
     :: EvCreate (OutPath p) :: trace st)).
Proof.
  intros Hp Hty Hcreate.
  unfold Render, renderMd, renderTo, bind, get_pages, put_pages, emit.
  rewrite Hp. page_simpl. rewrite Hty, Hcreate. reflexivity.
Qed.

Lemma Render_html_parse_fails E key p st :
  pages st !! key = Some p -> Type_ p = "HTML" -> parse_template E (Path p) = false ->
  Render E key st =
  Done tt (mkState
    (alter (set_Footer (fst (execute E "template/footer.html" p))) key (pages st))
    (disk st)
    (EvLog "[gen/render/dir] unable to open source file" []
     :: EvParseFiles (Path p) :: trace st)).
Proof.
  intros Hp Hty Hparse.
  unfold Render, renderHtml, bind, get_pages, put_pages, emit.
  rewrite Hp. page_simpl. rewrite Hty, Hparse. reflexivity.
Qed.

Lemma Render_md_execute_fails E key p st :
  pages st !! key = Some p -> Type_ p = "MD" -> create E (OutPath p) = true ->
  snd (execute E "template/markdown.html"
         (set_Footer (fst (execute E "template/footer.html" p)) p)) = false ->
  Render E key st =
  Done tt (mkState
    (alter (set_Footer (fst (execute E "template/footer.html" p))) key (pages st))
    (<[OutPath p :=
         fst (execute E "template/markdown.html"
                (set_Footer (fst (execute E "template/footer.html" p)) p))]>
       (<[OutPath p := ""]> (disk st)))
    (EvLog "[gen/render/file] unable to render to file" [OutPath p]
     :: EvCreate (OutPath p) :: trace st)).
Proof.
  intros Hp Hty Hcreate Hexec.
  unfold Render, renderMd, renderTo, bind, get_pages, put_pages, emit, write_file.
  rewrite Hp. page_simpl. rewrite Hty, Hcreate. page_simpl. rewrite Hexec. reflexivity.
Qed.

Lemma Render_visits E key p st :
  pages st !! key = Some p ->
  exists st', Render E key st = Done tt st' /\ visited p (trace st').
Proof.
  intros Hp. unfold Render, bind at 1, get_pages. rewrite Hp.
  cbv zeta. unfold bind at 1, put_pages.
  set (q := set_Footer (fst (execute E "template/footer.html" p)) p).
  set (st1 := mkState _ _ _).
  change (Type_ q) with (Type_ p).
  destruct (String.eqb (Type_ p) "HTML") eqn:Hhtml.
  - apply String.eqb_eq in Hhtml.
    unfold renderHtml, bind at 1, emit at 1.
    set (st2 := mkState (pages st1) (disk st1) (EvParseFiles (Path q) :: trace st1)).
    assert (Hin : forall st' t, trace st' = t ++ trace st2 -> visited p (trace st')).
    { intros st' t Ht. split; [intros Hmd; congruence|]. intros _. rewrite Ht.
      apply elem_of_app. right. apply elem_of_cons. now left. }
    destruct (parse_template E (Path q)).
    + destruct (renderTo_pages E (Path q) q st2) as (st' & H & _).
      exists st'. split; [exact H|].
      pose proof (renderTo_steps E (Path q) q st2) as Hs. rewrite H in Hs.
      destruct (later_steps_trace_ext _ _ Hs) as (t & Ht). now apply (Hin st' t).
    + eexists. split; [reflexivity|].
      now apply (Hin _ [EvLog "[gen/render/dir] unable to open source file" []]).
  - destruct (String.eqb (Type_ p) "MD") eqn:Hmd.
    + unfold renderMd, renderTo, bind at 1, emit.
      set (st2 := mkState (pages st1) (disk st1) (EvCreate (OutPath q) :: trace st1)).
      destruct (create E (OutPath q)).
      * unfold bind, write_file. 
        destruct (snd (execute E "template/markdown.html" q));
          (eexists; split; [reflexivity|]);
          (split; [intros _|intros Hh; rewrite Hh in Hhtml; discriminate]);
          cbn [trace]; apply elem_of_cons; right; apply elem_of_cons; now left.
      * eexists. split; [reflexivity|].
        split; [intros _|intros Hh; rewrite Hh in Hhtml; discriminate].
        cbn [trace]. apply elem_of_cons. right. apply elem_of_cons. now left.
    + exists st1. split; [reflexivity|]. split.
      * intros H. rewrite H in Hmd. discriminate.
      * intros H. rewrite H in Hhtml. discriminate.
Qed.

Lemma visited_ext p t t' : visited p t -> visited p (t' ++ t).
Proof.
  intros [H1 H2]. split; intros H; apply elem_of_app; right; auto.
Qed.

Lemma visited_identity p q t : identity p = identity q -> visited p t -> visited q t.
Proof.
  unfold identity. intros [= H0 H1 H2 H3 H4] [Hmd Hhtml].
  split; intros H; [rewrite <- H1 | rewrite <- H0]; [apply Hmd | apply Hhtml]; congruence.
Qed.

Lemma forEach_Render_visits E ks : forall st,
  exists st', forEach (Render E) ks st = Done tt st'
    /\ (exists t, trace st' = t ++ trace st)
    /\ forall k p, k ∈ ks -> pages st !! k = Some p -> visited p (trace st').
Proof.
  induction ks as [|k ks IH]; intros st.
  { exists st. split; [reflexivity|]. split; [now exists []|].
    intros k p Hk. now apply elem_of_nil in Hk. }
  destruct (Render_pages E k st) as (st1 & H1 & Hp1).
  assert (Hext1 : exists t, trace st1 = t ++ trace st).
  { pose proof (Render_steps E k st) as Hs. rewrite H1 in Hs.
    now apply later_steps_trace_ext. }
  assert (Hsame : same_pages (pages st1) (pages st)).
  { rewrite Hp1. destruct (pages st !! k); [|apply same_pages_refl].
    apply same_pages_alter, set_Footer_keeps. }
  destruct (IH st1) as (st2 & H2 & (t2 & Ht2) & Hvis).
  exists st2. cbn [forEach]. unfold bind. rewrite H1, H2.
  split; [reflexivity|]. split.
  { destruct Hext1 as (t1 & Ht1). exists (t2 ++ t1). now rewrite Ht2, Ht1, app_assoc. }
  intros k' p Hin Hp. apply elem_of_cons in Hin as [Heq|Hin]; [subst k'|].
  - destruct (Render_visits E k p st Hp) as (st1' & H1' & Hv).
    rewrite H1 in H1'. injection H1' as <-.
    rewrite Ht2. now apply visited_ext.
  - pose proof (Hsame k') as Hid. rewrite Hp in Hid.
    destruct (pages st1 !! k') as [p1|] eqn:Hp1'; [|discriminate].
    assert (Hid' : identity p1 = identity p) by (cbn in Hid; congruence).
    apply (visited_identity p1 p); [exact Hid'|]. now apply (Hvis k').
Qed.

Lemma completes_final_backlinks (o : outcome unit) :
  completes o = match final_backlinks o with Some _ => true | None => false end.
Proof. now destruct o. Qed.

Lemma run_completes E disk0 l :
  completes (run E disk0 (Some l))
  = match gather (inode_inserts E "content" "Oliver") l with
    | Some _ => true
    | None => negb (templates_parse E)
    end.
Proof.
  rewrite completes_final_backlinks. unfold templates_parse.
  destruct (parse_template E "template/markdown.html"
            && parse_template E "template/footer.html") eqn:Htpl.
  - apply andb_true_iff in Htpl as [Hmd Hfoot].
    destruct (gather (inode_inserts E "content" "Oliver") l) as [a|] eqn:Ha.
    + now rewrite (run_final_backlinks E disk0 l a).
    + now rewrite run_final_fatal.
  - rewrite run_final_no_template by exact Htpl. now destruct (gather _ l).
Qed.

(** C6 as stated fails for opaque files: when the output file of [a.txt]
    cannot be created the run is ended by [log.Fatal]; [b.md], next in
    the listing, is never read and has no page. *)
Lemma copy_failure_ends_the_run :
  completes (run sample_env_no_create ∅ (Some content_opaque_first)) = false
  /\ occurrences (is_read "content/b.md")
       (trace (state_of (run sample_env_no_create ∅ (Some content_opaque_first)))) = 0
  /\ pages (state_of (run sample_env_no_create ∅ (Some content_opaque_first)))
       !! "public/b.html" = None.
Proof. repeat split; vm_compute; reflexivity. Qed.

(** C6, amended.  A source file that cannot be read is logged and
    skipped, and the entries after it are walked as usual.  [Render]
    always returns: a page whose output file cannot be created, whose
    layout fails in execution, or whose source does not parse as a
    template, is logged and left, and
    no call of [Render] touches an output file other than that of its
    own page; the render pass comes to every page that [range] yields.
    The run is ended before its end only by [log.Fatal] in the walk: a
    directory that cannot be listed, or an opaque file that cannot be
    copied. *)
Theorem failures_are_page_local E :
  (forall directory parent name l1 l2 st,
     forEach (parseInode E directory parent) (l1 ++ File name None :: l2) st
     = (forEach (parseInode E directory parent) l1 >>>
        emit (EvReadFile (joinPath directory name)) >>>
        emit (EvLog "[gen/parse/source] unable to read source"
                    [outPathOf (joinPath directory name)]) >>>
        forEach (parseInode E directory parent) l2) st)
  /\ (forall key st,
        exists st', Render E key st = Done tt st'
          /\ forall path, (forall p, pages st !! key = Some p -> OutPath p <> path) ->
                          disk st' !! path = disk st !! path)
  /\ (forall key p st,
        pages st !! key = Some p -> Type_ p = "MD" -> create E (OutPath p) = false ->
        Render E key st =
        Done tt (mkState
          (alter (set_Footer (fst (execute E "template/footer.html" p))) key (pages st))
          (disk st)
          (EvLog "[gen/render/file] unable to create file" [OutPath p]
           :: EvCreate (OutPath p) :: trace st)))
  /\ (forall key p st,
        pages st !! key = Some p -> Type_ p = "MD" -> create E (OutPath p) = true ->
        snd (execute E "template/markdown.html"
               (set_Footer (fst (execute E "template/footer.html" p)) p)) = false ->
        Render E key st =
        Done tt (mkState
          (alter (set_Footer (fst (execute E "template/footer.html" p))) key (pages st))
          (<[OutPath p :=
               fst (execute E "template/markdown.html"
                      (set_Footer (fst (execute E "template/footer.html" p)) p))]>
             (<[OutPath p := ""]> (disk st)))
          (EvLog "[gen/render/file] unable to render to file" [OutPath p]
           :: EvCreate (OutPath p) :: trace st)))
  /\ (forall key p st,
        pages st !! key = Some p -> Type_ p = "HTML" ->
        parse_template E (Path p) = false ->
        Render E key st =
        Done tt (mkState
          (alter (set_Footer (fst (execute E "template/footer.html" p))) key (pages st))
          (disk st)
          (EvLog "[gen/render/dir] unable to open source file" []
           :: EvParseFiles (Path p) :: trace st)))
  /\ (forall st,
        exists st', renderPages E st = Done tt st'
          /\ forall k p, k ∈ range_render E (pages st) -> pages st !! k = Some p ->
                         visited p (trace st'))
  /\ (forall disk0 l,
        completes (run E disk0 (Some l))
        = match gather (inode_inserts E "content" "Oliver") l with
          | Some _ => true
          | None => negb (templates_parse E)
          end).
Proof.
  split; [|split; [|split; [|split; [|split; [|split]]]]].
  - intros. apply forEach_unreadable.
  - apply Render_disk.
  - apply Render_md_create_fails.
  - apply Render_md_execute_fails.
  - apply Render_html_parse_fails.
  - intros st. unfold renderPages, bind, get_pages.
    destruct (forEach_Render_visits E (range_render E (pages st)) st)
      as (st' & H & _ & Hv).
    exists st'. split; [exact H | exact Hv].
  - apply run_completes.
Qed.

(** * Further properties of the program *)

(** ** What the backlink pass leaves in the registry *)

Lemma foldl_apply_write_stamped ws : forall m k,
  foldl apply_write m ws !! k
  = (fun p => set_Backlinks (stamped ws k (Backlinks p)) p) <$> m !! k.
Proof.
  induction ws as [|w ws IH]; intros m k.
  - cbn. destruct (m !! k) as [[]|]; reflexivity.
  - cbn [foldl]. rewrite IH. unfold apply_write at 1. rewrite lookup_alter.
    unfold stamped. cbn [foldl]. case_decide as Hk.
    + subst k. rewrite String.eqb_refl. destruct (m !! w_target w); reflexivity.
    + apply String.eqb_neq in Hk. rewrite Hk. reflexivity.
Qed.

Lemma stamped_lookup ws k from : forall B,
  stamped ws k B !! from
  = match written ws k from with
    | Some name => Some name
    | None => B !! from
    end.
Proof.
  unfold stamped. induction ws as [|w ws IH]; intros B; [reflexivity|].
  cbn [foldl written]. rewrite IH.
  destruct (written ws k from) as [name|]; [reflexivity|].
  destruct (String.eqb (w_target w) k); cbn [andb]; [|reflexivity].
  destruct (String.eqb (w_from w) from) eqn:Hf.
  - apply String.eqb_eq in Hf as ->. apply lookup_insert_eq.
  - apply String.eqb_neq in Hf. now apply lookup_insert_ne.
Qed.

Lemma written_Some ws k from name :
  written ws k from = Some name ->
  exists w, w ∈ ws /\ w_target w = k /\ w_from w = from /\ w_name w = name.
Proof.
  induction ws as [|w ws IH]; [discriminate|]. cbn [written].
  destruct (written ws k from) as [n|].
  - intros [= <-]. destruct (IH eq_refl) as (w' & Hin & H). exists w'.
    split; [apply elem_of_cons; now right | exact H].
  - destruct (String.eqb (w_target w) k) eqn:Ht; [|discriminate].
    destruct (String.eqb (w_from w) from) eqn:Hf; [|discriminate].
    intros [= <-]. apply String.eqb_eq in Ht, Hf. exists w.
    split; [apply elem_of_cons; now left | auto].
Qed.

Lemma written_None ws k from w :
  written ws k from = None -> w ∈ ws -> w_target w = k -> w_from w <> from.
Proof.
  induction ws as [|w' ws IH]; intros H Hin Ht; [now apply elem_of_nil in Hin|].
  cbn [written] in H. destruct (written ws k from) as [n|] eqn:Hw; [discriminate|].
  apply elem_of_cons in Hin as [->|Hin]; [|now apply IH].
  rewrite Ht, String.eqb_refl in H. cbn [andb] in H.
  destruct (String.eqb (w_from w') from) eqn:Hf; [discriminate|].
  now apply String.eqb_neq.
Qed.

Lemma pass_writes_origin E m ks w :
  w ∈ pass_writes E m ks ->
  exists key page link,
    key ∈ ks /\ links_to E m key page link (w_target w)
    /\ w_from w = backlinkKey page /\ w_name w = Name page.
Proof.
  unfold pass_writes. intros (key & Hw & Hkey)%list_elem_of_bind.
  unfold page_writes in Hw. destruct (m !! key) as [page|] eqn:Hk;
    [|now apply elem_of_nil in Hw].
  destruct (negb (String.eqb (Type_ page) "")) eqn:Hty;
    [|now apply elem_of_nil in Hw].
  apply list_elem_of_omap in Hw as (link & Hlink & Hlw).
  unfold link_write in Hlw. rewrite Hk in Hlw.
  destruct (linkTarget m link) as [target|] eqn:Ht; [|discriminate].
  injection Hlw as <-. exists key, page, link. cbn.
  split; [exact Hkey|]. split; [|split; reflexivity].
  split; [exact Hk|]. split; [|split; assumption].
  intros Heq. rewrite Heq in Hty. discriminate.
Qed.

Lemma links_to_write E m ks key page link target :
  key ∈ ks -> links_to E m key page link target ->
  mkWrite target (backlinkKey page) (Name page) ∈ pass_writes E m ks.
Proof.
  intros Hkey (Hk & Hty & Hlink & Ht). unfold pass_writes.
  apply list_elem_of_bind. exists key. split; [|exact Hkey].
  unfold page_writes. rewrite Hk. apply String.eqb_neq in Hty. rewrite Hty.
  cbn [negb]. apply list_elem_of_omap. exists link. split; [exact Hlink|].
  unfold link_write. now rewrite Hk, Ht.
Qed.

Lemma later_steps_same_pages st st' :
  rtc later_step st st' -> same_pages (pages st') (pages st).
Proof.
  induction 1 as [st|st st1 st' Hstep _ IH]; [apply same_pages_refl|].
  eapply same_pages_trans; [exact IH|].
  destruct Hstep as [e st _|f j st Hf|path bytes st]; cbn [pages];
    [apply same_pages_refl| |apply same_pages_refl].
  now apply same_pages_alter.
Qed.

Lemma linkTarget_is_Some m link target :
  linkTarget m link = Some target -> is_Some (m !! target).
Proof.
  unfold linkTarget.
  destruct (m !! ("public" +:+ link)) eqn:H1; [intros [= <-]; eauto|].
  destruct (m !! ("public" +:+ link +:+ "/index.html")) eqn:H2; [|discriminate].
  intros [= <-]. eauto.
Qed.

Lemma links_to_same E m m' key page link target :
  same_pages m m' -> links_to E m key page link target ->
  exists page', links_to E m' key page' link target
                /\ backlinkKey page' = backlinkKey page /\ Name page' = Name page.
Proof.
  intros Hsame (Hk & Hty & Hlink & Ht).
  pose proof (Hsame key) as Hid. rewrite Hk in Hid.
  destruct (m' !! key) as [page'|] eqn:Hk'; [|discriminate].
  cbn in Hid. inversion Hid as [[H0 H1 H2 H3 H4]].
  exists page'. unfold links_to, backlinkKey. rewrite <- H1, <- H2, <- H3, <- H4.
  rewrite <- (linkTarget_same m m' link Hsame). auto.
Qed.

(** The stages of a run that completes. *)
Lemma run_stages E disk0 content st :
  run E disk0 content = Done tt st ->
  (templates_parse E = false /\ pages st = ∅)
  \/ exists st1 st2,
       templates_parse E = true
       /\ registry_parsed (pages st1)
       /\ pages st2 = foldl apply_write (pages st1)
                        (pass_writes E (pages st1) (range_backlinks E (pages st1)))
       /\ same_pages (pages st) (pages st2)
       /\ Backlinks <$> pages st = Backlinks <$> pages st2.
Proof.
  intros Hrun. unfold templates_parse.
  destruct (parse_template E "template/markdown.html") eqn:Hmd.
  2:{ left. split; [reflexivity|]. revert Hrun.
      unfold run, main, bind, emit. rewrite Hmd. now intros [= <-]. }
  destruct (parse_template E "template/footer.html") eqn:Hfoot.
  2:{ left. split; [reflexivity|]. revert Hrun.
      unfold run, main, bind, emit. rewrite Hmd, Hfoot. now intros [= <-]. }
  right. rewrite main_phases in Hrun by assumption.
  pose proof (parseDirectoryContent_steps E "content" "Oliver" content
                under_content_root (mkState ∅ disk0 startup_trace)) as Hsteps.
  pose proof (compile_steps_registry _ _ Hsteps registry_parsed_empty) as Hreg.
  destruct (parseDirectoryContent E "content" "Oliver" content _) as [[] st1|st1];
    [|discriminate].
  cbn [state_of] in Hreg. unfold bind in Hrun.
  destruct (resolveBacklinks_pages E
              (mkState (pages st1) (disk st1) (EvParsed (size (pages st1)) :: trace st1)))
    as (st2 & Hres & _ & Hp2).
  rewrite Hres in Hrun. cbn [pages] in Hp2.
  pose proof (renderPages_steps E st2) as Hrsteps. rewrite Hrun in Hrsteps.
  unfold renderPages, bind, get_pages in Hrun.
  destruct (forEach_Render_backlinks E (range_render E (pages st2)) st2)
    as (st3 & Hren & Hb).
  rewrite Hren in Hrun. injection Hrun as <-.
  exists st1, st2. split; [reflexivity|]. split; [exact Hreg|]. split; [exact Hp2|].
  split; [|exact Hb]. now apply later_steps_same_pages.
Qed.

Lemma range_valid_elem r m k p : range_valid r -> m !! k = Some p -> k ∈ r m.
Proof.
  intros Hr Hk. rewrite (Hr m). unfold keys_of.
  apply list_elem_of_fmap. exists (k, p). split; [reflexivity|].
  now apply elem_of_map_to_list.
Qed.

(** X1.  The backlink pass always returns, leaves the output tree as it
    was, keeps the keys of the registry, and changes nothing of a page
    but its [Backlinks] map, in which every entry present before the
    pass is still present (under the same name or overwritten). *)
Theorem resolveBacklinks_changes_backlinks_only E st :
  exists st',
    resolveBacklinks E st = Done tt st'
    /\ disk st' = disk st
    /\ forall k,
         match pages st !! k, pages st' !! k with
         | Some p, Some p' =>
             p' = set_Backlinks (Backlinks p') p
             /\ forall from, is_Some (Backlinks p !! from) ->
                             is_Some (Backlinks p' !! from)
         | None, None => True
         | _, _ => False
         end.
Proof.
  destruct (resolveBacklinks_pages E st) as (st' & Hrun & Hdisk & Hp).
  exists st'. split; [exact Hrun|]. split; [exact Hdisk|]. intros k.
  rewrite Hp, foldl_apply_write_stamped.
  destruct (pages st !! k) as [p|]; [|exact I]. cbn. split; [reflexivity|].
  intros from Hfrom. rewrite stamped_lookup.
  destruct (written _ k from); [eauto | exact Hfrom].
Qed.

(** X2.  In a run that completes, a backlink entry is never recorded
    without a link: every entry [from := name] of the page at [k] comes
    from a typed page of the registry, with that name and with [from] as
    its output path without the output root, one of whose extracted
    links resolves to [k]. *)
Theorem backlink_entries_come_from_links E disk0 content st k p from name :
  run E disk0 content = Done tt st ->
  pages st !! k = Some p ->
  Backlinks p !! from = Some name ->
  exists key page link,
    links_to E (pages st) key page link k
    /\ from = backlinkKey page /\ name = Name page.
Proof.
  intros Hrun Hk Hfrom.
  destruct (run_stages _ _ _ _ Hrun) as [[_ Hempty]|(st1 & st2 & _ & Hreg & Hp2 & Hsame & Hb)].
  { rewrite Hempty, lookup_empty in Hk. discriminate. }
  assert (Hk2 : Backlinks <$> pages st2 !! k = Some (Backlinks p)).
  { rewrite <- lookup_fmap, <- Hb, lookup_fmap, Hk. reflexivity. }
  rewrite Hp2, foldl_apply_write_stamped in Hk2.
  destruct (pages st1 !! k) as [p1|] eqn:Hk1; [|discriminate].
  cbn in Hk2. injection Hk2 as Hk2. rewrite <- Hk2, stamped_lookup in Hfrom.
  destruct (Hreg _ _ Hk1) as [Hpp _]. rewrite (pp_backlinks _ Hpp), lookup_empty in Hfrom.
  destruct (written _ k from) as [n|] eqn:Hw; [|discriminate]. injection Hfrom as ->.
  destruct (written_Some _ _ _ _ Hw) as (w & Hin & Ht & Hf & Hn).
  destruct (pass_writes_origin _ _ _ _ Hin) as (key & page & link & _ & Hlinks & Hwf & Hwn).
  rewrite Ht in Hlinks.
  assert (Hsame1 : same_pages (pages st1) (pages st)).
  { intros j. rewrite (Hsame j), Hp2. symmetry. apply foldl_apply_write_same. }
  destruct (links_to_same _ _ _ _ _ _ _ Hsame1 Hlinks) as (page' & Hlinks' & Hbk & Hnm).
  exists key, page', link. split; [exact Hlinks'|]. split; congruence.
Qed.

Lemma run_blog_completes :
  run sample_env ∅ content_blog = Done tt (state_of (run sample_env ∅ content_blog)).
Proof. vm_compute. reflexivity. Qed.

Lemma backlink_entries_come_from_links_witness :
  exists key page link,
    links_to sample_env (pages (state_of (run sample_env ∅ content_blog)))
             key page link "public/blog/index.html"
    /\ "/blog/post.html" = backlinkKey page /\ "post" = Name page.
Proof.
  refine (backlink_entries_come_from_links sample_env ∅ content_blog
            (state_of (run sample_env ∅ content_blog))
            "public/blog/index.html"
            (set_Backlinks {["/blog/post.html" := "post"]}
               (set_Footer "[template/footer.html|Oliver]" blog_index_page))
            "/blog/post.html" "post" run_blog_completes _ _).
  - vm_compute. reflexivity.
  - vm_compute. reflexivity.
Defined.

(** X3.  In a run that completes, with [range] visiting every key, every
    extracted link of a typed page that resolves, to its exact match or
    else to the directory index, is recorded: the page it resolves to
    (the linking page itself for a self-link) holds the entry of the
    linking page. *)
Theorem resolved_links_are_recorded E disk0 content st key page link target :
  range_valid (range_backlinks E) ->
  run E disk0 content = Done tt st ->
  links_to E (pages st) key page link target ->
  exists tp, pages st !! target = Some tp
             /\ Backlinks tp !! backlinkKey page = Some (Name page).
Proof.
  intros Hrange Hrun Hlinks.
  destruct (run_stages _ _ _ _ Hrun) as [[_ Hempty]|(st1 & st2 & _ & Hreg & Hp2 & Hsame & Hb)].
  { destruct Hlinks as (Hk & _). rewrite Hempty, lookup_empty in Hk. discriminate. }
  assert (Hsame1 : same_pages (pages st) (pages st1)).
  { intros j. rewrite (Hsame j), Hp2. apply foldl_apply_write_same. }
  destruct (links_to_same _ _ _ _ _ _ _ Hsame1 Hlinks) as (page1 & Hlinks1 & Hbk & Hnm).
  pose proof Hlinks1 as (Hk1 & _ & _ & Ht1).
  destruct (linkTarget_is_Some _ _ _ Ht1) as [tp1 Htp1].
  pose proof (links_to_write E (pages st1) (range_backlinks E (pages st1)) key page1 link
                target (range_valid_elem _ _ _ _ Hrange Hk1) Hlinks1) as Hw.
  destruct (foldl_apply_write_lookup _ _ (pages st1) tp1
              (pass_writes_consistent E _ _ (registry_parsed_wf _ Hreg)) Hw Htp1)
    as (tp2 & Htp2 & Hentry).
  cbn [w_target w_from w_name] in Htp2, Hentry. rewrite <- Hp2 in Htp2.
  assert (Hbt : Backlinks <$> pages st !! target = Some (Backlinks tp2)).
  { rewrite <- lookup_fmap, Hb, lookup_fmap, Htp2. reflexivity. }
  destruct (pages st !! target) as [tp|]; [|discriminate].
  exists tp. split; [reflexivity|]. cbn in Hbt. injection Hbt as ->. congruence.
Qed.

Lemma resolved_links_are_recorded_witness :
  exists tp,
    pages (state_of (run sample_env ∅ content_blog)) !! "public/blog/index.html" = Some tp
    /\ Backlinks tp !! backlinkKey (set_Footer "[template/footer.html|post]" blog_post_page)
       = Some (Name (set_Footer "[template/footer.html|post]" blog_post_page)).
Proof.
  refine (resolved_links_are_recorded sample_env ∅ content_blog
            (state_of (run sample_env ∅ content_blog))
            "public/blog/post.html"
            (set_Footer "[template/footer.html|post]" blog_post_page)
            "/blog" "public/blog/index.html"
            range_valid_keys_of run_blog_completes _).
  split; [vm_compute; reflexivity|]. split; [vm_compute; discriminate|].
  split; [refine (bool_decide_unpack _ _); vm_compute; exact I|].
  vm_compute. reflexivity.
Defined.

Lemma written_of_elem ws w :
  consistent ws -> w ∈ ws ->
  written ws (w_target w) (w_from w) = Some (w_name w).
Proof.
  intros Hc Hin. destruct (written ws (w_target w) (w_from w)) as [n|] eqn:Hw.
  - destruct (written_Some _ _ _ _ Hw) as (w' & Hin' & _ & Hf & <-).
    f_equal. now apply Hc.
  - now destruct (written_None _ _ _ w Hw Hin eq_refl).
Qed.

Lemma pass_writes_same E m m' ks :
  same_pages m m' -> pass_writes E m ks = pass_writes E m' ks.
Proof.
  intros Hsame. unfold pass_writes. induction ks as [|k ks IH]; [reflexivity|].
  rewrite !bind_cons, IH. now rewrite (page_writes_same E m m' k Hsame).
Qed.

(** X4.  The backlink pass is idempotent on a registry left by the
    compile pass: a second pass, whatever the order in which [range]
    visits the keys, leaves the registry as the first pass left it. *)
Theorem resolveBacklinks_idempotent E st :
  registry_wf (pages st) ->
  range_valid (range_backlinks E) ->
  exists st1 st2,
    resolveBacklinks E st = Done tt st1
    /\ resolveBacklinks E st1 = Done tt st2
    /\ pages st2 = pages st1.
Proof.
  intros Hwf Hrange.
  destruct (resolveBacklinks_pages E st) as (st1 & Hrun1 & _ & Hp1).
  destruct (resolveBacklinks_pages E st1) as (st2 & Hrun2 & _ & Hp2).
  exists st1, st2. split; [exact Hrun1|]. split; [exact Hrun2|].
  assert (Hsame : same_pages (pages st1) (pages st)).
  { rewrite Hp1. apply foldl_apply_write_same. }
  rewrite (pass_writes_same E _ _ _ Hsame) in Hp2.
  set (ws := pass_writes E (pages st) (range_backlinks E (pages st))) in *.
  set (ws' := pass_writes E (pages st) (range_backlinks E (pages st1))) in *.
  assert (Hc : consistent ws) by now apply pass_writes_consistent.
  apply map_eq. intros k. rewrite Hp2, foldl_apply_write_stamped.
  destruct (pages st1 !! k) as [p1|] eqn:Hk1; [|reflexivity].
  cbn. f_equal. destruct p1 as [pa po pn pt pb pc pv pf ps]. unfold set_Backlinks.
  page_simpl. f_equal. apply map_eq. intros from. rewrite stamped_lookup.
  destruct (written ws' k from) as [n|] eqn:Hw; [|reflexivity].
  destruct (written_Some _ _ _ _ Hw) as (w & Hin & Ht & Hf & Hn).
  destruct (pass_writes_origin _ _ _ _ Hin) as (key & page & link & _ & Hlinks & Hwf' & Hwn).
  pose proof Hlinks as (Hkey & _).
  pose proof (links_to_write E (pages st) (range_backlinks E (pages st)) key page link
                (w_target w) (range_valid_elem _ _ _ _ Hrange Hkey) Hlinks) as Hin0.
  fold ws in Hin0. pose proof (written_of_elem ws _ Hc Hin0) as Hw0.
  cbn [w_target w_from w_name] in Hw0.
  rewrite Hp1, foldl_apply_write_stamped in Hk1.
  destruct (pages st !! k) as [p|]; [|discriminate].
  cbn in Hk1. injection Hk1 as _ _ _ _ Hb _ _ _ _.
  rewrite <- Hb, stamped_lookup, <- Ht, <- Hf, Hwf', Hw0. congruence.
Qed.

Lemma resolveBacklinks_idempotent_witness :
  exists st1 st2,
    resolveBacklinks sample_env blog_compiled = Done tt st1
    /\ resolveBacklinks sample_env st1 = Done tt st2
    /\ pages st2 = pages st1.
Proof.
  apply (resolveBacklinks_idempotent sample_env blog_compiled).
  - apply blog_compiled_wf.
  - apply range_valid_keys_of.
Defined.

(** ** Registry keys and the address of a page *)

Lemma pageKey_without_content o :
  Index o "/content" = None -> pageKey o = o.
Proof. intros H. unfold pageKey, Replace. now apply (Index_from_None _ _ _ _ 0). Qed.

Lemma pageKey_with_content o i :
  Index o "/content" = Some i ->
  (String.length (pageKey o) + 8 = String.length o)%nat.
Proof.
  intros H. unfold pageKey, Replace.
  destruct (Index_from_Some _ _ "" _ _ _ H) as (u & rest & -> & _ & ->).
  rewrite !length_append. cbn [String.length]. change ("" +:+ rest) with rest. lia.
Qed.

(** X5.  In a registry left by the compile pass, a link to the address
    of a page (its output path without the output root) resolves to
    that page exactly when [/content] does not occur in its output
    path: the registry key is the output path with the first
    [/content] cut out, so a page such as [blog/contents.md] is
    registered at a key no link to it looks up. *)
Theorem page_address_resolves_iff m k p :
  registry_wf m -> m !! k = Some p ->
  linkTarget m (backlinkKey p) = Some k <-> Index (OutPath p) "/content" = None.
Proof.
  intros Hwf Hk. destruct (Hwf _ _ Hk) as [Hkey Hpub].
  pose proof (Replace_public _ Hpub) as Haddr. fold (backlinkKey p) in Haddr.
  unfold linkTarget. rewrite Haddr. split.
  - intros Ht. destruct (Index (OutPath p) "/content") as [i|] eqn:Hi; [|reflexivity].
    exfalso. apply pageKey_with_content in Hi. rewrite <- Hkey in Hi.
    destruct (m !! OutPath p).
    + injection Ht as Ht. rewrite <- Ht in Hi. lia.
    + change ("public" +:+ backlinkKey p +:+ "/index.html")
        with ("public" +:+ (backlinkKey p +:+ "/index.html")) in Ht.
      rewrite <- append_assoc, Haddr in Ht.
      destruct (m !! (OutPath p +:+ "/index.html")); [|discriminate].
      injection Ht as Ht. rewrite <- Ht, length_append in Hi. lia.
  - intros Hi. rewrite (pageKey_without_content _ Hi) in Hkey. subst k.
    now rewrite Hk.
Qed.

Lemma page_address_resolves_iff_witness :
  linkTarget (pages blog_compiled) (backlinkKey blog_post_page)
  = Some "public/blog/post.html"
  <-> Index (OutPath blog_post_page) "/content" = None.
Proof.
  apply (page_address_resolves_iff (pages blog_compiled) "public/blog/post.html"
           blog_post_page).
  - apply blog_compiled_wf.
  - vm_compute. reflexivity.
Defined.

Example contents_page_key :
  keys_of (pages (state_of (run sample_env ∅ content_contents))) = ["public/blogs.html"].
Proof. vm_compute. reflexivity. Qed.

(** ** The pages of the registry *)

Lemma walk_emit e : steps walk_step (emit e).
Proof. intros st. apply rtc_once. constructor. Qed.

Lemma walk_fatal {A} : steps walk_step (@fatal A).
Proof. intros st. apply rtc_once. apply (ws_emit EvFatal). Qed.

Lemma walk_write path bytes : steps walk_step (write_file path bytes).
Proof. intros st. apply rtc_once. constructor. Qed.

Lemma NewPage_walk E path outPath name : steps walk_step (NewPage E path outPath name).
Proof.
  unfold NewPage. apply steps_bind; [apply walk_emit|]. intros _.
  destruct (read_navigation E); [|apply steps_ret].
  apply steps_bind; [apply walk_emit|]. intros _.
  destruct (read_static E); apply steps_ret.
Qed.

Lemma copyFile_walk E path outPath data : steps walk_step (copyFile E path outPath data).
Proof.
  unfold copyFile. apply steps_bind; [apply walk_emit|]. intros _.
  destruct data; [|apply walk_fatal].
  apply steps_bind; [apply walk_emit|]. intros _.
  destruct (create E outPath); [|apply walk_fatal].
  apply steps_bind; [apply walk_write|]. intros _.
  destruct (io_copy E outPath); [apply walk_write | apply walk_fatal].
Qed.

Lemma parseFile_walk E directory parent name data :
  under_content directory ->
  steps walk_step (parseFile E directory parent name data).
Proof.
  intros Hdir. unfold parseFile. cbv zeta.
  apply steps_bind; [apply walk_emit|]. intros _.
  destruct data as [s|]; [|apply walk_emit].
  apply (steps_bind_with _
           (fun r => forall p, r = Some p ->
              fresh_page (joinPath directory name)
                         (outPathOf (joinPath directory name))
                         (TrimSuffix name (Ext name)) p)).
  - apply NewPage_walk.
  - intros st r st' Hr p ->. eapply NewPage_fresh, Hr.
  - intros [p|] Hp; [|apply walk_emit].
    destruct (Hp p eq_refl) as (HPath & HOut & HName & HType & HBack & HCont & HFoot).
    set (q := if String.eqb (Name p) "index" then set_Name parent p else p).
    assert (Hq : Path q = Path p /\ OutPath q = OutPath p /\ Type_ q = ""
                 /\ Backlinks q = ∅ /\ Content q = "" /\ Footer q = "").
    { subst q. destruct (String.eqb (Name p) "index"); repeat split; assumption. }
    destruct Hq as (Hq1 & Hq2 & Hq3 & Hq4 & Hq5 & Hq6).
    assert (Hparsed : forall r, Backlinks r = Backlinks q -> Path r = Path q ->
                OutPath r = OutPath q -> Footer r = Footer q -> parsed_page r).
    { intros r H1 H2 H3 H4. split; congruence. }
    apply (steps_bind_with _ walked_page).
    + destruct (String.eqb (Ext name) ".html"); [apply steps_ret|].
      destruct (String.eqb (Ext name) ".md"); [apply steps_ret|].
      apply steps_bind; [apply walk_emit|]. intros _.
      apply steps_bind; [apply copyFile_walk|]. intros _. apply steps_ret.
    + intros st r st'.
      destruct (String.eqb (Ext name) ".html");
        [|destruct (String.eqb (Ext name) ".md")].
      * intros [= <- _]. split; [now apply Hparsed| |].
        -- right. now left.
        -- intros _. exact Hq5.
      * intros [= <- _]. split; [now apply Hparsed| |].
        -- right. now right.
        -- intros H. now destruct H.
      * unfold bind, emit.
        destruct (copyFile E _ _ _ _) as [[] st1|st1]; [|discriminate].
        intros [= <- _]. split; [now apply Hparsed| |].
        -- now left.
        -- intros _. exact Hq5.
    + intros r Hr st. apply rtc_once. now constructor.
Qed.

Lemma parseInode_walk E i : forall directory parent,
  under_content directory ->
  steps walk_step (parseInode E directory parent i).
Proof.
  induction i as [name data|name|name l IH] using inode_ind;
    intros directory parent Hdir.
  - apply parseFile_walk, Hdir.
  - rewrite parseInode_Dir. cbv zeta.
    apply steps_bind; [apply walk_emit|]. intros _.
    destruct (mkdir_all E _); [|apply walk_emit].
    apply steps_bind; [apply walk_emit|]. intros _.
    apply steps_bind; [apply walk_emit|]. intros _. apply walk_fatal.
  - rewrite parseInode_Dir. cbv zeta.
    apply steps_bind; [apply walk_emit|]. intros _.
    destruct (mkdir_all E _); [|apply walk_emit].
    apply steps_bind; [apply walk_emit|]. intros _.
    apply steps_bind; [apply walk_emit|]. intros _.
    apply steps_bind; [apply walk_emit|]. intros _.
    induction IH as [|x l Hx _ IHl]; [apply steps_ret|].
    apply steps_bind; [|intros _; exact IHl].
    apply Hx. now apply under_content_join.
Qed.

Lemma parseDirectoryContent_walk E directory parent listing :
  under_content directory ->
  steps walk_step (parseDirectoryContent E directory parent listing).
Proof.
  intros Hdir. unfold parseDirectoryContent.
  apply steps_bind; [apply walk_emit|]. intros _.
  destruct listing as [l|]; [|apply walk_fatal].
  apply steps_bind; [apply walk_emit|]. intros _.
  apply steps_forEach. intros x. now apply parseInode_walk.
Qed.

Lemma walk_steps_registry st st' :
  rtc walk_step st st' -> registry_walked (pages st) -> registry_walked (pages st').
Proof.
  induction 1 as [|st st1 st' Hstep _ IH]; [auto|]. intros Hm. apply IH.
  destruct Hstep as [e st|p st Hp|path bytes st]; cbn [pages]; [exact Hm| |exact Hm].
  intros k q. rewrite lookup_insert. case_decide as Hk; [|apply Hm].
  intros [= <-]. destruct Hp as [[_ Hpath Hout _] Hty Hcont]. subst k.
  repeat split; assumption.
Qed.

Lemma later_steps_walked st st' :
  rtc later_step st st' -> registry_walked (pages st) -> registry_walked (pages st').
Proof.
  intros Hsteps Hm k p' Hk'.
  pose proof (later_steps_same_pages _ _ Hsteps k) as Hid. rewrite Hk' in Hid.
  destruct (pages st !! k) as [p|] eqn:Hk; [|discriminate].
  cbn in Hid. inversion Hid as [[H0 H1 H2 H3 H4]].
  destruct (Hm _ _ Hk) as (Hkey & Hout & Hpath & Hty & Hcont).
  rewrite H0, H1, H3, H4. repeat split; assumption.
Qed.

(** X6.  At the end of every run, whether it completes or is ended by
    [log.Fatal], every page of the registry sits at the key computed
    from its output path, its output path is the mapping of its source
    path, its source lies in the content tree, its type is the empty
    string, ["HTML"] or ["MD"], and it has a body only if it is a
    markdown page: the body of a templated-HTML page is empty, so no
    link of such a page is ever extracted from its source. *)
Theorem run_registry_invariant E disk0 content k p :
  pages (state_of (run E disk0 content)) !! k = Some p ->
  k = pageKey (OutPath p)
  /\ OutPath p = outPathOf (Path p)
  /\ HasPrefix (Path p) "content/" = true
  /\ (Type_ p = "" \/ Type_ p = "HTML" \/ Type_ p = "MD")
  /\ (Type_ p <> "MD" -> Content p = "").
Proof.
  revert k p. change (registry_walked (pages (state_of (run E disk0 content)))).
  assert (Hempty : registry_walked ∅).
  { intros k p Hk. now rewrite lookup_empty in Hk. }
  destruct (parse_template E "template/markdown.html") eqn:Hmd.
  2:{ unfold run, main, bind, emit. rewrite Hmd. exact Hempty. }
  destruct (parse_template E "template/footer.html") eqn:Hfoot.
  2:{ unfold run, main, bind, emit. rewrite Hmd, Hfoot. exact Hempty. }
  rewrite main_phases by assumption.
  pose proof (parseDirectoryContent_walk E "content" "Oliver" content
                under_content_root (mkState ∅ disk0 startup_trace)) as Hsteps.
  pose proof (walk_steps_registry _ _ Hsteps Hempty) as Hreg.
  destruct (parseDirectoryContent E "content" "Oliver" content _) as [[] st1|st1];
    [|exact Hreg].
  cbn [state_of] in Hreg.
  apply (later_steps_walked
           (mkState (pages st1) (disk st1) (EvParsed (size (pages st1)) :: trace st1)));
    [apply later_passes_steps | exact Hreg].
Qed.

Lemma run_registry_invariant_witness :
  "public/blog/post.html" = pageKey (OutPath (set_Footer "[template/footer.html|post]" blog_post_page))
  /\ OutPath (set_Footer "[template/footer.html|post]" blog_post_page)
     = outPathOf (Path (set_Footer "[template/footer.html|post]" blog_post_page))
  /\ HasPrefix (Path (set_Footer "[template/footer.html|post]" blog_post_page)) "content/" = true
  /\ (Type_ (set_Footer "[template/footer.html|post]" blog_post_page) = ""
      \/ Type_ (set_Footer "[template/footer.html|post]" blog_post_page) = "HTML"
      \/ Type_ (set_Footer "[template/footer.html|post]" blog_post_page) = "MD")
  /\ (Type_ (set_Footer "[template/footer.html|post]" blog_post_page) <> "MD" ->
      Content (set_Footer "[template/footer.html|post]" blog_post_page) = "").
Proof.
  apply (run_registry_invariant sample_env ∅ content_blog "public/blog/post.html"
           (set_Footer "[template/footer.html|post]" blog_post_page)).
  vm_compute. reflexivity.
Defined.

(** ** A run without a partial *)

Lemma log_steps_same st st' :
  rtc log_step st st' -> pages st' = pages st /\ disk st' = disk st.
Proof.
  induction 1 as [|st st1 st' Hstep _ [IH1 IH2]]; [auto|].
  destruct Hstep. cbn in *. auto.
Qed.

Lemma log_emit e : steps log_step (emit e).
Proof. intros st. apply rtc_once. constructor. Qed.

Lemma log_fatal {A} : steps log_step (@fatal A).
Proof. intros st. apply rtc_once. apply (lg_emit EvFatal). Qed.

Lemma parseFile_log E directory parent name data :
  read_navigation E = None \/ read_static E = None ->
  steps log_step (parseFile E directory parent name data).
Proof.
  intros Hmiss st. destruct data as [s|].
  2:{ rewrite parseFile_unreadable. cbn [state_of].
      eapply rtc_l; [apply (lg_emit (EvReadFile (joinPath directory name)))|].
      apply rtc_once. refine (lg_emit _ (mkState _ _ _)). }
  destruct (read_navigation E) as [nav|] eqn:Hnav.
  - destruct Hmiss as [?|Hstatic]; [discriminate|].
    rewrite (parseFile_no_static _ _ _ _ _ nav) by assumption. cbn [state_of].
    eapply rtc_l; [apply (lg_emit (EvReadFile (joinPath directory name)))|].
    eapply rtc_l; [refine (lg_emit (EvReadFile "template/navigation.html") (mkState _ _ _))|].
    eapply rtc_l; [refine (lg_emit (EvReadFile "template/static.html") (mkState _ _ _))|].
    apply rtc_once. refine (lg_emit _ (mkState _ _ _)).
  - rewrite parseFile_no_navigation by assumption. cbn [state_of].
    eapply rtc_l; [apply (lg_emit (EvReadFile (joinPath directory name)))|].
    eapply rtc_l; [refine (lg_emit (EvReadFile "template/navigation.html") (mkState _ _ _))|].
    apply rtc_once. refine (lg_emit _ (mkState _ _ _)).
Qed.

Lemma parseInode_log E i : forall directory parent,
  read_navigation E = None \/ read_static E = None ->
  steps log_step (parseInode E directory parent i).
Proof.
  induction i as [name data|name|name l IH] using inode_ind;
    intros directory parent Hmiss.
  - now apply parseFile_log.
  - rewrite parseInode_Dir. cbv zeta.
    apply steps_bind; [apply log_emit|]. intros _.
    destruct (mkdir_all E _); [|apply log_emit].
    apply steps_bind; [apply log_emit|]. intros _.
    apply steps_bind; [apply log_emit|]. intros _. apply log_fatal.
  - rewrite parseInode_Dir. cbv zeta.
    apply steps_bind; [apply log_emit|]. intros _.
    destruct (mkdir_all E _); [|apply log_emit].
    apply steps_bind; [apply log_emit|]. intros _.
    apply steps_bind; [apply log_emit|]. intros _.
    apply steps_bind; [apply log_emit|]. intros _.
    induction IH as [|x l Hx _ IHl]; [apply steps_ret|].
    apply steps_bind; [|intros _; exact IHl]. now apply Hx.
Qed.

Lemma resolvePage_missing E k st :
  pages st !! k = None -> resolvePage E k st = Done tt st.
Proof. intros H. unfold resolvePage, bind, get_pages. now rewrite H. Qed.

Lemma Render_missing E k st :
  pages st !! k = None -> Render E k st = Done tt st.
Proof. intros H. unfold Render, bind, get_pages. now rewrite H. Qed.

Lemma forEach_empty_registry E ks : forall st,
  pages st = ∅ ->
  forEach (resolvePage E) ks st = Done tt st /\ forEach (Render E) ks st = Done tt st.
Proof.
  induction ks as [|k ks IH]; intros st Hst; [split; reflexivity|].
  destruct (IH st Hst) as [IH1 IH2].
  assert (Hk : pages st !! k = None) by now rewrite Hst, lookup_empty.
  cbn [forEach]. unfold bind.
  rewrite (resolvePage_missing E k st Hk), (Render_missing E k st Hk). now split.
Qed.

Lemma later_passes_empty E st :
  pages st = ∅ -> (resolveBacklinks E >>> renderPages E) st = Done tt st.
Proof.
  intros Hst. unfold bind at 1, resolveBacklinks at 1, bind at 1, get_pages at 1.
  destruct (forEach_empty_registry E (range_backlinks E (pages st)) st Hst) as [-> _].
  unfold renderPages, bind, get_pages.
  now destruct (forEach_empty_registry E (range_render E (pages st)) st Hst) as [_ ->].
Qed.

(** X7.  When the navigation fragment or the static-asset fragment
    cannot be read, a run registers no page and writes no output file:
    whatever the content tree holds, and whether the run completes or is
    ended by a directory that cannot be listed, the registry is empty
    and the output tree is as it was at the start; opaque files are not
    copied either. *)
Theorem run_without_partial_writes_nothing E disk0 content :
  read_navigation E = None \/ read_static E = None ->
  pages (state_of (run E disk0 content)) = ∅
  /\ disk (state_of (run E disk0 content)) = disk0.
Proof.
  intros Hmiss.
  destruct (parse_template E "template/markdown.html") eqn:Hmd.
  2:{ unfold run, main, bind, emit. rewrite Hmd. now cbn. }
  destruct (parse_template E "template/footer.html") eqn:Hfoot.
  2:{ unfold run, main, bind, emit. rewrite Hmd, Hfoot. now cbn. }
  rewrite main_phases by assumption.
  assert (Hsteps : rtc log_step (mkState ∅ disk0 startup_trace)
            (state_of (parseDirectoryContent E "content" "Oliver" content
                         (mkState ∅ disk0 startup_trace)))).
  { unfold parseDirectoryContent.
    apply steps_bind; [apply log_emit|]. intros _.
    destruct content as [l|]; [|apply log_fatal].
    apply steps_bind; [apply log_emit|]. intros _.
    apply steps_forEach. intros x. now apply parseInode_log. }
  apply log_steps_same in Hsteps as [Hp Hd]. cbn [pages disk] in Hp, Hd.
  destruct (parseDirectoryContent E "content" "Oliver" content _) as [[] st1|st1];
    cbn [state_of] in *; [|now split].
  rewrite later_passes_empty by exact Hp. now split.
Qed.

Lemma run_without_partial_writes_nothing_witness :
  pages (state_of (run sample_env_without_navigation ∅ (Some content_pair))) = ∅
  /\ disk (state_of (run sample_env_without_navigation ∅ (Some content_pair))) = ∅.
Proof.
  apply (run_without_partial_writes_nothing sample_env_without_navigation ∅
           (Some content_pair)).
  left. vm_compute. reflexivity.
Defined.

(** ** The output files a run touches *)

Lemma steps_mono {A} (R R' : relation state) (m : M A) :
  (forall st st', R st st' -> R' st st') -> steps R m -> steps R' m.
Proof.
  intros HR Hm st. specialize (Hm st).
  induction Hm as [|x y z Hxy _ IH]; [apply rtc_refl|].
  eapply rtc_l; [apply HR, Hxy | exact IH].
Qed.

Lemma bounded_step_mono (S S' : string -> Prop) st st' :
  (forall o, S o -> S' o) -> bounded_step S st st' -> bounded_step S' st st'.
Proof. intros HS []; constructor; auto. Qed.

Lemma bounded_steps_frame S st st' :
  rtc (bounded_step S) st st' ->
  (registry_within S (pages st) -> registry_within S (pages st'))
  /\ forall path, ~ S path -> disk st' !! path = disk st !! path.
Proof.
  induction 1 as [st|st st1 st' Hstep _ [IH1 IH2]]; [auto|].
  destruct Hstep as [e st|key p st Hp|path bytes st Hpath]; cbn [pages disk] in *;
    [auto| |].
  - split; [|exact IH2]. intros Hm. apply IH1. intros k q. rewrite lookup_insert.
    case_decide; [intros [= <-]; exact Hp | apply Hm].
  - split; [exact IH1|]. intros o Ho. rewrite IH2 by exact Ho.
    apply lookup_insert_ne. intros ->. contradiction.
Qed.

Lemma bounded_emit S e : steps (bounded_step S) (emit e).
Proof. intros st. apply rtc_once. constructor. Qed.

Lemma bounded_fatal {A} S : steps (bounded_step S) (@fatal A).
Proof. intros st. apply rtc_once. apply (bs_emit S EvFatal). Qed.

Lemma NewPage_bounded S E path outPath name :
  steps (bounded_step S) (NewPage E path outPath name).
Proof.
  unfold NewPage. apply steps_bind; [apply bounded_emit|]. intros _.
  destruct (read_navigation E); [|apply steps_ret].
  apply steps_bind; [apply bounded_emit|]. intros _.
  destruct (read_static E); apply steps_ret.
Qed.

Lemma copyFile_bounded (S : string -> Prop) E path outPath data :
  S outPath -> steps (bounded_step S) (copyFile E path outPath data).
Proof.
  intros Ho. unfold copyFile. apply steps_bind; [apply bounded_emit|]. intros _.
  destruct data; [|apply bounded_fatal].
  apply steps_bind; [apply bounded_emit|]. intros _.
  destruct (create E outPath); [|apply bounded_fatal].
  apply steps_bind; [intros st; apply rtc_once; now constructor|]. intros _.
  destruct (io_copy E outPath); [|apply bounded_fatal].
  intros st. apply rtc_once. now constructor.
Qed.

Lemma parseFile_bounded (S : string -> Prop) E directory parent name data :
  S (outPathOf (joinPath directory name)) ->
  steps (bounded_step S) (parseFile E directory parent name data).
Proof.
  intros Ho. unfold parseFile. cbv zeta.
  apply steps_bind; [apply bounded_emit|]. intros _.
  destruct data as [s|]; [|apply bounded_emit].
  apply (steps_bind_with _
           (fun r => forall p, r = Some p ->
              fresh_page (joinPath directory name)
                         (outPathOf (joinPath directory name))
                         (TrimSuffix name (Ext name)) p)).
  - apply NewPage_bounded.
  - intros st r st' Hr p ->. eapply NewPage_fresh, Hr.
  - intros [p|] Hp; [|apply bounded_emit].
    destruct (Hp p eq_refl) as (_ & HOut & _).
    apply (steps_bind_with _ (fun q => OutPath q = outPathOf (joinPath directory name))).
    + destruct (String.eqb (Ext name) ".html"); [apply steps_ret|].
      destruct (String.eqb (Ext name) ".md"); [apply steps_ret|].
      apply steps_bind; [apply bounded_emit|]. intros _.
      apply steps_bind; [now apply copyFile_bounded|]. intros _. apply steps_ret.
    + intros st q st'.
      destruct (String.eqb (Ext name) ".html");
        [|destruct (String.eqb (Ext name) ".md")].
      * intros [= <- _]. destruct (String.eqb (Name p) "index"); exact HOut.
      * intros [= <- _]. destruct (String.eqb (Name p) "index"); exact HOut.
      * unfold bind, emit.
        destruct (copyFile E _ _ _ _) as [[] st1|st1]; [|discriminate].
        intros [= <- _]. destruct (String.eqb (Name p) "index"); exact HOut.
    + intros q Hq st. apply rtc_once. unfold insertPage. constructor. now rewrite Hq.
Qed.

Lemma parseInode_bounded E i : forall (S : string -> Prop) directory parent,
  (forall o, o ∈ file_outPaths directory i -> S o) ->
  steps (bounded_step S) (parseInode E directory parent i).
Proof.
  induction i as [name data|name|name l IH] using inode_ind;
    intros S directory parent HS.
  - apply parseFile_bounded, HS. cbn. apply elem_of_cons. now left.
  - rewrite parseInode_Dir. cbv zeta.
    apply steps_bind; [apply bounded_emit|]. intros _.
    destruct (mkdir_all E _); [|apply bounded_emit].
    apply steps_bind; [apply bounded_emit|]. intros _.
    apply steps_bind; [apply bounded_emit|]. intros _. apply bounded_fatal.
  - rewrite parseInode_Dir. cbv zeta.
    apply steps_bind; [apply bounded_emit|]. intros _.
    destruct (mkdir_all E _); [|apply bounded_emit].
    apply steps_bind; [apply bounded_emit|]. intros _.
    apply steps_bind; [apply bounded_emit|]. intros _.
    apply steps_bind; [apply bounded_emit|]. intros _.
    cbn [file_outPaths] in HS.
    induction IH as [|x l Hx _ IHl]; [apply steps_ret|].
    apply steps_bind.
    + apply Hx. intros o Ho. apply HS. cbn [flat_map]. apply elem_of_app. now left.
    + intros _. apply IHl. intros o Ho. apply HS. cbn [flat_map].
      apply elem_of_app. now right.
Qed.

Lemma parseDirectoryContent_bounded E (S : string -> Prop) directory parent l :
  (forall o, o ∈ flat_map (file_outPaths directory) l -> S o) ->
  steps (bounded_step S) (parseDirectoryContent E directory parent (Some l)).
Proof.
  intros HS. unfold parseDirectoryContent.
  apply steps_bind; [apply bounded_emit|]. intros _.
  apply steps_bind; [apply bounded_emit|]. intros _.
  induction l as [|x l IH]; [apply steps_ret|].
  cbn [forEach]. apply steps_bind.
  - apply parseInode_bounded. intros o Ho. apply HS. cbn [flat_map].
    apply elem_of_app. now left.
  - intros _. apply IH. intros o Ho. apply HS. cbn [flat_map].
    apply elem_of_app. now right.
Qed.

Lemma registry_within_same (S : string -> Prop) m m' :
  same_pages m' m -> registry_within S m -> registry_within S m'.
Proof.
  intros Hsame Hm k p' Hk'. pose proof (Hsame k) as Hid. rewrite Hk' in Hid.
  destruct (m !! k) as [p|] eqn:Hk; [|discriminate].
  cbn in Hid. inversion Hid as [[H0 H1 H2 H3 H4]]. rewrite H1. now apply (Hm k).
Qed.

Lemma forEach_Render_frame E (S : string -> Prop) ks : forall st,
  registry_within S (pages st) ->
  forall path, ~ S path ->
    disk (state_of (forEach (Render E) ks st)) !! path = disk st !! path.
Proof.
  induction ks as [|k ks IH]; intros st Hm path Hpath; [reflexivity|].
  destruct (Render_disk E k st) as (st1 & H1 & Hd1).
  pose proof (Render_steps E k st) as Hs. rewrite H1 in Hs. cbn [state_of] in Hs.
  assert (Hm1 : registry_within S (pages st1)).
  { exact (registry_within_same S (pages st) (pages st1)
             (later_steps_same_pages _ _ Hs) Hm). }
  cbn [forEach]. unfold bind. rewrite H1. rewrite (IH st1 Hm1 path Hpath).
  apply Hd1. intros p Hp Heq. apply Hpath. rewrite <- Heq. now apply (Hm k).
Qed.



(** ** Names and paths *)

Lemma TrimSuffix_nil s : TrimSuffix s "" = s.
Proof.
  pose proof (TrimSuffix_append s "") as H. now rewrite append_nil_r in H.
Qed.

Lemma ext_scan_dot s e : ext_scan s = Some e -> HasPrefix e "." = true.
Proof.
  revert e. induction s as [|c s IH]; intros e; [discriminate|].
  cbn [ext_scan]. destruct (ext_scan s) as [e'|].
  - intros [= <-]. now apply IH.
  - destruct (has_sep s); [discriminate|].
    destruct (Ascii.eqb c ".") eqn:Hc; [|discriminate]. intros [= <-].
    apply Ascii.eqb_eq in Hc as ->. reflexivity.
Qed.

(** X9.  The display name computed for a file, its name without its
    extension, followed by the extension gives the file name back; the
    extension is empty or begins with a dot. *)
Theorem display_name_and_extension name :
  TrimSuffix name (Ext name) +:+ Ext name = name
  /\ (Ext name = "" \/ HasPrefix (Ext name) "." = true).
Proof.
  unfold Ext. destruct (ext_scan name) as [e|] eqn:He.
  - destruct (ext_scan_suffix _ _ He) as [u ->]. split.
    + now rewrite TrimSuffix_append.
    + right. eapply ext_scan_dot, He.
  - split; [|now left]. now rewrite TrimSuffix_nil, append_nil_r.
Qed.

Lemma ToLower_idem s : ToLower (ToLower s) = ToLower s.
Proof. apply ToLower_fixed, ToLower_not_upper. Qed.


Lemma substring_after (a b : string) :
  String.substring (String.length a) (String.length (a +:+ b) - String.length a) (a +:+ b)
  = b.
Proof.
  rewrite length_append.
  replace (String.length a + String.length b - String.length a)%nat
    with (String.length b) by lia.
  apply substring_append_r.
Qed.

(** X11.  What the mapper does about [.md]: with [q] the lower-cased
    path without its first [content/] and with underscores for spaces,
    the output path is [public/] followed by [q] itself when [.md] does
    not occur in [q], and otherwise by [q] with its first occurrence of
    [.md], wherever it lies, replaced by [.html]. *)
Theorem outPathOf_first_md path :
  outPathOf path =
  "public/" +:+
  match Index (normalised path) ".md" with
  | None => normalised path
  | Some i =>
      String.substring 0 i (normalised path) +:+ ".html" +:+
      String.substring (i + 3) (String.length (normalised path) - (i + 3))
                       (normalised path)
  end.
Proof.
  unfold outPathOf. fold (normalised path). f_equal. unfold Index, Replace.
  destruct (Index_from ".md" (normalised path) 0) as [i|] eqn:Hi.
  - destruct (Index_from_Some _ _ ".html" _ _ _ Hi) as (u & rest & Hq & -> & ->).
    rewrite Hq. cbn [Nat.add]. rewrite substring_append_l. do 2 f_equal.
    change (u +:+ ".md" +:+ rest) with (u +:+ (".md" +:+ rest)).
    rewrite <- append_assoc.
    replace (String.length u + 3)%nat with (String.length (u +:+ ".md"))
      by (rewrite length_append; reflexivity).
    symmetry. apply substring_after.
  - now apply (Index_from_None _ _ _ _ 0).
Qed.

Example outPathOf_first_md_cases :
  Index (normalised "content/Old.md.md") ".md" = Some 3
  /\ outPathOf "content/Old.md.md" = "public/old.html.md"
  /\ Index (normalised "content/logo.png") ".md" = None
  /\ outPathOf "content/logo.png" = "public/logo.png".
Proof. repeat split; reflexivity. Qed.

(** ** The display name of an index page *)

Lemma gather_elem {A B} (f : A -> option (list B)) l x r :
  x ∈ l -> gather f l = Some r ->
  exists a, f x = Some a /\ forall y, y ∈ a -> y ∈ r.
Proof.
  revert r. induction l as [|z l IH]; intros r Hx; [now apply elem_of_nil in Hx|].
  cbn [gather]. destruct (f z) as [a|] eqn:Hz; [|discriminate].
  destruct (gather f l) as [b|]; [|discriminate]. intros [= <-].
  apply elem_of_cons in Hx as [->|Hx].
  - exists a. split; [exact Hz|]. intros y Hy. apply elem_of_app. now left.
  - destruct (IH b Hx eq_refl) as (a' & Ha' & Hsub). exists a'. split; [exact Ha'|].
    intros y Hy. apply elem_of_app. right. now apply Hsub.
Qed.

Lemma file_inserts_index E directory parent fname s nav static ins :
  TrimSuffix fname (Ext fname) = "index" ->
  read_navigation E = Some nav -> read_static E = Some static ->
  file_inserts E directory parent fname (Some s) = Some ins ->
  exists p, ins = [(pageKey (outPathOf (joinPath directory fname)), p)]
            /\ Path p = joinPath directory fname /\ Name p = parent.
Proof.
  intros Hbase Hnav Hstatic. unfold file_inserts, built_page. cbv zeta.
  rewrite Hnav, Hstatic, Hbase. cbn [String.eqb Ascii.eqb Bool.eqb].
  destruct (String.eqb (Ext fname) ".html"); [intros [= <-]; eexists; repeat split|].
  destruct (String.eqb (Ext fname) ".md"); [intros [= <-]; eexists; repeat split|].
  destruct (create E _ && io_copy E _); [|discriminate].
  intros [= <-]. eexists. repeat split.
Qed.

(** X12.  The display name an index page inherits: when the walk of
    [directory] enters its sub-directory [name] and completes, a file
    of that sub-directory whose base name is [index] is registered
    under the name handed down, which is the name the walk of
    [directory] was given when [directory] is the content root, and
    otherwise the path of [directory] itself, not the name of the
    sub-directory the file lies in. *)
Theorem index_page_name_in_subdirectory
  E directory parent name l fname s st st' :
  TrimSuffix fname (Ext fname) = "index" ->
  File fname (Some s) ∈ l ->
  is_Some (read_navigation E) -> is_Some (read_static E) ->
  mkdir_all E (outPathOf (joinPath directory name)) = true ->
  parseInode E directory parent (Dir name (Some l)) st = Done tt st' ->
  exists ins p,
    pages st' = foldl insert_pair (pages st) ins
    /\ (pageKey (outPathOf (joinPath (joinPath directory name) fname)), p) ∈ ins
    /\ Path p = joinPath (joinPath directory name) fname
    /\ Name p = (if String.eqb directory "content" then parent else directory).
Proof.
  intros Hbase Hin [nav Hnav] [static Hstatic] Hmk Hrun.
  pose proof (parseInode_inserts E (Dir name (Some l)) directory parent st) as Hins.
  destruct (inode_inserts E directory parent (Dir name (Some l))) as [ins|] eqn:Hwalk.
  2:{ rewrite Hrun in Hins. discriminate. }
  destruct Hins as (st1 & Hrun1 & Hp). rewrite Hrun in Hrun1. injection Hrun1 as <-.
  cbn [inode_inserts] in Hwalk. cbv zeta in Hwalk. rewrite Hmk in Hwalk.
  destruct (gather_elem _ _ _ _ Hin Hwalk) as (a & Ha & Hsub).
  cbn [inode_inserts] in Ha.
  destruct (file_inserts_index _ _ _ _ _ _ _ _ Hbase Hnav Hstatic Ha) as (p & -> & HPath & HName).
  exists ins, p. split; [exact Hp|]. split; [|split; assumption].
  apply Hsub. apply elem_of_cons. now left.
Qed.

Lemma index_page_name_in_subdirectory_witness :
  exists ins p,
    pages (state_of (parseInode sample_env "content/blog" "Oliver"
                       (Dir "drafts" (Some [File "index.md" (Some "text")])) (initial ∅)))
    = foldl insert_pair (pages (initial ∅)) ins
    /\ (pageKey (outPathOf (joinPath (joinPath "content/blog" "drafts") "index.md")), p) ∈ ins
    /\ Path p = joinPath (joinPath "content/blog" "drafts") "index.md"
    /\ Name p = (if String.eqb "content/blog" "content" then "Oliver" else "content/blog").
Proof.
  apply (index_page_name_in_subdirectory sample_env "content/blog" "Oliver" "drafts"
           [File "index.md" (Some "text")] "index.md" "text" (initial ∅)).
  - vm_compute. reflexivity.
  - apply elem_of_cons. now left.
  - vm_compute. eexists. reflexivity.
  - vm_compute. eexists. reflexivity.
  - vm_compute. reflexivity.
  - vm_compute. reflexivity.
Defined.

(** ** The single-pass variant *)

Lemma legacy_renderInode_Dir L directory parent name listing :
  Legacy.renderInode L directory parent (Dir name listing) =
  (let path := joinPath directory name in
   let outPath := outPathOf path in
   emit (EvMkdirAll outPath) >>>
   if mkdir_all (Legacy.base L) outPath then
     emit (EvLog "[gen/render/dir] created directory" [outPath]) >>>
     Legacy.renderDirectoryContents L path
       (if String.eqb directory "content" then parent else directory) listing
   else emit (EvLog "[gen/render/dir] unable to create directory" [outPath])).
Proof.
  cbn [Legacy.renderInode]. cbv zeta. unfold Legacy.renderDirectoryContents.
  destruct listing as [l|]; [|reflexivity].
  set (path := joinPath directory name).
  set (childName := if String.eqb directory "content" then parent else directory).
  assert (Hloop :
    (fix loop (l : list inode) : M unit :=
       match l with
       | [] => ret tt
       | j :: l' => Legacy.renderInode L path childName j >>> loop l'
       end) l = forEach (Legacy.renderInode L path childName) l).
  { induction l as [|j l IH]; [reflexivity|]. cbn [forEach]. now rewrite IH. }
  now rewrite Hloop.
Qed.

Lemma legacy_NewPage_steps R L path outPath name :
  (forall e st, R st (mkState (pages st) (disk st) (e :: trace st))) ->
  steps R (Legacy.NewPage L path outPath name).
Proof.
  intros HR. assert (Hemit : forall e, steps R (emit e)).
  { intros e st. apply rtc_once, HR. }
  unfold Legacy.NewPage. apply steps_bind; [apply Hemit|]. intros _.
  destruct (read_navigation _); [|apply steps_ret].
  apply steps_bind; [apply Hemit|]. intros _.
  destruct (Legacy.read_footer L); [|apply steps_ret].
  apply steps_bind; [apply Hemit|]. intros _.
  destruct (read_static _); apply steps_ret.
Qed.

Lemma legacy_NewPage_result L path outPath name st p st' :
  Legacy.NewPage L path outPath name st = Done (Some p) st' ->
  Legacy.OutPath p = outPath
  /\ is_Some (read_navigation (Legacy.base L)) /\ is_Some (Legacy.read_footer L)
  /\ is_Some (read_static (Legacy.base L)).
Proof.
  unfold Legacy.NewPage, bind, emit, ret.
  destruct (read_navigation _); [|discriminate].
  destruct (Legacy.read_footer L); [|discriminate].
  destruct (read_static _); [|discriminate].
  intros [= <- _]. repeat split; eauto.
Qed.

Lemma legacy_renderTo_bounded (S : string -> Prop) L template p :
  S (Legacy.OutPath p) -> steps (bounded_step S) (Legacy.renderTo L template p).
Proof.
  intros Ho. unfold Legacy.renderTo.
  apply steps_bind; [apply bounded_emit|]. intros _.
  destruct (create _ _); [|apply bounded_emit].
  apply steps_bind; [intros st; apply rtc_once; now constructor|]. intros _.
  apply steps_bind; [intros st; apply rtc_once; now constructor|]. intros _.
  destruct (snd _); apply bounded_emit.
Qed.

Lemma legacy_renderFile_bounded (S : string -> Prop) L directory parent name data :
  S (outPathOf (joinPath directory name)) ->
  steps (bounded_step S) (Legacy.renderFile L directory parent name data).
Proof.
  intros Ho. unfold Legacy.renderFile. cbv zeta.
  apply steps_bind; [apply bounded_emit|]. intros _.
  destruct data as [s|]; [|apply bounded_emit].
  apply (steps_bind_with _
           (fun r => forall p, r = Some p ->
              Legacy.OutPath p = outPathOf (joinPath directory name))).
  - apply legacy_NewPage_steps. intros e st. constructor.
  - intros st r st' Hr p ->. eapply legacy_NewPage_result, Hr.
  - intros [p|] Hp; [|apply bounded_emit]. specialize (Hp p eq_refl).
    assert (Hq : Legacy.OutPath
                   (if String.eqb (Legacy.Name p) "index"
                    then Legacy.mkPage (Legacy.Path p) (Legacy.OutPath p) parent
                           (Legacy.Content p) (Legacy.Navigation p) (Legacy.Footer p)
                           (Legacy.StaticImports p)
                    else p) = outPathOf (joinPath directory name)).
    { now destruct (String.eqb (Legacy.Name p) "index"). }
    destruct (String.eqb (Ext name) ".html").
    { unfold Legacy.renderHtml. apply steps_bind; [apply bounded_emit|]. intros _.
      destruct (parse_template _ _); [|apply bounded_emit].
      apply legacy_renderTo_bounded. now rewrite Hq. }
    destruct (String.eqb (Ext name) ".md").
    { apply legacy_renderTo_bounded. cbn [Legacy.OutPath]. now rewrite Hq. }
    apply steps_bind; [apply bounded_emit|]. intros _.
    now apply copyFile_bounded.
Qed.

Lemma legacy_renderInode_bounded L i : forall (S : string -> Prop) directory parent,
  (forall o, o ∈ file_outPaths directory i -> S o) ->
  steps (bounded_step S) (Legacy.renderInode L directory parent i).
Proof.
  induction i as [name data|name|name l IH] using inode_ind;
    intros S directory parent HS.
  - apply legacy_renderFile_bounded, HS. cbn. apply elem_of_cons. now left.
  - rewrite legacy_renderInode_Dir. cbv zeta.
    apply steps_bind; [apply bounded_emit|]. intros _.
    destruct (mkdir_all _ _); [|apply bounded_emit].
    apply steps_bind; [apply bounded_emit|]. intros _.
    apply steps_bind; [apply bounded_emit|]. intros _. apply bounded_fatal.
  - rewrite legacy_renderInode_Dir. cbv zeta.
    apply steps_bind; [apply bounded_emit|]. intros _.
    destruct (mkdir_all _ _); [|apply bounded_emit].
    apply steps_bind; [apply bounded_emit|]. intros _.
    apply steps_bind; [apply bounded_emit|]. intros _.
    apply steps_bind; [apply bounded_emit|]. intros _.
    cbn [file_outPaths] in HS.
    induction IH as [|x l Hx _ IHl]; [apply steps_ret|].
    apply steps_bind.
    + apply Hx. intros o Ho. apply HS. cbn [flat_map]. apply elem_of_app. now left.
    + intros _. apply IHl. intros o Ho. apply HS. cbn [flat_map].
      apply elem_of_app. now right.
Qed.



Lemma legacy_renderFile_log L directory parent name data :
  read_navigation (Legacy.base L) = None \/ Legacy.read_footer L = None
  \/ read_static (Legacy.base L) = None ->
  steps log_step (Legacy.renderFile L directory parent name data).
Proof.
  intros Hmiss. unfold Legacy.renderFile. cbv zeta.
  apply steps_bind; [apply log_emit|]. intros _.
  destruct data as [s|]; [|apply log_emit].
  apply (steps_bind_with _ (fun r => r = None)).
  - apply legacy_NewPage_steps. intros e st. constructor.
  - intros st [p|] st' Hr; [|reflexivity].
    apply legacy_NewPage_result in Hr as (_ & [? Hn] & [? Hf] & [? Hs]).
    destruct Hmiss as [?|[?|?]]; congruence.
  - intros r ->. apply log_emit.
Qed.

Lemma legacy_renderInode_log L i : forall directory parent,
  read_navigation (Legacy.base L) = None \/ Legacy.read_footer L = None
  \/ read_static (Legacy.base L) = None ->
  steps log_step (Legacy.renderInode L directory parent i).
Proof.
  induction i as [name data|name|name l IH] using inode_ind;
    intros directory parent Hmiss.
  - now apply legacy_renderFile_log.
  - rewrite legacy_renderInode_Dir. cbv zeta.
    apply steps_bind; [apply log_emit|]. intros _.
    destruct (mkdir_all _ _); [|apply log_emit].
    apply steps_bind; [apply log_emit|]. intros _.
    apply steps_bind; [apply log_emit|]. intros _. apply log_fatal.
  - rewrite legacy_renderInode_Dir. cbv zeta.
    apply steps_bind; [apply log_emit|]. intros _.
    destruct (mkdir_all _ _); [|apply log_emit].
    apply steps_bind; [apply log_emit|]. intros _.
    apply steps_bind; [apply log_emit|]. intros _.
    apply steps_bind; [apply log_emit|]. intros _.
    induction IH as [|x l Hx _ IHl]; [apply steps_ret|].
    apply steps_bind; [|intros _; exact IHl]. now apply Hx.
Qed.

(** X14.  When one of the three fragments the single-pass variant reads
    for every page (navigation, footer, static imports) cannot be read,
    its run creates and writes no output file at all, whatever the
    content tree holds: opaque files are not copied either. *)
Theorem legacy_run_without_partial_writes_nothing L disk0 content :
  read_navigation (Legacy.base L) = None \/ Legacy.read_footer L = None
  \/ read_static (Legacy.base L) = None ->
  disk (state_of (Legacy.run L disk0 content)) = disk0.
Proof.
  intros Hmiss.
  assert (Hsteps : steps log_step (Legacy.main L content)).
  { unfold Legacy.main. apply steps_bind; [apply log_emit|]. intros _.
    destruct (parse_template _ _); [|apply log_emit].
    apply steps_bind; [apply log_emit|]. intros _.
    unfold Legacy.renderDirectoryContents.
    apply steps_bind; [apply log_emit|]. intros _.
    destruct content as [l|]; [|apply log_fatal].
    apply steps_bind; [apply log_emit|]. intros _.
    apply steps_forEach. intros x. now apply legacy_renderInode_log. }
  specialize (Hsteps (initial disk0)).
  now destruct (log_steps_same _ _ Hsteps) as [_ Hd].
Qed.

Lemma legacy_run_without_partial_writes_nothing_witness :
  disk (state_of (Legacy.run Legacy.sample_world_without_footer ∅ content_with_opaque))
  = ∅.
Proof.
  apply (legacy_run_without_partial_writes_nothing
           Legacy.sample_world_without_footer ∅ content_with_opaque).
  right. left. reflexivity.
Defined.

Lemma legacy_renderTo_completes L template p st :
  completes (Legacy.renderTo L template p st) = true.
Proof.
  unfold Legacy.renderTo, bind, emit, write_file.
  destruct (create _ _); [|reflexivity]. now destruct (snd _).
Qed.

Lemma legacy_renderFile_completes L directory parent name data st :
  is_Some (Legacy.read_footer L) ->
  completes (Legacy.renderFile L directory parent name data st)
  = finishes (file_inserts (Legacy.base L) directory parent name data).
Proof.
  intros [footer Hf]. unfold Legacy.renderFile, file_inserts. cbv zeta.
  destruct data as [s|]; [|reflexivity].
  unfold bind at 1. unfold emit at 1. unfold bind at 1.
  unfold Legacy.NewPage, bind, emit, ret. rewrite Hf.
  destruct (read_navigation _) as [nav|]; [|reflexivity].
  destruct (read_static _) as [static|]; [|reflexivity].
  cbn [Legacy.Name Legacy.Path Legacy.OutPath].
  destruct (String.eqb (Ext name) ".html").
  { unfold Legacy.renderHtml, bind, emit.
    destruct (parse_template _ _); [|now destruct (String.eqb _ "index")].
    apply legacy_renderTo_completes. }
  destruct (String.eqb (Ext name) ".md"); [apply legacy_renderTo_completes|].
  unfold copyFile, bind, emit, write_file, fatal.
  destruct (create _ _); [|reflexivity].
  now destruct (io_copy _ _).
Qed.

Lemma forEach_completes {A B} (body : A -> M unit) (f : A -> option (list B)) l :
  Forall (fun x => forall st, completes (body x st) = finishes (f x)) l ->
  forall st, completes (forEach body l st) = finishes (gather f l).
Proof.
  induction 1 as [|x l Hx _ IH]; intros st; [reflexivity|].
  cbn [forEach gather]. unfold bind. specialize (Hx st).
  destruct (body x st) as [[] st'|st']; destruct (f x); try discriminate.
  - rewrite IH. now destruct (gather f l).
  - reflexivity.
Qed.

Lemma legacy_renderInode_completes L i : forall directory parent st,
  is_Some (Legacy.read_footer L) ->
  completes (Legacy.renderInode L directory parent i st)
  = finishes (inode_inserts (Legacy.base L) directory parent i).
Proof.
  induction i as [name data|name|name l IH] using inode_ind;
    intros directory parent st Hf.
  - now apply legacy_renderFile_completes.
  - rewrite legacy_renderInode_Dir. cbn [inode_inserts]. cbv zeta.
    unfold Legacy.renderDirectoryContents, bind, emit, fatal.
    now destruct (mkdir_all _ _).
  - rewrite legacy_renderInode_Dir. cbn [inode_inserts]. cbv zeta.
    unfold Legacy.renderDirectoryContents.
    unfold bind at 1. unfold emit at 1.
    destruct (mkdir_all _ _); [|reflexivity].
    unfold bind at 1. unfold emit at 1. unfold bind at 1. unfold emit at 1.
    unfold bind at 1. unfold emit at 1.
    apply forEach_completes.
    induction IH as [|x l Hx _ IHl]; [apply List.Forall_nil|].
    apply List.Forall_cons; [|exact IHl]. intros st'. now apply Hx.
Qed.

(** X15.  The two variants end in [log.Fatal] on the same content
    trees: when the footer file can be read as a fragment (single-pass
    variant) and parsed as a template (two-pass variant), the
    single-pass run over a tree completes exactly when the two-pass run
    over the same tree does. *)
Theorem variants_complete_alike L disk0 disk1 l :
  is_Some (Legacy.read_footer L) ->
  parse_template (Legacy.base L) "template/footer.html" = true ->
  completes (Legacy.run L disk0 (Some l))
  = completes (run (Legacy.base L) disk1 (Some l)).
Proof.
  intros Hf Hfoot. rewrite run_completes. unfold templates_parse. rewrite Hfoot.
  unfold Legacy.run, Legacy.main. unfold bind at 1. unfold emit at 1.
  destruct (parse_template _ "template/markdown.html").
  - unfold Legacy.renderDirectoryContents.
    unfold bind at 1. unfold emit at 1. unfold bind at 1. unfold emit at 1.
    unfold bind at 1. unfold emit at 1.
    rewrite (forEach_completes _ (inode_inserts (Legacy.base L) "content" "Oliver")).
    + now destruct (gather _ l).
    + apply Forall_forall. intros x _ st. now apply legacy_renderInode_completes.
  - now destruct (gather _ l).
Qed.

Lemma variants_complete_alike_witness :
  completes (Legacy.run Legacy.sample_world ∅ (Some content_pair))
  = completes (run (Legacy.base Legacy.sample_world) ∅ (Some content_pair)).
Proof.
  apply (variants_complete_alike Legacy.sample_world ∅ ∅ content_pair).
  - eexists. reflexivity.
  - reflexivity.
Defined.

(** ** The render pass *)

Lemma Render_result E k st p :
  pages st !! k = Some p ->
  exists st',
    Render E k st = Done tt st'
    /\ pages st' = alter (set_Footer (fst (execute E "template/footer.html" p))) k (pages st)
    /\ (forall bytes, rendering E (with_footer E p) = Some bytes ->
                      disk st' !! OutPath p = Some bytes)
    /\ (forall path, path <> OutPath p -> disk st' !! path = disk st !! path).
Proof.
  intros Hp. unfold Render, bind at 1, get_pages. rewrite Hp. cbv zeta.
  unfold bind at 1, put_pages. unfold rendering, with_footer.
  set (q := set_Footer (fst (execute E "template/footer.html" p)) p).
  assert (Hout : OutPath q = OutPath p) by reflexivity.
  assert (Hto : forall template st0,
    exists st', renderTo E template q st0 = Done tt st'
      /\ pages st' = pages st0
      /\ (create E (OutPath q) = true ->
          disk st' !! OutPath p = Some (fst (execute E template q)))
      /\ (forall path, path <> OutPath p -> disk st' !! path = disk st0 !! path)).
  { intros template st0. unfold renderTo, bind, emit, write_file. rewrite Hout.
    destruct (create E (OutPath p)).
    - destruct (snd (execute E template q)); eexists; (split; [reflexivity|]);
        cbn [pages disk]; (split; [reflexivity|]);
        (split; [intros _; now rewrite lookup_insert_eq|]);
        intros path Hne; now rewrite !lookup_insert_ne by congruence.
    - eexists. split; [reflexivity|]. cbn [pages disk].
      split; [reflexivity|]. split; [discriminate|]. reflexivity. }
  destruct (String.eqb (Type_ q) "HTML").
  - unfold renderHtml, bind at 1, emit. destruct (parse_template E (Path q)).
    + destruct (Hto (Path q) (mkState (alter (set_Footer (fst (execute E "template/footer.html" p))) k (pages st))
                                (disk st) (EvParseFiles (Path q) :: trace st)))
        as (st' & H & Hpg & Hd & Hfr).
      exists st'. split; [exact H|]. split; [exact Hpg|]. split; [|exact Hfr].
      intros bytes. cbn [andb]. destruct (create E (OutPath q)); [|discriminate].
      intros [= <-]. now apply Hd.
    + eexists. split; [reflexivity|]. cbn [pages disk andb].
      split; [reflexivity|]. split; [discriminate|]. reflexivity.
  - destruct (String.eqb (Type_ q) "MD").
    + destruct (Hto "template/markdown.html"
                  (mkState (alter (set_Footer (fst (execute E "template/footer.html" p))) k (pages st))
                           (disk st) (trace st)))
        as (st' & H & Hpg & Hd & Hfr).
      exists st'. split; [exact H|]. split; [exact Hpg|]. split; [|exact Hfr].
      intros bytes. destruct (create E (OutPath q)); [|discriminate].
      intros [= <-]. now apply Hd.
    + eexists. split; [reflexivity|]. cbn [pages disk].
      split; [reflexivity|]. split; [discriminate|]. reflexivity.
Qed.

Lemma forEach_Render_result E ks : NoDup ks -> forall st,
  (forall k p, pages st !! k = Some p -> k = pageKey (OutPath p)) ->
  exists st',
    forEach (Render E) ks st = Done tt st'
    /\ (forall k, k ∈ ks -> pages st' !! k = with_footer E <$> pages st !! k)
    /\ (forall k, k ∉ ks -> pages st' !! k = pages st !! k)
    /\ (forall k p bytes, k ∈ ks -> pages st !! k = Some p ->
          rendering E (with_footer E p) = Some bytes ->
          disk st' !! OutPath p = Some bytes)
    /\ (forall path, (forall k p, k ∈ ks -> pages st !! k = Some p -> OutPath p <> path) ->
          disk st' !! path = disk st !! path).
Proof.
  induction 1 as [|k ks Hk Hnd IH]; intros st Hkeys.
  { exists st. split; [reflexivity|]. split; [intros k Hin; now apply elem_of_nil in Hin|].
    split; [reflexivity|]. split; [intros k p bytes Hin; now apply elem_of_nil in Hin|].
    reflexivity. }
  cbn [forEach]. unfold bind.
  destruct (pages st !! k) as [p|] eqn:Hp.
  - destruct (Render_result E k st p Hp) as (st1 & H1 & Hpg1 & Hd1 & Hfr1).
    rewrite H1.
    assert (Hother : forall j, j <> k -> pages st1 !! j = pages st !! j).
    { intros j Hj. rewrite Hpg1. now apply lookup_alter_ne. }
    assert (Hkeys1 : forall j q, pages st1 !! j = Some q -> j = pageKey (OutPath q)).
    { intros j q. destruct (decide (j = k)) as [->|Hj].
      - rewrite Hpg1, lookup_alter_eq, Hp. intros [= <-]. exact (Hkeys k p Hp).
      - rewrite Hother by assumption. apply Hkeys. }
    destruct (IH st1 Hkeys1) as (st' & H' & Hin' & Hout' & Hd' & Hfr').
    exists st'. split; [exact H'|]. repeat split.
    + intros j Hj. apply elem_of_cons in Hj as [->|Hj].
      * rewrite Hout' by assumption. rewrite Hpg1, lookup_alter_eq, Hp. reflexivity.
      * rewrite Hin' by assumption. rewrite Hother; [reflexivity|]. now intros ->.
    + intros j Hj. rewrite Hout'. 
      * apply Hother. intros ->. apply Hj, elem_of_cons. now left.
      * intros Hin. apply Hj, elem_of_cons. now right.
    + intros j q bytes Hj Hq Hr. apply elem_of_cons in Hj as [->|Hj].
      * assert (q = p) by congruence. subst q.
        rewrite Hfr'; [now apply Hd1|].
        intros j q Hj Hq' Heq. assert (Hjk : j <> k) by now intros ->.
        rewrite Hother in Hq' by assumption.
        apply Hjk. rewrite (Hkeys _ _ Hq'), (Hkeys _ _ Hp). now rewrite Heq.
      * apply (Hd' j); [assumption| |assumption].
        rewrite Hother; [assumption|]. now intros ->.
    + intros path Hpath. rewrite Hfr'.
      * apply Hfr1. intros ->. apply (Hpath k p); [apply elem_of_cons; now left|assumption|reflexivity].
      * intros j q Hj Hq. assert (Hjk : j <> k) by now intros ->.
        rewrite Hother in Hq by assumption. apply (Hpath j q); [|assumption].
        apply elem_of_cons. now right.
  - rewrite (Render_missing E k st Hp).
    destruct (IH st Hkeys) as (st' & H' & Hin' & Hout' & Hd' & Hfr').
    exists st'. split; [exact H'|]. repeat split.
    + intros j Hj. apply elem_of_cons in Hj as [->|Hj]; [|now apply Hin'].
      now rewrite Hout', Hp.
    + intros j Hj. apply Hout'. intros Hin. apply Hj, elem_of_cons. now right.
    + intros j q bytes Hj Hq Hr. apply elem_of_cons in Hj as [->|Hj]; [congruence|].
      now apply (Hd' j).
    + intros path Hpath. apply Hfr'. intros j q Hj Hq. apply (Hpath j q); [|assumption].
      apply elem_of_cons. now right.
Qed.

(** X16.  In a run that completes, with [range] visiting every key once,
    every page of the registry that comes to be written (a markdown
    page, or an HTML page whose source parses as a template, with an
    output file that can be created) has at its output path, when the
    run ends, the text its template gives on the page as the registry
    holds it then, backlinks of the whole site included: no other page
    and no copied file has taken its place.  The footer of the page is
    the text the footer template gave on the page without a footer. *)
Theorem rendered_page_holds_its_rendering E disk0 content st k q bytes :
  range_valid (range_render E) ->
  run E disk0 content = Done tt st ->
  pages st !! k = Some q ->
  rendering E q = Some bytes ->
  disk st !! OutPath q = Some bytes
  /\ Footer q = fst (execute E "template/footer.html" (set_Footer "" q)).
Proof.
  intros Hrange Hrun Hk Hr.
  destruct (parse_template E "template/markdown.html") eqn:Hmd.
  2:{ revert Hrun. unfold run, main, bind, emit. rewrite Hmd. intros [= <-].
      cbn in Hk. now rewrite lookup_empty in Hk. }
  destruct (parse_template E "template/footer.html") eqn:Hfoot.
  2:{ revert Hrun. unfold run, main, bind, emit. rewrite Hmd, Hfoot. intros [= <-].
      cbn in Hk. now rewrite lookup_empty in Hk. }
  rewrite main_phases in Hrun by assumption.
  pose proof (parseDirectoryContent_steps E "content" "Oliver" content
                under_content_root (mkState ∅ disk0 startup_trace)) as Hsteps.
  pose proof (compile_steps_registry _ _ Hsteps registry_parsed_empty) as Hreg.
  destruct (parseDirectoryContent E "content" "Oliver" content _) as [[] st1|st1];
    [|discriminate].
  cbn [state_of] in Hreg. clear Hsteps. unfold bind in Hrun.
  destruct (resolveBacklinks_pages E
              (mkState (pages st1) (disk st1) (EvParsed (size (pages st1)) :: trace st1)))
    as (st2 & Hres & _ & Hp2).
  rewrite Hres in Hrun. cbn [pages] in Hp2.
  assert (Hreg2 : forall j p, pages st2 !! j = Some p ->
                              j = pageKey (OutPath p) /\ Footer p = "").
  { intros j p. rewrite Hp2, foldl_apply_write_stamped.
    destruct (pages st1 !! j) as [p1|] eqn:Hj; [|discriminate].
    intros [= <-]. destruct (Hreg _ _ Hj) as [Hpp Hkey].
    split; [exact Hkey | exact (pp_footer _ Hpp)]. }
  unfold renderPages, bind, get_pages in Hrun.
  assert (Hnd : NoDup (range_render E (pages st2))).
  { rewrite (Hrange (pages st2)). apply NoDup_fst_map_to_list. }
  destruct (forEach_Render_result E _ Hnd st2 (fun j p H => proj1 (Hreg2 j p H)))
    as (st' & H' & Hin & Hout & Hd & _).
  rewrite H' in Hrun. injection Hrun as <-.
  assert (Hkin : k ∈ range_render E (pages st2)).
  { destruct (decide (k ∈ range_render E (pages st2))) as [|Hno]; [assumption|].
    rewrite (Hout k Hno) in Hk. exact (range_valid_elem _ _ _ _ Hrange Hk). }
  rewrite (Hin k Hkin) in Hk.
  destruct (pages st2 !! k) as [p|] eqn:Hk2; [|discriminate].
  injection Hk as <-. destruct (Hreg2 _ _ Hk2) as [_ Hfooter].
  split.
  - exact (Hd k p bytes Hkin Hk2 Hr).
  - unfold with_footer. destruct p. cbn in Hfooter. subst. reflexivity.
Qed.

Lemma rendered_page_holds_its_rendering_witness :
  disk (state_of (run sample_env ∅ content_blog)) !! "public/blog/post.html"
  = Some "[template/markdown.html|post]"
  /\ "[template/footer.html|post]"
     = fst (execute sample_env "template/footer.html"
              (set_Footer "" (set_Footer "[template/footer.html|post]" blog_post_page))).
Proof.
  refine (rendered_page_holds_its_rendering sample_env ∅ content_blog
            (state_of (run sample_env ∅ content_blog))
            "public/blog/post.html"
            (set_Footer "[template/footer.html|post]" blog_post_page)
            "[template/markdown.html|post]"
            range_valid_keys_of run_blog_completes _ _).
  - vm_compute. reflexivity.
  - vm_compute. reflexivity.
Defined.

(** ** Opaque files *)

Lemma elem_of_flat_map_intro {A B} (f : A -> list B) l x o :
  x ∈ l -> o ∈ f x -> o ∈ flat_map f l.
Proof.
  induction l as [|z l IH]; intros Hx Ho; [now apply elem_of_nil in Hx|].
  cbn [flat_map]. apply elem_of_app.
  apply elem_of_cons in Hx as [->|Hx]; [now left | right; now apply IH].
Qed.

Lemma holds_opaque_outPath E directory i path data :
  holds_opaque E directory i path data ->
  outPathOf path ∈ file_outPaths directory i.
Proof.
  induction 1 as [directory name data _ _|directory name inodes j path data _ Hj _ IH].
  - cbn. apply elem_of_cons. now left.
  - cbn [file_outPaths]. now apply (elem_of_flat_map_intro _ _ j).
Qed.

Lemma forEach_app_Done {A} (body : A -> M unit) l1 l2 st st' :
  forEach body (l1 ++ l2) st = Done tt st' ->
  exists st1, forEach body l1 st = Done tt st1 /\ forEach body l2 st1 = Done tt st'.
Proof.
  rewrite forEach_app. unfold bind.
  destruct (forEach body l1 st) as [[] st1|st1]; [|discriminate]. eauto.
Qed.

Lemma bounded_steps_unrendered (S : string -> Prop) o st st' :
  rtc (bounded_step S) st st' -> ~ S o ->
  unrendered_at o (pages st) -> unrendered_at o (pages st').
Proof.
  intros Hsteps Ho. induction Hsteps as [|st st1 st' Hstep _ IH]; [auto|].
  intros Hm. apply IH.
  destruct Hstep as [e st|key p st Hp|path bytes st Hpath]; cbn [pages];
    [exact Hm| |exact Hm].
  intros k q. rewrite lookup_insert. case_decide as Hk; [|apply Hm].
  intros [= <-] Hq. exfalso. apply Ho. now rewrite <- Hq.
Qed.

Lemma later_steps_unrendered o st st' :
  rtc later_step st st' ->
  unrendered_at o (pages st) -> unrendered_at o (pages st').
Proof.
  intros Hsteps Hm k p' Hk' Ho.
  pose proof (later_steps_same_pages _ _ Hsteps k) as Hid. rewrite Hk' in Hid.
  destruct (pages st !! k) as [p|] eqn:Hk; [|discriminate].
  cbn in Hid. inversion Hid as [[H0 H1 H2 H3 H4]].
  rewrite H3. apply (Hm k p Hk). congruence.
Qed.

(** What the walk of the entries [l] of a directory does about an
    opaque file one of them holds, from what the walk of that entry
    does. *)
Lemma forEach_parseInode_copies E directory parent l j o data :
  j ∈ l -> o ∈ file_outPaths directory j ->
  NoDup (flat_map (file_outPaths directory) l) ->
  (forall st st', parseInode E directory parent j st = Done tt st' ->
     disk st' !! o = Some data
     /\ (unrendered_at o (pages st) -> unrendered_at o (pages st'))) ->
  forall st st', forEach (parseInode E directory parent) l st = Done tt st' ->
     disk st' !! o = Some data
     /\ (unrendered_at o (pages st) -> unrendered_at o (pages st')).
Proof.
  intros Hj Ho Hnd Hbody st st' Hrun.
  apply list_elem_of_split in Hj as (l1 & l2 & ->).
  rewrite flat_map_app in Hnd. cbn [flat_map] in Hnd.
  apply NoDup_app in Hnd as (_ & Hl1 & Hnd).
  apply NoDup_app in Hnd as (_ & Hl2 & _).
  assert (Ho1 : o ∉ flat_map (file_outPaths directory) l1).
  { intros Hin. apply (Hl1 o Hin). apply elem_of_app. now left. }
  assert (Ho2 : o ∉ flat_map (file_outPaths directory) l2) by now apply Hl2.
  apply forEach_app_Done in Hrun as (st1 & Hrun1 & Hrun).
  cbn [forEach] in Hrun. unfold bind in Hrun.
  destruct (parseInode E directory parent j st1) as [[] st2|st2] eqn:Hrun2;
    [|discriminate].
  destruct (Hbody _ _ Hrun2) as [Hd2 Hq2].
  assert (Hfor : forall l0,
            steps (bounded_step (fun x => x ∈ flat_map (file_outPaths directory) l0))
                  (forEach (parseInode E directory parent) l0)).
  { intros l0. induction l0 as [|x l0 IH]; [apply steps_ret|].
    cbn [forEach]. apply steps_bind.
    - apply parseInode_bounded. intros x0 Hx0. cbn [flat_map]. apply elem_of_app. now left.
    - intros _. eapply steps_mono; [|exact IH].
      intros s s'. apply bounded_step_mono. intros x0 Hx0. cbn [flat_map].
      apply elem_of_app. now right. }
  pose proof (Hfor l1 st) as Hs1. rewrite Hrun1 in Hs1. cbn [state_of] in Hs1.
  pose proof (Hfor l2 st2) as Hs2. rewrite Hrun in Hs2. cbn [state_of] in Hs2.
  split.
  - destruct (bounded_steps_frame _ _ _ Hs2) as [_ Hfr]. now rewrite (Hfr o Ho2).
  - intros Hm. apply (bounded_steps_unrendered _ _ _ _ Hs2 Ho2), Hq2.
    exact (bounded_steps_unrendered _ _ _ _ Hs1 Ho1 Hm).
Qed.

Lemma parseInode_copies E directory i path data :
  holds_opaque E directory i path data ->
  is_Some (read_navigation E) -> is_Some (read_static E) ->
  NoDup (file_outPaths directory i) ->
  forall parent st st', parseInode E directory parent i st = Done tt st' ->
    disk st' !! outPathOf path = Some data
    /\ (unrendered_at (outPathOf path) (pages st) ->
        unrendered_at (outPathOf path) (pages st')).
Proof.
  intros Hholds [nav Hnav] [static Hstatic].
  induction Hholds as [directory name data Hhtml Hmd
                      |directory name inodes j path data Hmk Hj Hholds IH];
    intros Hnd parent st st' Hrun.
  - cbn [parseInode] in Hrun.
    destruct (create E (outPathOf (joinPath directory name))) eqn:Hcreate.
    2:{ pose proof (parseFile_copy_fatal E directory parent name data nav static st
                      Hnav Hstatic Hhtml Hmd Hcreate) as Hf.
        rewrite Hrun in Hf. discriminate. }
    destruct (io_copy E (outPathOf (joinPath directory name))) eqn:Hcopy.
    2:{ exfalso. revert Hrun. apply String.eqb_neq in Hhtml, Hmd.
        unfold parseFile, NewPage, copyFile, bind, emit, ret, fatal, write_file.
        cbv zeta. rewrite Hnav, Hstatic, Hhtml, Hmd. cbn [pages disk trace].
        rewrite Hcreate, Hcopy. discriminate. }
    rewrite (parseFile_opaque E directory parent name data nav static st
               Hnav Hstatic Hhtml Hmd Hcreate Hcopy) in Hrun.
    injection Hrun as <-. cbn [pages disk]. split; [apply lookup_insert_eq|].
    intros Hm k p. rewrite lookup_insert. case_decide as Hk; [|apply Hm].
    now intros [= <-].
  - rewrite parseInode_Dir in Hrun. cbv zeta in Hrun.
    unfold bind at 1, emit at 1 in Hrun. rewrite Hmk in Hrun.
    unfold bind at 1, emit at 1 in Hrun. unfold parseDirectoryContent in Hrun.
    unfold bind at 1, emit at 1 in Hrun. unfold bind at 1, emit at 1 in Hrun.
    cbn [pages disk trace] in Hrun. cbn [file_outPaths] in Hnd.
    assert (Hndj : NoDup (file_outPaths (joinPath directory name) j)).
    { apply list_elem_of_split in Hj as (l1 & l2 & ->).
      rewrite flat_map_app in Hnd. cbn [flat_map] in Hnd.
      apply NoDup_app in Hnd as (_ & _ & Hnd). now apply NoDup_app in Hnd as (Hnd & _). }
    exact (forEach_parseInode_copies E _ _ inodes j (outPathOf path) data Hj
             (holds_opaque_outPath _ _ _ _ _ Hholds) Hnd
             (fun s s' H => IH Hndj _ s s' H) _ st' Hrun).
Qed.

Lemma Render_untyped E k st p :
  pages st !! k = Some p -> Type_ p = "" ->
  exists st', Render E k st = Done tt st' /\ disk st' = disk st.
Proof.
  intros Hp Hty. unfold Render, bind at 1, get_pages. rewrite Hp. cbv zeta.
  unfold bind, put_pages. cbn [Type_ set_Footer]. rewrite Hty. cbn.
  eexists. split; reflexivity.
Qed.

Lemma forEach_Render_unrendered E o ks : forall st,
  unrendered_at o (pages st) ->
  exists st', forEach (Render E) ks st = Done tt st' /\ disk st' !! o = disk st !! o.
Proof.
  induction ks as [|k ks IH]; intros st Hm; [now exists st|].
  cbn [forEach]. unfold bind.
  pose proof (Render_steps E k st) as Hs.
  assert (Hone : exists st1, Render E k st = Done tt st1 /\ disk st1 !! o = disk st !! o).
  { destruct (pages st !! k) as [p|] eqn:Hp.
    - destruct (decide (OutPath p = o)) as [Ho|Ho].
      + destruct (Render_untyped E k st p Hp (Hm k p Hp Ho)) as (st1 & H1 & Hd).
        exists st1. split; [exact H1|]. now rewrite Hd.
      + destruct (Render_disk E k st) as (st1 & H1 & Hd). exists st1.
        split; [exact H1|]. apply Hd. intros p0 Hp0. congruence.
    - exists st. split; [now apply Render_missing|reflexivity]. }
  destruct Hone as (st1 & H1 & Hd1). rewrite H1 in Hs |- *. cbn [state_of] in Hs.
  destruct (IH st1 (later_steps_unrendered o _ _ Hs Hm)) as (st' & H' & Hd').
  exists st'. split; [exact H'|]. now rewrite Hd', Hd1.
Qed.


Lemma run_assets_completes :
  run sample_env ∅ (Some content_assets)
  = Done tt (state_of (run sample_env ∅ (Some content_assets))).
Proof. vm_compute. reflexivity. Qed.


(** ** What the single-pass variant writes for a file *)

Lemma holds_file_outPath E directory parent i dir given name data :
  holds_file E directory parent i dir given name data ->
  outPathOf (joinPath dir name) ∈ file_outPaths directory i.
Proof.
  induction 1 as [directory parent name data
                 |directory parent name inodes j dir given fname data _ Hj _ IH].
  - cbn. apply elem_of_cons. now left.
  - cbn [file_outPaths]. now apply (elem_of_flat_map_intro _ _ j).
Qed.

Lemma legacy_renderFile_output L directory parent name data st st' :
  Legacy.renderFile L directory parent name (Some data) st = Done tt st' ->
  disk st' !! outPathOf (joinPath directory name)
  = match Legacy.file_output L directory parent name data with
    | Some bytes => Some bytes
    | None => disk st !! outPathOf (joinPath directory name)
    end.
Proof.
  unfold Legacy.renderFile, Legacy.NewPage, Legacy.renderHtml, Legacy.renderMd,
    Legacy.renderTo, Legacy.file_output, copyFile, bind, emit, ret, fatal, write_file.
  cbv zeta.
  destruct (read_navigation _) as [nav|]; [|now intros [= <-]].
  destruct (Legacy.read_footer L) as [footer|]; [|now intros [= <-]].
  destruct (read_static _) as [static|]; [|now intros [= <-]].
  cbn [Legacy.Name Legacy.Path Legacy.OutPath Legacy.Content Legacy.Navigation
       Legacy.Footer Legacy.StaticImports pages disk trace].
  destruct (String.eqb (TrimSuffix name (Ext name)) "index");
    cbn [Legacy.Name Legacy.Path Legacy.OutPath Legacy.Content Legacy.Navigation
         Legacy.Footer Legacy.StaticImports pages disk trace];
    (destruct (String.eqb (Ext name) ".html");
     [destruct (parse_template _ _); cbn [andb];
      [destruct (create _ _); [destruct (snd _)|]|];
      intros [= <-]; cbn [disk]; now rewrite ?lookup_insert_eq
     |destruct (String.eqb (Ext name) ".md");
      [destruct (create _ _); [destruct (snd _)|];
       intros [= <-]; cbn [disk]; now rewrite ?lookup_insert_eq
      |destruct (create _ _); [|discriminate];
       destruct (io_copy _ _); [|discriminate];
       intros [= <-]; cbn [disk]; now rewrite ?lookup_insert_eq]]).
Qed.

Lemma legacy_forEach_output L directory parent l j o (out : option string) :
  j ∈ l -> o ∈ file_outPaths directory j ->
  NoDup (flat_map (file_outPaths directory) l) ->
  (forall st st', Legacy.renderInode L directory parent j st = Done tt st' ->
     disk st' !! o = match out with Some bytes => Some bytes | None => disk st !! o end) ->
  forall st st', forEach (Legacy.renderInode L directory parent) l st = Done tt st' ->
     disk st' !! o = match out with Some bytes => Some bytes | None => disk st !! o end.
Proof.
  intros Hj Ho Hnd Hbody st st' Hrun.
  apply list_elem_of_split in Hj as (l1 & l2 & ->).
  rewrite flat_map_app in Hnd. cbn [flat_map] in Hnd.
  apply NoDup_app in Hnd as (_ & Hl1 & Hnd).
  apply NoDup_app in Hnd as (_ & Hl2 & _).
  assert (Ho1 : o ∉ flat_map (file_outPaths directory) l1).
  { intros Hin. apply (Hl1 o Hin). apply elem_of_app. now left. }
  assert (Ho2 : o ∉ flat_map (file_outPaths directory) l2) by now apply Hl2.
  apply forEach_app_Done in Hrun as (st1 & Hrun1 & Hrun).
  cbn [forEach] in Hrun. unfold bind in Hrun.
  destruct (Legacy.renderInode L directory parent j st1) as [[] st2|st2] eqn:Hrun2;
    [|discriminate].
  pose proof (Hbody _ _ Hrun2) as Hd2.
  assert (Hfor : forall l0,
            steps (bounded_step (fun x => x ∈ flat_map (file_outPaths directory) l0))
                  (forEach (Legacy.renderInode L directory parent) l0)).
  { intros l0. induction l0 as [|x l0 IH]; [apply steps_ret|].
    cbn [forEach]. apply steps_bind.
    - apply legacy_renderInode_bounded. intros x0 Hx0. cbn [flat_map].
      apply elem_of_app. now left.
    - intros _. eapply steps_mono; [|exact IH].
      intros s s'. apply bounded_step_mono. intros x0 Hx0. cbn [flat_map].
      apply elem_of_app. now right. }
  pose proof (Hfor l1 st) as Hs1. rewrite Hrun1 in Hs1. cbn [state_of] in Hs1.
  pose proof (Hfor l2 st2) as Hs2. rewrite Hrun in Hs2. cbn [state_of] in Hs2.
  destruct (bounded_steps_frame _ _ _ Hs1) as [_ Hfr1].
  destruct (bounded_steps_frame _ _ _ Hs2) as [_ Hfr2].
  now rewrite (Hfr2 o Ho2), Hd2, (Hfr1 o Ho1).
Qed.

Lemma NoDup_flat_map_elem {A B} (f : A -> list B) l x :
  x ∈ l -> NoDup (flat_map f l) -> NoDup (f x).
Proof.
  intros (l1 & l2 & ->)%list_elem_of_split Hnd.
  rewrite flat_map_app in Hnd. cbn [flat_map] in Hnd.
  apply NoDup_app in Hnd as (_ & _ & Hnd). now apply NoDup_app in Hnd as (Hnd & _).
Qed.

Lemma legacy_renderInode_output L directory parent i dir given name data :
  holds_file (Legacy.base L) directory parent i dir given name data ->
  NoDup (file_outPaths directory i) ->
  forall st st', Legacy.renderInode L directory parent i st = Done tt st' ->
    disk st' !! outPathOf (joinPath dir name)
    = match Legacy.file_output L dir given name data with
      | Some bytes => Some bytes
      | None => disk st !! outPathOf (joinPath dir name)
      end.
Proof.
  induction 1 as [directory parent name data
                 |directory parent name inodes j dir given fname data Hmk Hj Hholds IH];
    intros Hnd st st' Hrun.
  - now apply legacy_renderFile_output.
  - rewrite legacy_renderInode_Dir in Hrun. cbv zeta in Hrun.
    unfold bind at 1, emit at 1 in Hrun. rewrite Hmk in Hrun.
    unfold bind at 1, emit at 1 in Hrun. unfold Legacy.renderDirectoryContents in Hrun.
    unfold bind at 1, emit at 1 in Hrun. unfold bind at 1, emit at 1 in Hrun.
    cbn [pages disk trace] in Hrun. cbn [file_outPaths] in Hnd.
    exact (legacy_forEach_output L _ _ inodes j _ _ Hj
             (holds_file_outPath _ _ _ _ _ _ _ _ Hholds) Hnd
             (IH (NoDup_flat_map_elem _ _ _ Hj Hnd)) _ st' Hrun).
Qed.


Lemma legacy_run_assets_completes :
  Legacy.run Legacy.sample_world ∅ (Some content_assets)
  = Done tt (state_of (Legacy.run Legacy.sample_world ∅ (Some content_assets))).
Proof. vm_compute. reflexivity. Qed.


(** ** The pages of the files the walk reaches *)

Lemma holds_file_inserts E directory parent i dir given name data nav static :
  holds_file E directory parent i dir given name data ->
  read_navigation E = Some nav -> read_static E = Some static ->
  forall r, inode_inserts E directory parent i = Some r ->
    (pageKey (outPathOf (joinPath dir name)),
     file_page E dir given name data nav static) ∈ r.
Proof.
  intros Hholds Hnav Hstatic.
  induction Hholds as [directory parent name data
                      |directory parent name inodes j dir given fname data Hmk Hj _ IH];
    intros r.
  - cbn [inode_inserts]. unfold file_inserts, file_page. cbv zeta.
    rewrite Hnav, Hstatic.
    destruct (String.eqb (Ext name) ".html");
      [intros [= <-]; apply elem_of_cons; now left|].
    destruct (String.eqb (Ext name) ".md");
      [intros [= <-]; apply elem_of_cons; now left|].
    destruct (create E _ && io_copy E _); [|discriminate].
    intros [= <-]. apply elem_of_cons. now left.
  - cbn [inode_inserts]. cbv zeta. rewrite Hmk. intros Hr.
    destruct (gather_elem _ _ _ _ Hj Hr) as (a & Ha & Hsub).
    apply Hsub, IH, Ha.
Qed.

Lemma foldl_insert_pair_fresh r : forall m k,
  k ∉ r.*1 -> foldl insert_pair m r !! k = m !! k.
Proof.
  induction r as [|[k0 p0] r IH]; intros m k Hk; [reflexivity|].
  cbn [foldl]. rewrite IH.
  - unfold insert_pair. cbn. apply lookup_insert_ne. intros ->.
    apply Hk. cbn. apply elem_of_cons. now left.
  - intros Hin. apply Hk. cbn. apply elem_of_cons. now right.
Qed.

Lemma foldl_insert_pair_lookup r : forall m k p,
  NoDup r.*1 -> (k, p) ∈ r -> foldl insert_pair m r !! k = Some p.
Proof.
  induction r as [|[k0 p0] r IH]; intros m k p Hnd Hin; [now apply elem_of_nil in Hin|].
  cbn [fmap list_fmap] in Hnd. apply NoDup_cons in Hnd as [Hk0 Hnd].
  cbn [foldl]. apply elem_of_cons in Hin as [[= -> ->]|Hin].
  - rewrite foldl_insert_pair_fresh by exact Hk0.
    unfold insert_pair. cbn. apply lookup_insert_eq.
  - now apply IH.
Qed.


